(** * Redis shard router (storages/redis/impl/shard.cpp, cluster_shard.cpp)

    A shallow embedding of the two shard routers of the Redis client:

    - [Shard] (Sentinel mode): instances reconciled against a desired set of
      connection infos, command routing with an availability mask;
    - [ClusterShard] (Cluster mode): a fixed master and replicas, routing
      with a rotating start index.

    Conventions.  A [size_t] is a [Z] in [0, 2^64) with the wrap-around of
    unsigned arithmetic written out ([wrap]).  A [std::vector] is a [list],
    indexed through stdpp's lookup.  A function that logs, emits a signal,
    takes the lock or hands a command to an instance returns the list of
    these events, in program order, next to its result.  The live side of an
    instance (the [Redis] class) is not part of these sources: a handle is
    the record of what the router reads from it, and what the router asks of
    it (submit a command, connect, apply buffering settings, be constructed)
    is a variable of the enclosing section. *)

From Stdlib Require Import ZArith String List Bool Lia.
From Stdlib Require Import Sorted.
From Stdlib Require OrderedTypeEx.
From stdpp Require Import base option list strings.

#[local] Open Scope Z_scope.

(** ** Machine integers *)

Definition size_t_modulus : Z := 2 ^ 64.
Definition size_t_max : Z := size_t_modulus - 1.

(** Unsigned wrap-around of a [size_t] result. *)
Definition wrap (z : Z) : Z := z mod size_t_modulus.

Definition in_size_t (z : Z) : Prop := 0 <= z < size_t_modulus.

(** ** The vocabulary shared by both routers *)

(** [Redis::State]. *)
Inductive State : Type :=
  | kInit
  | kConnected
  | kDisconnecting
  | kDisconnected
  | kDisconnectError
  | kInitError.

#[global] Instance State_eq_dec : EqDecision State.
Proof. solve_decision. Defined.

(** Modelled from the spec: the [ServerId] class is absent from the sources.
    "A stable ServerId"; "ServerId::any is the sentinel signaling no pin".
    An id is its integer, and the sentinel is the id [-1]. *)
Record ServerId : Type := mkServerId { GetId : Z }.

#[global] Instance ServerId_eq_dec : EqDecision ServerId.
Proof. solve_decision. Defined.

Definition ServerId_any : ServerId := mkServerId (-1).

Definition IsAny (id : ServerId) : bool := bool_decide (id = ServerId_any).

(** Modelled from the spec: the [Redis] class is absent from the sources.
    What the router reads from a live instance: "connection-state, a stable
    ServerId, host/port, ping latency (duration), running-command count
    (non-negative integer), is_destroying flag, is_syncing flag". *)
Record Redis : Type := mkRedis {
  GetState : State;
  GetServerId : ServerId;
  GetServerHost : string;
  GetServerPort : Z;
  GetPingLatency : Z;
  GetRunningCommands : Z;
  IsDestroying : bool;
  IsSyncing : bool
}.

Definition is_connected (r : Redis) : bool :=
  bool_decide (GetState r = kConnected).

(** [CommandControl::Strategy]. *)
Inductive Strategy : Type :=
  | kDefault
  | kEveryDc
  | kLocalDcConductor
  | kNearestServerPing.

Record CommandControl : Type := mkCommandControl {
  strategy : Strategy;
  force_server_id : ServerId;
  allow_reads_from_master : bool;
  best_dc_count : Z
}.

(** The part of a [Command] the routers read and write. *)
Record Command : Type := mkCommand {
  control : CommandControl;
  cmd_read_only : bool;
  instance_idx : Z
}.

Definition set_instance_idx (c : Command) (idx : Z) : Command :=
  mkCommand (control c) (cmd_read_only c) idx.

(** The messages of [LOG_LIMITED_WARNING] and [LOG_WARNING] in the two files
    (trace and debug logging is not recorded). *)
Inductive Warning : Type :=
  | ServerIdNotFound (id : ServerId)
  | FallingBackToAnyServer
  | NoRedisServerIsReady
  | ExceptionInReadyChangeCallback (what : string).

(** [wait_connected_mode]. *)
Inductive WaitConnectedMode : Type :=
  | kNoWait
  | kMaster
  | kMasterOrSlave
  | kSlave
  | kMasterAndSlave.

(** The second operand of the least-loaded comparison in both [GetInstance]
    functions: [!ret || ret->IsDestroying() ||
    cur->GetRunningCommands() < ret->GetRunningCommands()]. *)
Definition better_than (cur_inst : Redis) (best : option Redis) : bool :=
  match best with
  | None => true
  | Some b =>
      IsDestroying b || (GetRunningCommands cur_inst <? GetRunningCommands b)
  end.

(** The test both [GetInstance] functions apply to a handle before the
    least-loaded comparison (the cluster router adds [!IsSyncing()]). *)
Definition usable (cur_inst : Redis) : bool :=
  negb (IsDestroying cur_inst) && is_connected cur_inst.

(** ** Cluster mode: [ClusterShard] *)

Module ClusterShard.

(** Modelled from the spec: [RedisConnectionHolder] is absent from the
    sources.  The router uses [Get()], the current handle (which it tests
    for null), and [GetState()]. *)
Record RedisConnectionHolder : Type := mkHolder {
  Get : option Redis;
  HolderState : State
}.

(** [RedisConnectionPtr]: a shared pointer, [None] when null. *)
Definition RedisConnectionPtr : Type := option RedisConnectionHolder.

Record ClusterShard : Type := mkClusterShard {
  replicas_ : list RedisConnectionPtr;
  master_ : RedisConnectionPtr;
  current_ : Z;
  shard_ : Z
}.

Inductive Event : Type :=
  | EvLimitedWarning (w : Warning)
  | EvRedisAsyncCommand (target : Redis) (cmd : Command) (accepted : bool).

Definition IsNearestServerPing (cc : CommandControl) : bool :=
  match strategy cc with
  | kEveryDc | kDefault => false
  | kLocalDcConductor | kNearestServerPing => true
  end.

Definition holder_connected (p : RedisConnectionPtr) : bool :=
  match p with
  | Some h => bool_decide (HolderState h = kConnected)
  | None => false
  end.

Definition IsMasterReady (s : ClusterShard) : bool :=
  holder_connected (master_ s).

Definition IsReplicaReady (s : ClusterShard) : bool :=
  existsb holder_connected (replicas_ s).

Definition IsReady (mode : WaitConnectedMode) (s : ClusterShard) : bool :=
  match mode with
  | kNoWait => true
  | kMaster => IsMasterReady s
  | kMasterOrSlave => IsMasterReady s || IsReplicaReady s
  | kSlave => IsReplicaReady s
  | kMasterAndSlave => IsMasterReady s && IsReplicaReady s
  end.

(** *** Statistics *)

(** [ShardStatistics]: the per-instance map keyed by host and port (here an
    association list with the semantics of [emplace]: an existing key keeps
    its value), the handles added to [shard_total], and the readiness bit.
    An [InstanceStatistics] is the handle it was taken from. *)
Record ShardStatistics : Type := mkStats {
  stat_instances : list (string * Z * Redis);
  shard_total : list Redis;
  is_ready : bool
}.

Definition stats_empty : ShardStatistics := mkStats [] [] false.

Definition emplace (k : string * Z) (v : Redis)
    (m : list (string * Z * Redis)) : list (string * Z * Redis) :=
  if existsb (fun e => bool_decide (fst e = k)) m then m else m ++ [(k, v)].

(** The lambda [add_to_stats]. *)
Definition add_to_stats (stats : ShardStatistics) (instance : option Redis)
    : ShardStatistics :=
  match instance with
  | None => stats
  | Some r =>
      mkStats (emplace (GetServerHost r, GetServerPort r) r
                 (stat_instances stats))
              (shard_total stats ++ [r])
              (is_ready stats)
  end.

Definition add_holder (stats : ShardStatistics) (p : RedisConnectionPtr)
    : ShardStatistics :=
  match p with
  | Some h => add_to_stats stats (Get h)
  | None => stats
  end.

(** [GetStatistics]; the [MetricsSettings] argument only shapes the
    per-instance statistics and is left out. *)
Definition GetStatistics (master : bool) (s : ClusterShard)
    : ShardStatistics :=
  let stats :=
    if master then add_holder stats_empty (master_ s)
    else fold_left add_holder (replicas_ s) stats_empty in
  mkStats (stat_instances stats) (shard_total stats)
          (IsReady kMasterAndSlave s).

(** *** The start index *)

Section StartIndex.

(** [SentinelImplBase::kDefaultPrevInstanceIdx], declared outside these
    sources: the value of [instance_idx] of a command that has not been
    tried yet. *)
Variable kDefaultPrevInstanceIdx : Z.

(** The reassigned [servers_count] of [GetStartIndex]. *)
Definition effective_servers_count (cc : CommandControl) (attempt : Z)
    (prev_instance_idx servers_count : Z) : Z :=
  let first_attempt := attempt =? 0 in
  let first_try := prev_instance_idx =? kDefaultPrevInstanceIdx in
  if first_try && first_attempt && negb (allow_reads_from_master cc)
  then Z.max (wrap (servers_count - 1)) 1
  else servers_count.

(** [%] on [size_t]: undefined for a zero divisor. *)
Definition size_t_rem (a b : Z) : option Z :=
  if b =? 0 then None else Some (a mod b).

Definition GetStartIndex (cc : CommandControl) (attempt : Z)
    (is_nearest_ping_server : bool)
    (prev_instance_idx current servers_count : Z) : option Z :=
  let best_dc_count :=
    if best_dc_count cc =? 0 then size_t_max else best_dc_count cc in
  let first_try := prev_instance_idx =? kDefaultPrevInstanceIdx in
  let servers_count :=
    effective_servers_count cc attempt prev_instance_idx servers_count in
  if is_nearest_ping_server then
    offset ← (if first_try
              then size_t_rem current (Z.min best_dc_count servers_count)
              else Some (wrap (prev_instance_idx + 1)));
    size_t_rem (wrap (attempt + offset)) servers_count
  else if first_try then
    size_t_rem (wrap (current + attempt)) servers_count
  else
    size_t_rem (wrap (wrap (prev_instance_idx + 1) + attempt)) servers_count.

End StartIndex.

(** *** Routing *)

Section Routing.

Variable kDefaultPrevInstanceIdx : Z.

(** [Redis::AsyncCommand]: whether the instance took the command, and the
    handle as the router reads it afterwards. *)
Variable Redis_AsyncCommand : Redis -> Command -> bool * Redis.

(** [std::partial_sort(first, first + n, last, by ascending ping latency)],
    on a range it can compare: the order it leaves behind the first [n]
    places is unspecified. *)
Variable partial_sort :
  nat -> list RedisConnectionPtr -> list RedisConnectionPtr.

(** What the comparator of [GetNearestServersPing] needs of each operand:
    it evaluates [l->Get()->GetPingLatency()] after
    [UASSERT(r->Get() && l->Get())], so the pointer must not be null and
    its holder must have a handle. *)
Definition holds_handle (p : RedisConnectionPtr) : bool :=
  match p with
  | Some h => match Get h with Some _ => true | None => false end
  | None => false
  end.

Definition MakeReadonlyWithMasters (s : ClusterShard)
    : list RedisConnectionPtr :=
  replicas_ s ++ [master_ s].

(** [GetNearestServersPing], with the vector it sorts in place as its
    result.  Which elements [std::partial_sort] hands to the comparator is
    up to the library, so the sort is defined here only where every element
    can be compared: [None] stands for the failed assertion or the null
    dereference in the comparator. *)
Definition GetNearestServersPing (cc : CommandControl)
    (instances : list RedisConnectionPtr)
    : option (list RedisConnectionPtr) :=
  let size := Z.of_nat (length instances) in
  let num_instances := Z.min (best_dc_count cc) size in
  if (num_instances =? 0) && (num_instances =? size) then Some instances
  else if forallb holds_handle instances
  then Some (partial_sort (Z.to_nat num_instances) instances)
  else None.

Definition GetAvailableServers (s : ClusterShard) (cc : CommandControl)
    : option (list RedisConnectionPtr) :=
  if negb (IsNearestServerPing cc) then Some (MakeReadonlyWithMasters s)
  else if allow_reads_from_master cc then
    GetNearestServersPing cc (MakeReadonlyWithMasters s)
  else
    ret ← GetNearestServersPing cc (replicas_ s);
    Some (ret ++ [master_ s]).

(** The scan of [replicas_] in [GetAvailableServer].  The outer [None] is the
    dereference of a null pointer, which the source does not guard. *)
Fixpoint find_replica (id : ServerId) (replicas : list RedisConnectionPtr)
    : option (option Redis) :=
  match replicas with
  | [] => Some None
  | replica_connection :: rest =>
      holder ← replica_connection;
      replica ← Get holder;
      if bool_decide (GetServerId replica = id) then Some (Some replica)
      else find_replica id rest
  end.

Definition GetAvailableServer (s : ClusterShard) (cc : CommandControl)
    (read_only : bool) : option (option Redis * list Event) :=
  if negb read_only then
    holder ← master_ s;
    Some (Get holder, [])
  else if IsAny (force_server_id cc) then Some (None, [])
  else
    let id := force_server_id cc in
    holder ← master_ s;
    master ← Get holder;
    if bool_decide (GetServerId master = id) then Some (Some master, [])
    else
      found ← find_replica id (replicas_ s);
      match found with
      | Some replica => Some (Some replica, [])
      | None => Some (None, [EvLimitedWarning (ServerIdNotFound id)])
      end.

(** One round of the loop of [GetInstance]; the accumulator is [ret] and
    [*pinstance_idx]. *)
Definition GetInstance_visit (instances : list RedisConnectionPtr)
    (start_idx end_ : Z) (acc : option (option Redis * Z)) (i : nat)
    : option (option Redis * Z) :=
  '(ret, pidx) ← acc;
  let idx := wrap (start_idx + Z.of_nat i) mod end_ in
  connection ← instances !! Z.to_nat idx;
  holder ← connection;
  match Get holder with
  | Some cur_inst =>
      if usable cur_inst && negb (IsSyncing cur_inst)
         && better_than cur_inst ret
      then Some (Some cur_inst, idx)
      else Some (ret, pidx)
  | None => Some (ret, pidx)
  end.

Definition GetInstance (instances : list RedisConnectionPtr)
    (start_idx attempt : Z) (is_nearest_ping_server : bool)
    (best_dc_count pinstance_idx : Z) : option (option Redis * Z) :=
  let size := Z.of_nat (length instances) in
  let end_ :=
    if is_nearest_ping_server && (attempt =? 0) && negb (best_dc_count =? 0)
    then Z.min size best_dc_count
    else size in
  fold_left (GetInstance_visit instances start_idx end_)
            (seq 0 (Z.to_nat end_)) (Some (None, pinstance_idx)).

(** What a call of [AsyncCommand] leaves behind: its result, the command
    (with the slot written back), the counter and the events.  The method
    is [const]: of the shard itself only the atomic counter changes. *)
Record Outcome : Type := mkOutcome {
  ret : bool;
  out_command : Command;
  out_current : Z;
  trace : list Event
}.

(** The handle behind a candidate after the instance has seen a command. *)
Definition store_handle (r : Redis) (p : RedisConnectionPtr)
    : RedisConnectionPtr :=
  h ← p; Some (mkHolder (Some r) (HolderState h)).

(** The attempt loop of [AsyncCommand], [fuel] attempts from [attempt] on. *)
Fixpoint attempts (fuel : nat) (attempt : Z) (cc : CommandControl)
    (is_nearest_ping_server : bool) (current servers_count : Z)
    (available_servers : list RedisConnectionPtr) (command : Command)
    : option (bool * Command * list Event) :=
  match fuel with
  | O => Some (false, command, [EvLimitedWarning NoRedisServerIsReady])
  | S fuel' =>
      start_idx ← GetStartIndex kDefaultPrevInstanceIdx cc attempt
                    is_nearest_ping_server (instance_idx command) current
                    servers_count;
      '(instance, idx) ← GetInstance available_servers start_idx attempt
                           is_nearest_ping_server (best_dc_count cc)
                           kDefaultPrevInstanceIdx;
      match instance with
      | None =>
          attempts fuel' (wrap (attempt + 1)) cc is_nearest_ping_server
                   current servers_count available_servers command
      | Some r =>
          let command1 := set_instance_idx command idx in
          let '(accepted, r') := Redis_AsyncCommand r command1 in
          let ev := EvRedisAsyncCommand r command1 accepted in
          if accepted then Some (true, command1, [ev])
          else
            '(b, c, evs) ← attempts fuel' (wrap (attempt + 1)) cc
                             is_nearest_ping_server current servers_count
                             (alter (store_handle r') (Z.to_nat idx)
                                    available_servers)
                             command1;
            Some (b, c, ev :: evs)
      end
  end.

(** [ClusterShard::AsyncCommand].  [None] stands for the undefined behaviour
    of a null dereference, a failed assertion or a zero divisor. *)
Definition AsyncCommand (s : ClusterShard) (command : Command)
    : option Outcome :=
  let cc := control command in
  let read_only := cmd_read_only command in
  if negb read_only || negb (IsAny (force_server_id cc)) then
    '(instance, log) ← GetAvailableServer s cc read_only;
    match instance with
    | Some r =>
        let '(accepted, _) := Redis_AsyncCommand r command in
        Some (mkOutcome accepted command (current_ s)
                (log ++ [EvRedisAsyncCommand r command accepted]))
    | None => Some (mkOutcome false command (current_ s) log)
    end
  else
    let current := current_ s in
    available_servers ← GetAvailableServers s cc;
    let servers_count := Z.of_nat (length available_servers) in
    let max_attempts := (length (replicas_ s) + 1 + 1)%nat in
    '(b, c, evs) ← attempts max_attempts 0 cc (IsNearestServerPing cc)
                     current servers_count available_servers command;
    Some (mkOutcome b c (wrap (current + 1)) evs).

End Routing.

End ClusterShard.

(** ** Sentinel mode: [Shard] *)

Module Shard.

(** The declared identity of an instance. *)
Record ConnectionInfoInt : Type := mkInfo {
  host : string;
  port : Z;
  read_only : bool
}.

Definition set_read_only (i : ConnectionInfoInt) (ro : bool)
    : ConnectionInfoInt :=
  mkInfo (host i) (port i) ro.

(** Modelled from the spec: the comparison operators of [ConnectionInfoInt]
    are declared outside these sources.  "Totally ordered and
    equality-comparable; used as the key against which reconciliation runs";
    "if only the read_only flag changed on a still-present info, the live
    entry is mutated in place": the order is that of host and port, and
    does not look at the read-only flag. *)
Definition info_less (a b : ConnectionInfoInt) : bool :=
  match String.compare (host a) (host b) with
  | Lt => true
  | Eq => port a <? port b
  | Gt => false
  end.

(** Equivalence under the order, which is what [std::set] looks keys up by. *)
Definition info_equiv (a b : ConnectionInfoInt) : bool :=
  negb (info_less a b) && negb (info_less b a).

(** [std::set<ConnectionInfoInt>]: its elements in iteration order. *)
Definition InfoSet : Type := list ConnectionInfoInt.

Definition set_find (x : ConnectionInfoInt) (s : InfoSet)
    : option ConnectionInfoInt :=
  find (info_equiv x) s.

Definition set_erase (s : InfoSet) (x : ConnectionInfoInt) : InfoSet :=
  List.filter (fun y => negb (info_equiv x y)) s.

Fixpoint set_insert (x : ConnectionInfoInt) (s : InfoSet) : InfoSet :=
  match s with
  | [] => [x]
  | y :: rest =>
      if info_less x y then x :: y :: rest
      else if info_less y x then y :: set_insert x rest
      else y :: rest
  end.

(** [operator==] of two sets: same size, equal element by element. *)
Fixpoint set_equal (a b : InfoSet) : bool :=
  match a, b with
  | [], [] => true
  | x :: a', y :: b' => info_equiv x y && set_equal a' b'
  | _, _ => false
  end.

(** A [ConnectionInfo] paired with its live handle.  The handle is made by
    [std::make_shared] and is never null. *)
Record ConnectionStatus : Type := mkStatus {
  info : ConnectionInfoInt;
  instance : Redis
}.

Definition set_instance (c : ConnectionStatus) (r : Redis)
    : ConnectionStatus :=
  mkStatus (info c) r.

(** [CommandsBufferingSettings], declared outside these sources; the router
    only passes it on. *)
Definition CommandsBufferingSettings : Type := Z.

Record Shard : Type := mkShard {
  connection_infos_ : InfoSet;
  instances_ : list ConnectionStatus;
  clean_wait_ : list ConnectionStatus;
  destroying_ : bool;
  current_ : Z;
  last_connected_time_ : Z;
  last_ready_time_ : Z;
  prev_connected_ : bool;
  cluster_mode_ : bool;
  commands_buffering_settings_ : option CommandsBufferingSettings
}.

Inductive Event : Type :=
  | EvLockShared
  | EvLockUnique
  | EvUnlock
  | EvLimitedWarning (w : Warning)
  | EvWarning (w : Warning)
  | EvRedisAsyncCommand (idx : Z) (target : Redis) (cmd : Command)
      (accepted : bool)
  | EvSignalInstanceReady (id : ServerId) (is_read_only : bool)
  | EvReadyChangeCallback (ready : bool).

(** *** The availability mask *)

Definition has_server_id (id : ServerId) (c : ConnectionStatus) : Prop :=
  GetServerId (instance c) = id.

#[global] Instance has_server_id_dec id c : Decision (has_server_id id c).
Proof. unfold has_server_id. apply _. Defined.

(** [std::sort] on pairs (ping, index): the lexicographic order. *)
Definition pair_less (a b : Z * Z) : bool :=
  (fst a <? fst b) || ((fst a =? fst b) && (snd a <? snd b)).

Fixpoint insert_sorted (x : Z * Z) (l : list (Z * Z)) : list (Z * Z) :=
  match l with
  | [] => [x]
  | y :: rest =>
      if pair_less y x then y :: insert_sorted x rest else x :: y :: rest
  end.

Definition sort_pairs (l : list (Z * Z)) : list (Z * Z) :=
  foldr insert_sorted [] l.

(** The second loop of [GetNearestServersPing]: it stops when [count]
    reaches zero. *)
Fixpoint mark_nearest (instances : list ConnectionStatus)
    (with_masters with_slaves : bool) (sorted_by_ping : list (Z * Z))
    (count : Z) (result : list bool) : list bool :=
  match sorted_by_ping with
  | [] => result
  | (_, num) :: rest =>
      if 0 <? count then
        match instances !! Z.to_nat num with
        | Some c =>
            let ro := read_only (info c) in
            if (with_slaves && ro) || (with_masters && negb ro)
            then mark_nearest instances with_masters with_slaves rest
                   (count - 1) (<[Z.to_nat num := true]> result)
            else mark_nearest instances with_masters with_slaves rest
                   count result
        | None => result
        end
      else result
  end.

Definition GetNearestServersPing (instances : list ConnectionStatus)
    (cc : CommandControl) (with_masters with_slaves : bool) : list bool :=
  let size := Z.of_nat (length instances) in
  let count := if best_dc_count cc =? 0 then size else best_dc_count cc in
  let sorted_by_ping :=
    sort_pairs
      (imap (fun i c => (wrap (GetPingLatency (instance c)), Z.of_nat i))
            instances) in
  mark_nearest instances with_masters with_slaves sorted_by_ping count
               (replicate (length instances) false).

(** [GetAvailableServers]: the mask (one byte per instance, here a [bool])
    and what it logs. *)
Definition GetAvailableServers (instances : list ConnectionStatus)
    (cc : CommandControl) (with_masters with_slaves : bool)
    : list bool * list Event :=
  if negb (IsAny (force_server_id cc)) then
    let id := force_server_id cc in
    let result := replicate (length instances) false in
    match list_find (has_server_id id) instances with
    | Some (i, _) => (<[i := true]> result, [])
    | None => (result, [EvLimitedWarning (ServerIdNotFound id)])
    end
  else
    match strategy cc with
    | kEveryDc | kDefault =>
        (map (fun c => if read_only (info c) then with_slaves
                       else with_masters) instances, [])
    | kLocalDcConductor | kNearestServerPing =>
        (GetNearestServersPing instances cc with_masters with_slaves, [])
    end.

(** *** Selection *)

(** [available_servers[i]] as a truth value. *)
Definition available (available_servers : list bool) (i : Z) : bool :=
  default false (available_servers !! Z.to_nat i).

(** One round of the loop of [GetInstance]; the accumulator is [instance]
    and [*pinstance_idx]. *)
Definition GetInstance_visit (instances : list ConnectionStatus)
    (available_servers : list bool) (may_fallback_to_any : bool)
    (skip_idx : Z) (cmd_ro : bool) (cur end_ : Z)
    (acc : option Redis * Z) (i : nat) : option Redis * Z :=
  let instance_idx := wrap (cur + Z.of_nat i) mod end_ in
  match instances !! Z.to_nat instance_idx with
  | None => acc
  | Some c =>
      if (instance_idx =? skip_idx)
         || (negb cmd_ro && read_only (info c))
         || (negb may_fallback_to_any
             && negb (available available_servers instance_idx))
      then acc
      else
        let cur_inst := instance c in
        if usable cur_inst && better_than cur_inst (fst acc)
        then (Some cur_inst, instance_idx)
        else acc
  end.

(** [GetInstance]: the chosen handle, [*pinstance_idx] and the counter
    after [++current_]. *)
Definition GetInstance (instances : list ConnectionStatus) (current : Z)
    (available_servers : list bool) (may_fallback_to_any : bool)
    (skip_idx : Z) (cmd_ro : bool) (pinstance_idx : Z)
    : option Redis * Z * Z :=
  let end_ := Z.of_nat (length instances) in
  let cur := wrap (current + 1) in
  (fold_left
     (GetInstance_visit instances available_servers may_fallback_to_any
        skip_idx cmd_ro cur end_)
     (seq 0 (length instances)) (None, pinstance_idx),
   cur).

Section Operations.

(** [Redis::AsyncCommand]: whether the instance took the command, and the
    handle as the router reads it afterwards. *)
Variable Redis_AsyncCommand : Redis -> Command -> bool * Redis.

(** The constructor of [Redis] behind [std::make_shared<Redis>(pool, flag)];
    the number tells the handles constructed so far apart. *)
Variable new_Redis : bool -> nat -> Redis.

(** [Redis::Connect] and [Redis::SetCommandsBufferingSettings], as the
    router reads the handle after the call. *)
Variable Redis_Connect : ConnectionInfoInt -> Redis -> Redis.
Variable Redis_SetCommandsBufferingSettings :
  CommandsBufferingSettings -> Redis -> Redis.

(** [ready_change_callback_]: [None] for an empty [std::function]; a call
    returns [Some what] when it throws a [std::exception].  A callback that
    throws anything else is the subject of [ProcessStateUpdate_exn], after
    this section. *)
Variable ready_change_callback_ : option (bool -> option string).

(** *** Routing *)

Record Outcome : Type := mkOutcome {
  ret : bool;
  out_shard : Shard;
  out_command : Command;
  trace : list Event
}.

Definition with_routing (s : Shard) (instances : list ConnectionStatus)
    (current : Z) : Shard :=
  mkShard (connection_infos_ s) instances (clean_wait_ s) (destroying_ s)
          current (last_connected_time_ s) (last_ready_time_ s)
          (prev_connected_ s) (cluster_mode_ s)
          (commands_buffering_settings_ s).

(** The warning inside [if (instance)]. *)
Definition fallback_warning (available_servers : list bool) (idx : Z)
    : list Event :=
  if (Z.of_nat (length available_servers) <=? idx)
     || negb (available available_servers idx)
  then [EvLimitedWarning FallingBackToAnyServer]
  else [].

(** The attempt loop of [AsyncCommand], [fuel] attempts from [attempt] on;
    [idx] is the local of that name. *)
Fixpoint attempts (fuel : nat) (attempt : Z) (available_servers : list bool)
    (instances : list ConnectionStatus) (current : Z) (command : Command)
    (idx : Z)
    : bool * list ConnectionStatus * Z * Command * list Event :=
  match fuel with
  | O =>
      (false, instances, current, command,
       [EvLimitedWarning NoRedisServerIsReady])
  | S fuel' =>
      let skip_idx :=
        if attempt =? 0 then instance_idx command else size_t_max in
      let may_fallback_to_any :=
        negb (attempt =? 0) && IsAny (force_server_id (control command)) in
      let '(found, idx1, current1) :=
        GetInstance instances current available_servers may_fallback_to_any
                    skip_idx (cmd_read_only command) idx in
      let command1 := set_instance_idx command idx1 in
      match found with
      | None =>
          attempts fuel' (wrap (attempt + 1)) available_servers instances
                   current1 command1 idx1
      | Some r =>
          let warn := fallback_warning available_servers idx1 in
          let '(accepted, r') := Redis_AsyncCommand r command1 in
          let ev := EvRedisAsyncCommand idx1 r command1 accepted in
          let instances1 :=
            alter (fun c => set_instance c r') (Z.to_nat idx1) instances in
          if accepted
          then (true, instances1, current1, command1, warn ++ [ev])
          else
            let '(b, insts, cur, c, evs) :=
              attempts fuel' (wrap (attempt + 1)) available_servers
                       instances1 current1 command1 idx1 in
            (b, insts, cur, c, warn ++ ev :: evs)
      end
  end.

Definition AsyncCommand (s : Shard) (command : Command) : Outcome :=
  if destroying_ s then mkOutcome false s command [EvLockShared; EvUnlock]
  else
    let '(available_servers, log) :=
      GetAvailableServers (instances_ s) (control command)
        (negb (cmd_read_only command)
         || allow_reads_from_master (control command))
        (cmd_read_only command) in
    let max_attempts := S (length (instances_ s)) in
    let '(b, insts, cur, c, evs) :=
      attempts max_attempts 0 available_servers (instances_ s) (current_ s)
               command 0 in
    mkOutcome b (with_routing s insts cur) c
              (EvLockShared :: log ++ evs ++ [EvUnlock]).

(** *** Teardown and the desired set *)

Definition Clean (s : Shard) : Shard * list Event :=
  (mkShard (connection_infos_ s) [] [] true (current_ s)
           (last_connected_time_ s) (last_ready_time_ s) (prev_connected_ s)
           (cluster_mode_ s) (commands_buffering_settings_ s),
   [EvLockUnique; EvUnlock]).

Definition with_connection_infos (s : Shard) (infos : InfoSet) : Shard :=
  mkShard infos (instances_ s) (clean_wait_ s) (destroying_ s) (current_ s)
          (last_connected_time_ s) (last_ready_time_ s) (prev_connected_ s)
          (cluster_mode_ s) (commands_buffering_settings_ s).

Definition SetConnectionInfo (s : Shard)
    (info_array : list ConnectionInfoInt) : bool * Shard * list Event :=
  let new_info := fold_left (fun acc x => set_insert x acc) info_array [] in
  if set_equal new_info (connection_infos_ s)
  then (false, s, [EvLockUnique; EvUnlock])
  else (true, with_connection_infos s new_info, [EvLockUnique; EvUnlock]).

Definition SetCommandsBufferingSettings (s : Shard)
    (settings : CommandsBufferingSettings) : Shard * list Event :=
  let apply c :=
    set_instance c (Redis_SetCommandsBufferingSettings settings (instance c))
  in
  (mkShard (connection_infos_ s) (map apply (instances_ s))
           (map apply (clean_wait_ s)) (destroying_ s) (current_ s)
           (last_connected_time_ s) (last_ready_time_ s) (prev_connected_ s)
           (cluster_mode_ s) (Some settings),
   [EvLockShared; EvUnlock]).

(** *** Reconciliation: creation *)

Definition with_lists (s : Shard) (instances clean_wait : list ConnectionStatus)
    : Shard :=
  mkShard (connection_infos_ s) instances clean_wait (destroying_ s)
          (current_ s) (last_connected_time_ s) (last_ready_time_ s)
          (prev_connected_ s) (cluster_mode_ s)
          (commands_buffering_settings_ s).

Definition GetConnectionInfosToCreate (s : Shard) : InfoSet :=
  let need_to_create := connection_infos_ s in
  let need_to_create :=
    fold_left set_erase (map info (instances_ s)) need_to_create in
  fold_left set_erase (map info (clean_wait_ s)) need_to_create.

(** One round of the loop over [instances_] in [UpdateCleanWaitQueue]; the
    accumulator is the instances kept so far and [instances_changed]. *)
Definition reconcile_instance (infos : InfoSet)
    (acc : list ConnectionStatus * bool) (c : ConnectionStatus)
    : list ConnectionStatus * bool :=
  match set_find (info c) infos with
  | None => (fst acc, true)
  | Some conn_info =>
      if bool_decide (read_only conn_info ≠ read_only (info c))
      then (fst acc
              ++ [mkStatus (set_read_only (info c) (read_only conn_info))
                           (instance c)],
            true)
      else (fst acc ++ [c], snd acc)
  end.

Definition UpdateCleanWaitQueue (s : Shard)
    (add_clean_wait : list ConnectionStatus) : bool * Shard * list Event :=
  let clean_wait := clean_wait_ s ++ add_clean_wait in
  let '(instances, instances_changed) :=
    fold_left (reconcile_instance (connection_infos_ s)) (instances_ s)
              ([], false) in
  (instances_changed, with_lists s instances clean_wait,
   [EvLockUnique; EvUnlock]).

(** The body of the loop of [ProcessCreation] for the [k]-th info. *)
Definition create_entry (s : Shard) (alloc : nat) (k : nat)
    (id : ConnectionInfoInt) : ConnectionStatus :=
  let fresh := new_Redis (cluster_mode_ s && read_only id) (alloc + k) in
  let buffered :=
    match commands_buffering_settings_ s with
    | Some settings => Redis_SetCommandsBufferingSettings settings fresh
    | None => fresh
    end in
  mkStatus id (Redis_Connect id buffered).

(** [ProcessCreation]; [alloc] is the number of handles constructed before
    the call. *)
Definition ProcessCreation (alloc : nat) (s : Shard)
    : bool * Shard * list Event :=
  let need_to_create := GetConnectionInfosToCreate s in
  let add_clean_wait := imap (create_entry s alloc) need_to_create in
  let '(changed, s', evs) := UpdateCleanWaitQueue s add_clean_wait in
  (changed, s', [EvLockShared; EvUnlock] ++ evs).

(** *** Reconciliation: state update *)

(** One round of the first loop of [ProcessStateUpdate]; the accumulator is
    the instances kept so far, [clean_wait_] and [instances_changed]. *)
Definition demote_entry
    (acc : list ConnectionStatus * list ConnectionStatus * bool)
    (c : ConnectionStatus)
    : list ConnectionStatus * list ConnectionStatus * bool :=
  let '(instances, clean_wait, instances_changed) := acc in
  if is_connected (instance c)
  then (instances ++ [c], clean_wait, instances_changed)
  else (instances, clean_wait ++ [c], true).

(** The state of the second loop: [instances_], the entries left in
    [clean_wait_], [erase_clean_wait], [instances_changed],
    [last_connected_time_] and the signals emitted so far. *)
Record Scan : Type := mkScan {
  sc_instances : list ConnectionStatus;
  sc_clean_wait : list ConnectionStatus;
  sc_erase : list ConnectionStatus;
  sc_changed : bool;
  sc_last_connected : Z;
  sc_events : list Event
}.

(** One round of the second loop: the [switch] on the state of the handle.
    [now] is the reading of [std::chrono::steady_clock::now()]; one call of
    [ProcessStateUpdate] reads the clock as one instant. *)
Definition scan_entry (now : Z) (acc : Scan) (c : ConnectionStatus) : Scan :=
  match GetState (instance c) with
  | kConnected =>
      mkScan (sc_instances acc ++ [c]) (sc_clean_wait acc) (sc_erase acc)
             true now
             (sc_events acc
                ++ [EvSignalInstanceReady (GetServerId (instance c))
                                          (read_only (info c))])
  | kDisconnecting | kDisconnected | kDisconnectError | kInitError =>
      mkScan (sc_instances acc) (sc_clean_wait acc) (sc_erase acc ++ [c])
             (sc_changed acc) (sc_last_connected acc) (sc_events acc)
  | kInit =>
      mkScan (sc_instances acc) (sc_clean_wait acc ++ [c]) (sc_erase acc)
             (sc_changed acc) (sc_last_connected acc) (sc_events acc)
  end.

(** The part of [ProcessStateUpdate] after the locked block, for a callback
    that returns or throws a [std::exception]. *)
Definition notify_ready_change (prev_connected new_connected : bool)
    : list Event :=
  if bool_decide (prev_connected ≠ new_connected) then
    match ready_change_callback_ with
    | Some callback =>
        EvReadyChangeCallback new_connected ::
        match callback new_connected with
        | Some what => [EvWarning (ExceptionInReadyChangeCallback what)]
        | None => []
        end
    | None => []
    end
  else [].

Definition is_empty {A : Type} (l : list A) : bool :=
  match l with [] => true | _ => false end.

Definition ProcessStateUpdate (now : Z) (s : Shard)
    : bool * Shard * list Event :=
  let '(instances1, clean_wait1, changed1) :=
    fold_left demote_entry (instances_ s) ([], clean_wait_ s, false) in
  let sc :=
    fold_left (scan_entry now) clean_wait1
      (mkScan instances1 [] [] changed1 (last_connected_time_ s) []) in
  let new_connected := negb (is_empty (sc_instances sc)) in
  let last_ready_time :=
    if negb (is_empty (sc_erase sc))
       && (last_ready_time_ s <? sc_last_connected sc)
    then now else last_ready_time_ s in
  (sc_changed sc,
   mkShard (connection_infos_ s) (sc_instances sc) (sc_clean_wait sc)
           (destroying_ s) (current_ s) (sc_last_connected sc)
           last_ready_time new_connected (cluster_mode_ s)
           (commands_buffering_settings_ s),
   EvLockUnique :: sc_events sc ++ EvUnlock ::
     notify_ready_change (prev_connected_ s) new_connected).

(** *** The shard over time *)

(** What can happen to a shard: a call of one of its methods, or the
    handles changing on their own (connections come up and go down). *)
Inductive Operation : Type :=
  | OpAsyncCommand (command : Command)
  | OpClean
  | OpSetConnectionInfo (info_array : list ConnectionInfoInt)
  | OpSetCommandsBufferingSettings (settings : CommandsBufferingSettings)
  | OpProcessCreation (alloc : nat)
  | OpProcessStateUpdate (now : Z)
  | OpHandlesChange (change : Redis -> Redis).

Definition handles_change (change : Redis -> Redis) (s : Shard) : Shard :=
  let apply c := set_instance c (change (instance c)) in
  with_lists s (map apply (instances_ s)) (map apply (clean_wait_ s)).

Definition run_operation (s : Shard) (op : Operation) : Shard :=
  match op with
  | OpAsyncCommand command => out_shard (AsyncCommand s command)
  | OpClean => fst (Clean s)
  | OpSetConnectionInfo info_array =>
      snd (fst (SetConnectionInfo s info_array))
  | OpSetCommandsBufferingSettings settings =>
      fst (SetCommandsBufferingSettings s settings)
  | OpProcessCreation alloc => snd (fst (ProcessCreation alloc s))
  | OpProcessStateUpdate now => snd (fst (ProcessStateUpdate now s))
  | OpHandlesChange change => handles_change change s
  end.

Definition run_operations (s : Shard) (ops : list Operation) : Shard :=
  fold_left run_operation ops s.

End Operations.

(** *** The state update, with every way the callback can end *)

(** How a call of [ready_change_callback_] ends: it returns, it throws a
    [std::exception], which [ProcessStateUpdate] catches and logs, or it
    throws something else, which [catch (const std::exception&)] lets
    through. *)
Inductive CallbackEnd : Type :=
  | CallbackReturns
  | CallbackThrows (what : string)
  | CallbackThrowsOther.

(** How a call of [ProcessStateUpdate] ends: it returns [instances_changed],
    or the exception of the callback leaves it. *)
Inductive StateUpdateEnd : Type :=
  | Returned (instances_changed : bool)
  | Escaped.

(** [ProcessStateUpdate] for a callback that may end in any of the three
    ways.  The locked block is that of [ProcessStateUpdate]; an exception
    that is not a [std::exception] leaves the function before
    [prev_connected_ = new_connected] and before the [return]. *)
Definition ProcessStateUpdate_exn
    (ready_change_callback_ : option (bool -> CallbackEnd)) (now : Z)
    (s : Shard) : StateUpdateEnd * Shard * list Event :=
  let '(instances1, clean_wait1, changed1) :=
    fold_left demote_entry (instances_ s) ([], clean_wait_ s, false) in
  let sc :=
    fold_left (scan_entry now) clean_wait1
      (mkScan instances1 [] [] changed1 (last_connected_time_ s) []) in
  let new_connected := negb (is_empty (sc_instances sc)) in
  let last_ready_time :=
    if negb (is_empty (sc_erase sc))
       && (last_ready_time_ s <? sc_last_connected sc)
    then now else last_ready_time_ s in
  let after (prev_connected : bool) :=
    mkShard (connection_infos_ s) (sc_instances sc) (sc_clean_wait sc)
            (destroying_ s) (current_ s) (sc_last_connected sc)
            last_ready_time prev_connected (cluster_mode_ s)
            (commands_buffering_settings_ s) in
  let locked := EvLockUnique :: sc_events sc ++ [EvUnlock] in
  if bool_decide (prev_connected_ s ≠ new_connected) then
    match ready_change_callback_ with
    | Some callback =>
        match callback new_connected with
        | CallbackReturns =>
            (Returned (sc_changed sc), after new_connected,
             locked ++ [EvReadyChangeCallback new_connected])
        | CallbackThrows what =>
            (Returned (sc_changed sc), after new_connected,
             locked ++ [EvReadyChangeCallback new_connected;
                        EvWarning (ExceptionInReadyChangeCallback what)])
        | CallbackThrowsOther =>
            (Escaped, after (prev_connected_ s),
             locked ++ [EvReadyChangeCallback new_connected])
        end
    | None => (Returned (sc_changed sc), after new_connected, locked)
    end
  else (Returned (sc_changed sc), after (prev_connected_ s), locked).

(** A callback that returns or throws a [std::exception], as one that may
    end in any way. *)
Definition as_callback (callback : bool -> option string)
    : bool -> CallbackEnd :=
  fun ready =>
    match callback ready with
    | Some what => CallbackThrows what
    | None => CallbackReturns
    end.

(** *** Introspection *)

Definition IsConnectedToAllServersDebug (s : Shard) (allow_empty : bool)
    : bool :=
  forallb (fun c => is_connected (instance c)) (instances_ s)
  && (allow_empty || negb (is_empty (instances_ s))).

(** The test of [GetAllInstancesServerId] and of
    [GetAvailableServersWeighted] on a handle. *)
Definition connected_alive (r : Redis) : bool :=
  is_connected r && negb (IsDestroying r).

Definition GetAllInstancesServerId (s : Shard) : list ServerId :=
  map (fun c => GetServerId (instance c))
      (List.filter (fun c => connected_alive (instance c)) (instances_ s)).

Definition InstancesSize (s : Shard) : Z := Z.of_nat (length (instances_ s)).

(** [std::unordered_map::emplace]: a key that is present keeps its value. *)
Definition emplace_weight (id : ServerId) (w : Z)
    (m : list (ServerId * Z)) : list (ServerId * Z) :=
  if existsb (fun e => bool_decide (fst e = id)) m then m else m ++ [(id, w)].

(** One round of the loop of [GetAvailableServersWeighted]; [i] is the
    index of the entry [c]. *)
Definition weigh_entry (available : list bool) (with_master : bool)
    (server_weights : list (ServerId * Z)) (ic : nat * ConnectionStatus)
    : list (ServerId * Z) :=
  let '(i, c) := ic in
  if default false (available !! i)
     && connected_alive (instance c)
     && (with_master || read_only (info c))
  then emplace_weight (GetServerId (instance c)) 1 server_weights
  else server_weights.

(** [GetAvailableServersWeighted]: the map from server id to weight, as the
    pairs it holds, and what the mask computation logs. *)
Definition GetAvailableServersWeighted (s : Shard) (with_master : bool)
    (cc : CommandControl) : list (ServerId * Z) * list Event :=
  let '(available, log) :=
    GetAvailableServers (instances_ s) cc with_master true in
  (fold_left (weigh_entry available with_master)
             (imap (fun i c => (i, c)) (instances_ s)) [],
   EvLockShared :: log ++ [EvUnlock]).

(** [ShardStatistics] of a Sentinel shard: the per-instance map (keyed by
    [Fulltext()] of the info, here the info's host and port; an
    [InstanceStatistics] is the handle it was taken from), the readiness
    bit and [last_ready_time]. *)
Record ShardStatistics : Type := mkStats {
  stat_instances : list (string * Z * Redis);
  is_ready : bool;
  last_ready_time : Z
}.

(** One round of the loop of [GetStatistics]. *)
Definition add_instance_stats (master : bool) (stats : ShardStatistics)
    (c : ConnectionStatus) : ShardStatistics :=
  if bool_decide (read_only (info c) = master) then stats
  else
    let key := (host (info c), port (info c)) in
    mkStats
      (if existsb (fun e => bool_decide (fst e = key)) (stat_instances stats)
       then stat_instances stats
       else stat_instances stats ++ [(key, instance c)])
      (is_connected (instance c) || is_ready stats)
      (last_ready_time stats).

Definition GetStatistics (master : bool) (s : Shard) : ShardStatistics :=
  let stats := fold_left (add_instance_stats master) (instances_ s)
                         (mkStats [] false 0) in
  mkStats (stat_instances stats) (is_ready stats) (last_ready_time_ s).

End Shard.

(** ** Reading a trace *)

(** The events of a trace that occur while the lock is held ([held] tells
    whether it is at the start). *)
Fixpoint under_lock (held : bool) (tr : list Shard.Event)
    : list Shard.Event :=
  match tr with
  | [] => []
  | Shard.EvLockShared :: rest | Shard.EvLockUnique :: rest =>
      under_lock true rest
  | Shard.EvUnlock :: rest => under_lock false rest
  | e :: rest => if held then e :: under_lock held rest
                 else under_lock held rest
  end.

(** The events of a trace that occur while the lock is not held. *)
Fixpoint outside_lock (held : bool) (tr : list Shard.Event)
    : list Shard.Event :=
  match tr with
  | [] => []
  | Shard.EvLockShared :: rest | Shard.EvLockUnique :: rest =>
      outside_lock true rest
  | Shard.EvUnlock :: rest => outside_lock false rest
  | e :: rest => if held then outside_lock held rest
                 else e :: outside_lock held rest
  end.

(** A signal to an observer: [signal_instance_ready_] or the readiness
    callback. *)
Definition is_notification (e : Shard.Event) : bool :=
  match e with
  | Shard.EvSignalInstanceReady _ _ | Shard.EvReadyChangeCallback _ => true
  | _ => false
  end.

Definition is_limited_warning (e : Shard.Event) : bool :=
  match e with
  | Shard.EvLimitedWarning _ => true
  | _ => false
  end.

Definition is_dispatch (e : Shard.Event) : bool :=
  match e with
  | Shard.EvRedisAsyncCommand _ _ _ _ => true
  | _ => false
  end.

(** ** Reading the state of an entry *)

Definition entry_connected (c : Shard.ConnectionStatus) : bool :=
  is_connected (Shard.instance c).

Definition entry_pending (c : Shard.ConnectionStatus) : bool :=
  bool_decide (GetState (Shard.instance c) = kInit).

(** Neither connected nor still connecting: the states drained from
    [clean_wait_]. *)
Definition entry_terminal (c : Shard.ConnectionStatus) : bool :=
  negb (entry_connected c) && negb (entry_pending c).

(** The signal [signal_instance_ready_] emits for an entry. *)
Definition ready_signal (c : Shard.ConnectionStatus) : Shard.Event :=
  Shard.EvSignalInstanceReady (GetServerId (Shard.instance c))
                              (Shard.read_only (Shard.info c)).

(** The tests of the loop of [GetInstance] on the entry at index [j], apart
    from the least-loaded comparison. *)
Definition eligible (avail : list bool) (fallback : bool) (skip_idx : Z)
    (ro : bool) (j : Z) (c : Shard.ConnectionStatus) : bool :=
  negb ((j =? skip_idx)
        || (negb ro && Shard.read_only (Shard.info c))
        || (negb fallback && negb (Shard.available avail j)))
  && usable (Shard.instance c).

(** [instances_] once the instance at [idx], whose handle was [r], has seen
    [cmd]. *)
Definition after_dispatch
    (Redis_AsyncCommand : Redis -> Command -> bool * Redis)
    (r : Redis) (cmd : Command) (idx : Z)
    (instances : list Shard.ConnectionStatus)
    : list Shard.ConnectionStatus :=
  alter (fun c => Shard.set_instance c (snd (Redis_AsyncCommand r cmd)))
        (Z.to_nat idx) instances.

(** Every dispatch of a trace satisfies [D] (of the index and the handle it
    was made to). *)
Definition dispatched (D : Z -> Redis -> Prop) (evs : list Shard.Event)
    : Prop :=
  forall i r c a, In (Shard.EvRedisAsyncCommand i r c a) evs -> D i r.

(** No dispatch of a trace was accepted. *)
Definition all_refused (evs : list Shard.Event) : Prop :=
  forall i r c a, In (Shard.EvRedisAsyncCommand i r c a) evs -> a = false.

(** The trace has exactly one accepted dispatch, made to index [idx], and
    no dispatch after it. *)
Definition accepted_once (evs : list Shard.Event) (idx : Z) : Prop :=
  exists pre post r c,
    evs = pre ++ Shard.EvRedisAsyncCommand idx r c true :: post
    /\ all_refused pre
    /\ List.filter is_dispatch post = [].

(** Some entry of [l] stands for the info [y]. *)
Definition covered (l : list Shard.ConnectionStatus)
    (y : Shard.ConnectionInfoInt) : bool :=
  existsb (fun c => Shard.info_equiv (Shard.info c) y) l.

(** What the loop of [UpdateCleanWaitQueue] makes of one entry of
    [instances_]: dropped, or kept with the read-only flag of the desired
    set. *)
Definition reconciled (infos : Shard.InfoSet) (c : Shard.ConnectionStatus)
    : option Shard.ConnectionStatus :=
  match Shard.set_find (Shard.info c) infos with
  | None => None
  | Some conn_info =>
      Some (Shard.mkStatus
              (Shard.set_read_only (Shard.info c) (Shard.read_only conn_info))
              (Shard.instance c))
  end.

(** The entry is in [instances_] as the desired set has it. *)
Definition settled (infos : Shard.InfoSet) (c : Shard.ConnectionStatus)
    : bool :=
  match Shard.set_find (Shard.info c) infos with
  | None => false
  | Some conn_info =>
      bool_decide (Shard.read_only conn_info = Shard.read_only (Shard.info c))
  end.

(** The info of an entry is looked up successfully in the desired set. *)
Definition known (infos : Shard.InfoSet) (c : Shard.ConnectionStatus)
    : Prop :=
  Shard.set_find (Shard.info c) infos <> None.

(** Membership: every entry, live or pending, is known to the desired
    set. *)
Definition membership (s : Shard.Shard) : Prop :=
  forall c, In c (Shard.instances_ s ++ Shard.clean_wait_ s) ->
            known (Shard.connection_infos_ s) c.

(** ** Reading a cluster shard *)


(** The pointer is not null and holds a handle. *)
Definition handle_present (p : ClusterShard.RedisConnectionPtr) : Prop :=
  exists h r, p = Some h /\ ClusterShard.Get h = Some r.

(** No pointer of the shard is null, and each holds a handle. *)
Definition handles_present (cs : ClusterShard.ClusterShard) : Prop :=
  handle_present (ClusterShard.master_ cs)
  /\ Forall handle_present (ClusterShard.replicas_ cs).

(** ** Sample shards *)

Module Sample.

Definition handle (st : State) (id : Z) (running : Z) (destroying : bool)
    : Redis :=
  mkRedis st (mkServerId id) "redis" (6379 + id) 1 running destroying false.

(** An instance that takes every command and counts it as running. *)
Definition accept_all (r : Redis) (c : Command) : bool * Redis :=
  (true,
   mkRedis (GetState r) (GetServerId r) (GetServerHost r) (GetServerPort r)
           (GetPingLatency r) (GetRunningCommands r + 1) (IsDestroying r)
           (IsSyncing r)).

(** An instance that refuses every command. *)
Definition refuse_all (r : Redis) (c : Command) : bool * Redis := (false, r).

Definition new_Redis (send_readonly : bool) (n : nat) : Redis :=
  handle kInit (100 + Z.of_nat n) 0 false.

Definition Connect (i : Shard.ConnectionInfoInt) (r : Redis) : Redis :=
  mkRedis (GetState r) (GetServerId r) (Shard.host i) (Shard.port i)
          (GetPingLatency r) (GetRunningCommands r) (IsDestroying r)
          (IsSyncing r).

Definition SetBuffering (settings : Shard.CommandsBufferingSettings)
    (r : Redis) : Redis := r.

Definition callback : option (bool -> option string) :=
  Some (fun _ => None).

Definition sort_by_ping (n : nat) (l : list ClusterShard.RedisConnectionPtr)
    : list ClusterShard.RedisConnectionPtr := l.

Definition info_m : Shard.ConnectionInfoInt := Shard.mkInfo "m" 6379 false.
Definition info_r1 : Shard.ConnectionInfoInt := Shard.mkInfo "r1" 6379 true.
Definition info_r2 : Shard.ConnectionInfoInt := Shard.mkInfo "r2" 6379 true.

Definition shard_of (infos : Shard.InfoSet)
    (instances clean_wait : list Shard.ConnectionStatus) (destroying : bool)
    : Shard.Shard :=
  Shard.mkShard infos instances clean_wait destroying 0 5 0 true false None.

(** A shard before its first reconciliation. *)
Definition empty_shard : Shard.Shard :=
  Shard.mkShard [] [] [] false 0 0 0 false false None.

(** A desired set is installed and reconciled, then replaced by another and
    reconciled again, while the first handle is still connecting. *)
Definition replace_desired_set : list Shard.Operation :=
  [Shard.OpSetConnectionInfo [info_m];
   Shard.OpProcessCreation 0;
   Shard.OpSetConnectionInfo [info_r1];
   Shard.OpProcessCreation 1].

(** Scenario 1: a master and two replicas, all connected. *)
Definition three_connected : Shard.Shard :=
  shard_of [info_m; info_r1; info_r2]
    [Shard.mkStatus info_m (handle kConnected 1 0 false);
     Shard.mkStatus info_r1 (handle kConnected 2 0 false);
     Shard.mkStatus info_r2 (handle kConnected 3 0 false)]
    [] false.

(** Scenario 1, with the master marked destroying. *)
Definition master_destroying : Shard.Shard :=
  shard_of [info_m; info_r1; info_r2]
    [Shard.mkStatus info_m (handle kConnected 1 0 true);
     Shard.mkStatus info_r1 (handle kConnected 2 0 false);
     Shard.mkStatus info_r2 (handle kConnected 3 0 false)]
    [] false.

(** Scenario 5: one live instance whose handle went to Disconnecting. *)
Definition entry_a : Shard.ConnectionStatus :=
  Shard.mkStatus info_m (handle kDisconnecting 1 0 false).

Definition one_disconnecting : Shard.Shard :=
  shard_of [info_m] [entry_a] [] false.

(** Scenario 4: a pending instance whose handle has reached Connected. *)
Definition one_pending_connected : Shard.Shard :=
  Shard.mkShard [info_m] []
    [Shard.mkStatus info_m (handle kConnected 1 0 false)]
    false 0 0 0 false false None.

(** A pending instance whose info has left the desired set. *)
Definition pending_orphan : Shard.Shard :=
  shard_of [info_r1] [] [Shard.mkStatus info_m (handle kInit 1 0 false)]
    false.

Definition write_command (pin : Z) : Command :=
  mkCommand (mkCommandControl kDefault (mkServerId pin) false 0) false
            size_t_max.

Definition read_command (pin : Z) : Command :=
  mkCommand (mkCommandControl kDefault (mkServerId pin) false 0) true
            size_t_max.

(** An unpinned read with the nearest-ping strategy and no window. *)
Definition nearest_read_command : Command :=
  mkCommand (mkCommandControl kNearestServerPing ServerId_any false 0) true
            size_t_max.

Definition holder (st : State) (id : Z) : ClusterShard.RedisConnectionPtr :=
  Some (ClusterShard.mkHolder (Some (handle st id 0 false)) st).

(** A cluster shard with master 1 and replicas 2 and 3, all connected. *)
Definition cluster : ClusterShard.ClusterShard :=
  ClusterShard.mkClusterShard
    [holder kConnected 2; holder kConnected 3] (holder kConnected 1) 0 0.

(** A cluster shard with a connected master and no connected replica. *)
Definition cluster_master_only : ClusterShard.ClusterShard :=
  ClusterShard.mkClusterShard [holder kInit 2] (holder kConnected 1) 0 0.

(** A cluster shard whose replicas are connected and carry five running
    commands each, with an idle connected master. *)
Definition busy_holder (id : Z) : ClusterShard.RedisConnectionPtr :=
  Some (ClusterShard.mkHolder (Some (handle kConnected id 5 false))
          kConnected).

Definition cluster_busy_replicas : ClusterShard.ClusterShard :=
  ClusterShard.mkClusterShard
    [busy_holder 2; busy_holder 3] (holder kConnected 1) 0 0.

End Sample.

(** ** Further readings of a shard and of a trace *)

Definition is_ready_callback (e : Shard.Event) : bool :=
  match e with
  | Shard.EvReadyChangeCallback _ => true
  | _ => false
  end.

(** The host and port of an entry: its key in the desired set. *)
Definition entry_key (c : Shard.ConnectionStatus) : string * Z :=
  (Shard.host (Shard.info c), Shard.port (Shard.info c)).

Definition info_key (i : Shard.ConnectionInfoInt) : string * Z :=
  (Shard.host i, Shard.port i).

(** No two entries of the shard, live or pending, stand for the same host
    and port. *)
Definition unique_entries (s : Shard.Shard) : Prop :=
  NoDup (map entry_key (Shard.instances_ s ++ Shard.clean_wait_ s)).

(** The role test of the availability mask: a read-only instance is
    available to a command that takes replicas, a master to one that takes
    masters. *)
Definition role_matches (with_masters with_slaves : bool)
    (c : Shard.ConnectionStatus) : bool :=
  if Shard.read_only (Shard.info c) then with_slaves else with_masters.

(** The ping latency of an entry as [GetNearestServersPing] reads it. *)
Definition entry_ping (c : Shard.ConnectionStatus) : Z :=
  wrap (GetPingLatency (Shard.instance c)).

(** The number of dispatches in a trace. *)
Definition dispatch_count (evs : list Shard.Event) : nat :=
  length (List.filter is_dispatch evs).

(** The counter after [n] increments. *)
Definition advance (current : Z) (n : nat) : Z :=
  wrap (current + Z.of_nat n).

(** The desired set is in strictly increasing order of host and port, as a
    [std::set] is. *)
Definition sorted_infos (infos : Shard.InfoSet) : Prop :=
  StronglySorted (fun a b => Shard.info_less a b = true) infos.

(** The desired set is a set, and no host and port has two entries. *)
Definition consistent (s : Shard.Shard) : Prop :=
  sorted_infos (Shard.connection_infos_ s) /\ unique_entries s.

(** The index [GetInstance] looks at in round [i] of its loop over [n]
    instances, from the counter [current] it was entered with. *)
Definition rotation (current : Z) (n : nat) (i : nat) : Z :=
  wrap (wrap (current + 1) + Z.of_nat i) mod Z.of_nat n.

(** The entry [GetInstance] looks at in round [i] passes its tests. *)
Definition eligible_round (instances : list Shard.ConnectionStatus)
    (current : Z) (avail : list bool) (fallback : bool) (skip_idx : Z)
    (ro : bool) (i : nat) (c : Shard.ConnectionStatus) : Prop :=
  instances !! Z.to_nat (rotation current (length instances) i) = Some c
  /\ eligible avail fallback skip_idx ro
       (rotation current (length instances) i) c = true.

(** After [a] rounds: nothing chosen and nothing eligible so far, or the
    entry chosen in some round [k], which is eligible, no more loaded than
    any eligible entry seen, and less loaded than those seen before it. *)
Definition chosen_in (instances : list Shard.ConnectionStatus)
    (current : Z) (avail : list bool) (fallback : bool) (skip_idx : Z)
    (ro : bool) (a : nat) (acc : option Redis * Z) : Prop :=
  let met := eligible_round instances current avail fallback skip_idx ro in
  match fst acc with
  | None => forall i c, (i < a)%nat -> ~ met i c
  | Some r =>
      exists k c,
        (k < a)%nat
        /\ snd acc = rotation current (length instances) k
        /\ met k c
        /\ Shard.instance c = r
        /\ (forall i ci, (i < a)%nat -> met i ci ->
              GetRunningCommands r <= GetRunningCommands (Shard.instance ci))
        /\ (forall i ci, (i < k)%nat -> met i ci ->
              GetRunningCommands r < GetRunningCommands (Shard.instance ci))
  end.

(** The order of [std::sort] on pairs, as "not after". *)
Definition pair_le (a b : Z * Z) : Prop := Shard.pair_less b a = false.

(** The pairs (ping, index) [GetNearestServersPing] sorts. *)
Definition ping_pairs (instances : list Shard.ConnectionStatus)
    : list (Z * Z) :=
  imap (fun i c => (entry_ping c, Z.of_nat i)) instances.

(** The role test of [GetNearestServersPing] on the instance a pair names. *)
Definition pair_role (instances : list Shard.ConnectionStatus)
    (with_masters with_slaves : bool) (pn : Z * Z) : bool :=
  match instances !! Z.to_nat (snd pn) with
  | Some c => role_matches with_masters with_slaves c
  | None => false
  end.

(** Setting the mask at each of the indices [ks]. *)
Definition mark_all (ks : list nat) (mask : list bool) : list bool :=
  fold_left (fun m k => <[k := true]> m) ks mask.

(** The number of instances a mask marks. *)
Definition marked (mask : list bool) : nat :=
  length (List.filter (fun b : bool => b) mask).

(** ** Further readings of a cluster shard *)

(** The tests of [ClusterShard::GetInstance] on a handle, apart from the
    least-loaded comparison. *)
Definition cluster_usable (r : Redis) : bool :=
  usable r && negb (IsSyncing r).

(** The index [ClusterShard::GetInstance] looks at in round [i]. *)
Definition cluster_round (start_idx end_ : Z) (i : nat) : Z :=
  wrap (start_idx + Z.of_nat i) mod end_.

(** The handle behind the candidate at index [j]. *)
Definition candidate (instances : list ClusterShard.RedisConnectionPtr)
    (j : Z) (r : Redis) : Prop :=
  exists h, instances !! Z.to_nat j = Some (Some h)
            /\ ClusterShard.Get h = Some r.

(** The window of [ClusterShard::GetInstance]: the first [best_dc_count]
    candidates on the first attempt of a nearest-ping command, all of them
    otherwise. *)
Definition window (instances : list ClusterShard.RedisConnectionPtr)
    (attempt : Z) (nearest : bool) (best_dc_count : Z) : Z :=
  if nearest && (attempt =? 0) && negb (best_dc_count =? 0)
  then Z.min (Z.of_nat (length instances)) best_dc_count
  else Z.of_nat (length instances).

(** The state of the loop of [ClusterShard::GetInstance] after [a] rounds:
    no handle chosen and none usable so far, or the handle chosen in some
    round [k], usable, no more loaded than any usable handle seen and less
    loaded than those seen before it. *)
Definition cluster_chosen (instances : list ClusterShard.RedisConnectionPtr)
    (start_idx end_ pidx : Z) (a : nat) (acc : option Redis * Z) : Prop :=
  match fst acc with
  | None =>
      snd acc = pidx
      /\ forall i r, (i < a)%nat ->
           candidate instances (cluster_round start_idx end_ i) r ->
           cluster_usable r = false
  | Some r =>
      exists k,
        (k < a)%nat
        /\ snd acc = cluster_round start_idx end_ k
        /\ candidate instances (cluster_round start_idx end_ k) r
        /\ cluster_usable r = true
        /\ (forall i ri, (i < a)%nat ->
              candidate instances (cluster_round start_idx end_ i) ri ->
              cluster_usable ri = true ->
              GetRunningCommands r <= GetRunningCommands ri)
        /\ (forall i ri, (i < k)%nat ->
              candidate instances (cluster_round start_idx end_ i) ri ->
              cluster_usable ri = true ->
              GetRunningCommands r < GetRunningCommands ri)
  end.

Definition is_cluster_dispatch (e : ClusterShard.Event) : bool :=
  match e with
  | ClusterShard.EvRedisAsyncCommand _ _ _ => true
  | _ => false
  end.

Definition cluster_dispatch_count (evs : list ClusterShard.Event) : nat :=
  length (List.filter is_cluster_dispatch evs).

(** The instance a command is handed to passed the tests of
    [ClusterShard::GetInstance]. *)
Definition cluster_dispatch_usable (e : ClusterShard.Event) : Prop :=
  match e with
  | ClusterShard.EvRedisAsyncCommand r _ _ => cluster_usable r = true
  | _ => True
  end.

(** A command handed to an instance that did not take it. *)
Definition is_refused (e : ClusterShard.Event) : bool :=
  match e with
  | ClusterShard.EvRedisAsyncCommand _ _ accepted => negb accepted
  | _ => false
  end.

(** How a submit of the cluster router ends: with the instance taking the
    command as the router left it, or with the warning. *)
Definition cluster_last_event (ret : bool) (c : Command)
    (e : ClusterShard.Event) : Prop :=
  if ret then exists r, e = ClusterShard.EvRedisAsyncCommand r c true
  else e = ClusterShard.EvLimitedWarning NoRedisServerIsReady.

Definition non_null (p : ClusterShard.RedisConnectionPtr) : Prop :=
  p <> None.

(** The test of [GetAvailableServersWeighted] on the entry at index [i]. *)
Definition weighted (available_servers : list bool) (with_master : bool)
    (i : nat) (c : Shard.ConnectionStatus) : bool :=
  default false (available_servers !! i)
  && Shard.connected_alive (Shard.instance c)
  && (with_master || Shard.read_only (Shard.info c)).

(** The entries [Shard::GetStatistics(master)] looks at: the masters for
    [master = true], the replicas otherwise. *)
Definition stats_role (master : bool) (c : Shard.ConnectionStatus) : bool :=
  negb (bool_decide (Shard.read_only (Shard.info c) = master)).

(** The trace of the attempt loop of [ClusterShard::AsyncCommand] from the
    candidate list [avail] and the command [cmd].  Each hand-over goes to
    the handle the list holds at some index, a handle that passes the tests
    of [GetInstance], with that index written to [instance_idx] of the
    command; a refusal is followed by the rest of the loop, on the list as
    the instance left it and with the command as it was handed over; the
    loop ends with the first hand-over that is accepted, or with the
    warning.  [ret] and [final] are the result of the loop and the command
    as the loop leaves it. *)
Fixpoint cluster_follows
    (Redis_AsyncCommand : Redis -> Command -> bool * Redis)
    (avail : list ClusterShard.RedisConnectionPtr) (cmd : Command)
    (evs : list ClusterShard.Event) (ret : bool) (final : Command)
    : Prop :=
  match evs with
  | [] => False
  | ClusterShard.EvLimitedWarning w :: rest =>
      w = NoRedisServerIsReady /\ rest = [] /\ ret = false /\ final = cmd
  | ClusterShard.EvRedisAsyncCommand r c accepted :: rest =>
      exists idx,
        0 <= idx < Z.of_nat (length avail)
        /\ candidate avail idx r
        /\ cluster_usable r = true
        /\ c = set_instance_idx cmd idx
        /\ accepted = fst (Redis_AsyncCommand r c)
        /\ if accepted then rest = [] /\ ret = true /\ final = c
           else cluster_follows Redis_AsyncCommand
                  (alter (ClusterShard.store_handle
                            (snd (Redis_AsyncCommand r c)))
                         (Z.to_nat idx) avail)
                  c rest ret final
  end.

(** * Properties *)

(** ** Arithmetic on [size_t] *)

Lemma size_t_modulus_pos : 0 < size_t_modulus.
Proof. reflexivity. Qed.

Lemma wrap_small (z : Z) : in_size_t z -> wrap z = z.
Proof. intros H. unfold wrap. apply Z.mod_small. exact H. Qed.

Lemma wrap_in_size_t (z : Z) : in_size_t (wrap z).
Proof. unfold wrap, in_size_t. apply Z.mod_pos_bound. reflexivity. Qed.

Lemma wrap_add_l (a b : Z) : wrap (wrap a + b) = wrap (a + b).
Proof. unfold wrap. apply Zplus_mod_idemp_l. Qed.

Lemma wrap_add_r (a b : Z) : wrap (a + wrap b) = wrap (a + b).
Proof. unfold wrap. apply Zplus_mod_idemp_r. Qed.

Lemma size_t_rem_pos (a b : Z) :
  0 < b -> ClusterShard.size_t_rem a b = Some (a mod b).
Proof.
  intros Hb. unfold ClusterShard.size_t_rem.
  destruct (Z.eqb_spec b 0); [lia | reflexivity].
Qed.

(** ** The start index of the cluster router *)

Lemma effective_servers_count_range (k : Z) (cc : CommandControl)
    (attempt prev count : Z) :
  1 <= count < size_t_modulus ->
  1 <= ClusterShard.effective_servers_count k cc attempt prev count
    < size_t_modulus.
Proof.
  intros Hc. unfold ClusterShard.effective_servers_count.
  destruct ((prev =? k) && (attempt =? 0)
            && negb (allow_reads_from_master cc)); [|lia].
  rewrite wrap_small by (unfold in_size_t; lia). lia.
Qed.

(** C5.  The start index of the cluster router.  For a candidate count of
    at least one and arguments in the range of [size_t]: the effective count
    is the count less one, clamped at one, when this is the first try and
    the first attempt and reads from the master are disabled, and the count
    otherwise; with a nearest-ping strategy the result is
    [current mod min(best_dc_count, effective) mod effective] on the first
    attempt of the first try (a zero [best_dc_count] leaves the window
    unbounded) and [(prev_idx + 1 + attempt) mod effective] on a retry; with
    the other strategies it is [(current + attempt) mod effective] on the
    first try and [(prev_idx + 1 + attempt) mod effective] on a retry.  The
    sums are sums of [size_t], and are the plain sums when these fit. *)
Theorem GetStartIndex_cases (k : Z) (cc : CommandControl)
    (attempt prev_idx current count : Z) (nearest : bool) :
  in_size_t attempt -> in_size_t prev_idx -> in_size_t current ->
  in_size_t (best_dc_count cc) -> 1 <= count < size_t_modulus ->
  let first_try := prev_idx =? k in
  let reduced :=
    first_try && (attempt =? 0) && negb (allow_reads_from_master cc) in
  let effective :=
    ClusterShard.effective_servers_count k cc attempt prev_idx count in
  let window :=
    if best_dc_count cc =? 0 then effective
    else Z.min (best_dc_count cc) effective in
  let result :=
    ClusterShard.GetStartIndex k cc attempt nearest prev_idx current count in
  effective = (if reduced then Z.max (count - 1) 1 else count)
  /\ (nearest = true -> first_try = true -> attempt = 0 ->
      result = Some ((current mod window) mod effective))
  /\ (nearest = true -> first_try = false ->
      result = Some (wrap (prev_idx + 1 + attempt) mod effective))
  /\ (nearest = false -> first_try = true ->
      result = Some (wrap (current + attempt) mod effective))
  /\ (nearest = false -> first_try = false ->
      result = Some (wrap (prev_idx + 1 + attempt) mod effective))
  /\ (prev_idx + 1 + attempt < size_t_modulus ->
      wrap (prev_idx + 1 + attempt) = prev_idx + 1 + attempt)
  /\ (current + attempt < size_t_modulus ->
      wrap (current + attempt) = current + attempt).
Proof.
  intros Ha Hp Hcur Hb Hc first_try reduced effective window result.
  pose proof (effective_servers_count_range k cc attempt prev_idx count Hc)
    as Heff.
  fold effective in Heff.
  assert (Hwin : 0 < window <= effective).
  { subst window. destruct (Z.eqb_spec (best_dc_count cc) 0); [lia|].
    unfold in_size_t in Hb. lia. }
  assert (Hmin : Z.min (if best_dc_count cc =? 0 then size_t_max
                        else best_dc_count cc) effective = window).
  { subst window. destruct (Z.eqb_spec (best_dc_count cc) 0); [|reflexivity].
    unfold size_t_max. lia. }
  repeat split.
  - subst effective reduced first_try.
    unfold ClusterShard.effective_servers_count.
    destruct ((prev_idx =? k) && (attempt =? 0)
              && negb (allow_reads_from_master cc)); [|reflexivity].
    rewrite wrap_small by (unfold in_size_t; lia). reflexivity.
  - intros -> Hft ->. subst result. unfold ClusterShard.GetStartIndex.
    fold first_try effective. rewrite Hft, Hmin. cbn [mbind option_bind].
    rewrite size_t_rem_pos by lia. cbn.
    rewrite size_t_rem_pos by lia. f_equal. f_equal.
    apply wrap_small.
    pose proof (Z.mod_pos_bound current window ltac:(lia)).
    unfold in_size_t. lia.
  - intros -> Hft. subst result. unfold ClusterShard.GetStartIndex.
    fold first_try effective. rewrite Hft. cbn.
    rewrite size_t_rem_pos by lia. f_equal. f_equal.
    rewrite wrap_add_r. f_equal. lia.
  - intros -> Hft. subst result. unfold ClusterShard.GetStartIndex.
    fold first_try effective. rewrite Hft.
    rewrite size_t_rem_pos by lia. reflexivity.
  - intros -> Hft. subst result. unfold ClusterShard.GetStartIndex.
    fold first_try effective. rewrite Hft.
    rewrite size_t_rem_pos by lia. f_equal. f_equal.
    rewrite wrap_add_l. reflexivity.
  - intros H. apply wrap_small. unfold in_size_t in *. lia.
  - intros H. apply wrap_small. unfold in_size_t in *. lia.
Qed.

Lemma GetStartIndex_cases_witness :
  ClusterShard.GetStartIndex size_t_max
    (mkCommandControl kNearestServerPing ServerId_any false 2)
    0 true size_t_max 7 3 = Some 1.
Proof.
  pose proof (GetStartIndex_cases size_t_max
                (mkCommandControl kNearestServerPing ServerId_any false 2)
                0 size_t_max 7 3 true) as H.
  cbv zeta in H.
  destruct H as (_ & H & _);
    try (unfold in_size_t, size_t_max, size_t_modulus; simpl; lia).
  exact (H eq_refl eq_refl eq_refl).
Defined.

(** ** Readiness in the statistics of a cluster shard *)

Lemma holder_connected_spec (p : ClusterShard.RedisConnectionPtr) :
  ClusterShard.holder_connected p = true
  <-> exists h, p = Some h /\ ClusterShard.HolderState h = kConnected.
Proof.
  unfold ClusterShard.holder_connected. destruct p as [h|].
  - rewrite bool_decide_eq_true. split.
    + intros H. exists h. auto.
    + intros (h' & [= <-] & H). exact H.
  - split; [discriminate | intros (h & [=] & _)].
Qed.

(** C10.  [ClusterShard::GetStatistics] reports as [is_ready] the readiness
    of the mode master-and-slave, whichever side the statistics are asked
    for: the bit is set exactly when the master pointer is not null and
    connected and some replica is connected.  Hence a shard with a connected
    master and no connected replica reports [is_ready = false] for its
    master side too. *)
Theorem GetStatistics_is_ready (master : bool)
    (s : ClusterShard.ClusterShard) :
  ClusterShard.is_ready (ClusterShard.GetStatistics master s)
    = ClusterShard.IsReady kMasterAndSlave s
  /\ (ClusterShard.is_ready (ClusterShard.GetStatistics master s) = true
      <-> (exists m, ClusterShard.master_ s = Some m
                     /\ ClusterShard.HolderState m = kConnected)
          /\ (exists r, In (Some r) (ClusterShard.replicas_ s)
                        /\ ClusterShard.HolderState r = kConnected))
  /\ (ClusterShard.IsMasterReady s = true ->
      ClusterShard.IsReplicaReady s = false ->
      ClusterShard.is_ready (ClusterShard.GetStatistics true s) = false).
Proof.
  split; [reflexivity|]. split.
  - cbn. unfold ClusterShard.IsMasterReady, ClusterShard.IsReplicaReady.
    rewrite andb_true_iff, holder_connected_spec, existsb_exists.
    split.
    + intros [Hm (p & Hin & Hp)]. split; [exact Hm|].
      apply holder_connected_spec in Hp as (r & -> & Hr). eauto.
    + intros [Hm (r & Hin & Hr)]. split; [exact Hm|].
      exists (Some r). split; [exact Hin|].
      apply holder_connected_spec. eauto.
  - intros Hm Hr. cbn. rewrite Hm, Hr. reflexivity.
Qed.

Lemma GetStatistics_is_ready_witness :
  ClusterShard.IsMasterReady Sample.cluster_master_only = true
  /\ ClusterShard.is_ready
       (ClusterShard.GetStatistics true Sample.cluster_master_only) = false.
Proof.
  split; [reflexivity|].
  apply (GetStatistics_is_ready true Sample.cluster_master_only);
    reflexivity.
Defined.

(** ** The destroying flag *)

Section Destroying.

Variable Redis_AsyncCommand : Redis -> Command -> bool * Redis.
Variable new_Redis : bool -> nat -> Redis.
Variable Redis_Connect : Shard.ConnectionInfoInt -> Redis -> Redis.
Variable Redis_SetCommandsBufferingSettings :
  Shard.CommandsBufferingSettings -> Redis -> Redis.
Variable ready_change_callback_ : option (bool -> option string).

Abbreviation AsyncCommand := (Shard.AsyncCommand Redis_AsyncCommand).
Abbreviation run_operation :=
  (Shard.run_operation Redis_AsyncCommand new_Redis Redis_Connect
     Redis_SetCommandsBufferingSettings ready_change_callback_).
Abbreviation run_operations :=
  (Shard.run_operations Redis_AsyncCommand new_Redis Redis_Connect
     Redis_SetCommandsBufferingSettings ready_change_callback_).

Lemma AsyncCommand_destroying (s : Shard.Shard) (command : Command) :
  Shard.destroying_ s = true ->
  AsyncCommand s command
  = Shard.mkOutcome false s command [Shard.EvLockShared; Shard.EvUnlock].
Proof. intros H. unfold Shard.AsyncCommand. rewrite H. reflexivity. Qed.

Lemma UpdateCleanWaitQueue_destroying (s : Shard.Shard)
    (add : list Shard.ConnectionStatus) :
  Shard.destroying_ (snd (fst (Shard.UpdateCleanWaitQueue s add)))
  = Shard.destroying_ s.
Proof.
  unfold Shard.UpdateCleanWaitQueue.
  destruct (fold_left _ _ _) as [instances changed]. reflexivity.
Qed.

Lemma ProcessCreation_destroying (alloc : nat) (s : Shard.Shard) :
  Shard.destroying_
    (snd (fst (Shard.ProcessCreation new_Redis Redis_Connect
                 Redis_SetCommandsBufferingSettings alloc s)))
  = Shard.destroying_ s.
Proof.
  unfold Shard.ProcessCreation.
  pose proof (UpdateCleanWaitQueue_destroying s
    (imap (Shard.create_entry new_Redis Redis_Connect
             Redis_SetCommandsBufferingSettings s alloc)
          (Shard.GetConnectionInfosToCreate s))) as H.
  destruct (Shard.UpdateCleanWaitQueue _ _) as [[changed s'] evs].
  exact H.
Qed.

Lemma ProcessStateUpdate_destroying (now : Z) (s : Shard.Shard) :
  Shard.destroying_
    (snd (fst (Shard.ProcessStateUpdate ready_change_callback_ now s)))
  = Shard.destroying_ s.
Proof.
  unfold Shard.ProcessStateUpdate.
  destruct (fold_left Shard.demote_entry _ _) as [[i1 c1] ch1].
  reflexivity.
Qed.

Lemma run_operation_destroying (s : Shard.Shard) (op : Shard.Operation) :
  Shard.destroying_ s = true ->
  Shard.destroying_ (run_operation s op) = true.
Proof.
  intros H. destruct op; cbn [Shard.run_operation].
  - rewrite AsyncCommand_destroying by exact H. exact H.
  - reflexivity.
  - unfold Shard.SetConnectionInfo.
    destruct (Shard.set_equal _ _); exact H.
  - exact H.
  - rewrite ProcessCreation_destroying. exact H.
  - rewrite ProcessStateUpdate_destroying. exact H.
  - exact H.
Qed.

Lemma run_operations_destroying (ops : list Shard.Operation)
    (s : Shard.Shard) :
  Shard.destroying_ s = true ->
  Shard.destroying_ (run_operations s ops) = true.
Proof.
  revert s. induction ops as [|op ops IH]; intros s H; [exact H|].
  cbn. apply IH. apply run_operation_destroying. exact H.
Qed.

(** C8.  Closed door.  After [Clean] has set the destroying flag, whatever
    operations follow (further submits, reconciliation, a new desired set,
    new buffering settings, handles changing state), the flag is still set,
    and every submit returns false, hands the command to no instance and
    leaves the command and the shard as they were. *)
Theorem closed_door (s : Shard.Shard) (ops : list Shard.Operation)
    (command : Command) :
  let s' := run_operations (fst (Shard.Clean s)) ops in
  Shard.destroying_ s' = true
  /\ Shard.ret (AsyncCommand s' command) = false
  /\ Shard.trace (AsyncCommand s' command)
     = [Shard.EvLockShared; Shard.EvUnlock]
  /\ Shard.out_command (AsyncCommand s' command) = command
  /\ Shard.out_shard (AsyncCommand s' command) = s'.
Proof.
  intros s'.
  assert (H : Shard.destroying_ s' = true).
  { apply run_operations_destroying. reflexivity. }
  rewrite (AsyncCommand_destroying s' command H). auto.
Qed.

End Destroying.

(** ** Reconciliation: the state update *)

Section StateUpdate.

Variable ready_change_callback_ : option (bool -> option string).

Abbreviation ProcessStateUpdate :=
  (Shard.ProcessStateUpdate ready_change_callback_).

Lemma entry_fate (c : Shard.ConnectionStatus) :
  (entry_connected c = true /\ entry_pending c = false
   /\ entry_terminal c = false)
  \/ (entry_connected c = false /\ entry_pending c = true
      /\ entry_terminal c = false)
  \/ (entry_connected c = false /\ entry_pending c = false
      /\ entry_terminal c = true).
Proof.
  unfold entry_terminal, entry_connected, entry_pending, is_connected.
  destruct (GetState (Shard.instance c)); cbn; auto.
Qed.

(** The first loop keeps the connected entries and appends the others to
    [clean_wait_], in order. *)
Lemma demote_fold (l i0 c0 : list Shard.ConnectionStatus) (ch0 : bool) :
  fold_left Shard.demote_entry l (i0, c0, ch0)
  = (i0 ++ List.filter entry_connected l,
     c0 ++ List.filter (fun c => negb (entry_connected c)) l,
     ch0 || negb (Shard.is_empty
                    (List.filter (fun c => negb (entry_connected c)) l))).
Proof.
  revert i0 c0 ch0. induction l as [|c l IH]; intros i0 c0 ch0.
  - cbn. rewrite !app_nil_r, orb_false_r. reflexivity.
  - cbn [fold_left Shard.demote_entry List.filter].
    fold (entry_connected c).
    destruct (entry_connected c); cbn [negb]; rewrite IH.
    + rewrite <- app_assoc. reflexivity.
    + rewrite <- app_assoc. cbn. rewrite orb_true_r. reflexivity.
Qed.

(** The second loop sends each entry where its state says. *)
Lemma scan_fold (now : Z) (l : list Shard.ConnectionStatus)
    (sc : Shard.Scan) :
  fold_left (Shard.scan_entry now) l sc
  = Shard.mkScan
      (Shard.sc_instances sc ++ List.filter entry_connected l)
      (Shard.sc_clean_wait sc ++ List.filter entry_pending l)
      (Shard.sc_erase sc ++ List.filter entry_terminal l)
      (Shard.sc_changed sc
       || negb (Shard.is_empty (List.filter entry_connected l)))
      (if Shard.is_empty (List.filter entry_connected l)
       then Shard.sc_last_connected sc else now)
      (Shard.sc_events sc
       ++ map ready_signal (List.filter entry_connected l)).
Proof.
  revert sc. induction l as [|c l IH]; intros sc.
  - cbn. rewrite !app_nil_r, orb_false_r. destruct sc; reflexivity.
  - cbn [fold_left]. rewrite IH. clear IH.
    unfold Shard.scan_entry, entry_terminal, entry_connected, entry_pending,
      is_connected, ready_signal.
    cbn [List.filter].
    destruct (GetState (Shard.instance c)) eqn:E; cbn;
      rewrite <- ?app_assoc; cbn; rewrite ?orb_true_r; try reflexivity.
    destruct (List.filter _ l); reflexivity.
Qed.

Lemma filter_all {A : Type} (f : A -> bool) (l : list A) :
  (forall x, In x l -> f x = true) -> List.filter f l = l.
Proof.
  induction l as [|x l IH]; intros H; [reflexivity|].
  cbn. rewrite (H x) by (left; reflexivity).
  f_equal. apply IH. intros y Hy. apply H. right. exact Hy.
Qed.

Lemma filter_none {A : Type} (f : A -> bool) (l : list A) :
  (forall x, In x l -> f x = false) -> List.filter f l = [].
Proof.
  induction l as [|x l IH]; intros H; [reflexivity|].
  cbn. rewrite (H x) by (left; reflexivity).
  apply IH. intros y Hy. apply H. right. exact Hy.
Qed.

Lemma filter_filter_sub {A : Type} (f g : A -> bool) (l : list A) :
  (forall x, f x = true -> g x = true) ->
  List.filter f (List.filter g l) = List.filter f l.
Proof.
  intros H. induction l as [|x l IH]; [reflexivity|].
  cbn. destruct (g x) eqn:Eg; cbn.
  - rewrite IH. reflexivity.
  - destruct (f x) eqn:Ef; [|exact IH].
    apply H in Ef. congruence.
Qed.

Lemma filter_filter_disjoint {A : Type} (f g : A -> bool) (l : list A) :
  (forall x, g x = true -> f x = false) ->
  List.filter f (List.filter g l) = [].
Proof.
  intros H. apply filter_none. intros x Hx.
  apply List.filter_In in Hx as [_ Hx]. apply H. exact Hx.
Qed.

Lemma is_empty_app {A : Type} (l k : list A) :
  Shard.is_empty (l ++ k) = Shard.is_empty l && Shard.is_empty k.
Proof. destruct l; reflexivity. Qed.

(** [ProcessStateUpdate] in closed form: what ends up where, what is
    emitted, and in which order. *)
Lemma ProcessStateUpdate_eq (now : Z) (s : Shard.Shard) :
  let promoted := List.filter entry_connected (Shard.clean_wait_ s) in
  let demoted :=
    List.filter (fun c => negb (entry_connected c)) (Shard.instances_ s) in
  let instances :=
    List.filter entry_connected (Shard.instances_ s) ++ promoted in
  let clean_wait :=
    List.filter entry_pending (Shard.clean_wait_ s)
    ++ List.filter entry_pending (Shard.instances_ s) in
  let erase_clean_wait :=
    List.filter entry_terminal (Shard.clean_wait_ s)
    ++ List.filter entry_terminal (Shard.instances_ s) in
  let last_connected_time :=
    if Shard.is_empty promoted then Shard.last_connected_time_ s else now in
  let last_ready_time :=
    if negb (Shard.is_empty erase_clean_wait)
       && (Shard.last_ready_time_ s <? last_connected_time)
    then now else Shard.last_ready_time_ s in
  let new_connected := negb (Shard.is_empty instances) in
  ProcessStateUpdate now s
  = (negb (Shard.is_empty demoted) || negb (Shard.is_empty promoted),
     Shard.mkShard (Shard.connection_infos_ s) instances clean_wait
       (Shard.destroying_ s) (Shard.current_ s) last_connected_time
       last_ready_time new_connected (Shard.cluster_mode_ s)
       (Shard.commands_buffering_settings_ s),
     Shard.EvLockUnique :: map ready_signal promoted ++ Shard.EvUnlock ::
       Shard.notify_ready_change ready_change_callback_
         (Shard.prev_connected_ s) new_connected).
Proof.
  cbv zeta. unfold Shard.ProcessStateUpdate.
  rewrite demote_fold, scan_fold. cbn [Shard.sc_instances Shard.sc_clean_wait
    Shard.sc_erase Shard.sc_changed Shard.sc_last_connected Shard.sc_events
    app orb].
  rewrite !List.filter_app.
  rewrite (filter_filter_disjoint entry_connected)
    by (intros x Hx; apply negb_true_iff; exact Hx).
  rewrite (filter_filter_sub entry_pending).
  2:{ intros x Hx. destruct (entry_fate x) as [H|[H|H]];
        destruct H as (H1 & H2 & H3); rewrite H1; cbn; congruence. }
  rewrite (filter_filter_sub entry_terminal).
  2:{ intros x Hx. destruct (entry_fate x) as [H|[H|H]];
        destruct H as (H1 & H2 & H3); rewrite H1; cbn; congruence. }
  rewrite !app_nil_r. reflexivity.
Qed.

(** *** Demotion *)

(** C6, as the code has it.  From [instances_ = [a]] and an empty
    [clean_wait_], with the handle of [a] in state Disconnecting, one call
    of [ProcessStateUpdate] reports a change and leaves both [instances_]
    and [clean_wait_] empty: the entry is moved to [clean_wait_] by the
    first loop and drained from it by the second loop of the same call.  No
    instance-ready signal is emitted.  If the shard was connected before and
    a callback is installed, the readiness callback is called exactly once,
    with [false], after the lock is released.  [last_ready_time_] is set to
    the current time when [last_connected_time_] is later than it, and is
    left alone otherwise. *)
Theorem demotion_drains_and_flips_readiness (now : Z) (s : Shard.Shard)
    (a : Shard.ConnectionStatus) :
  Shard.instances_ s = [a] ->
  Shard.clean_wait_ s = [] ->
  GetState (Shard.instance a) = kDisconnecting ->
  let r := ProcessStateUpdate now s in
  let s' := snd (fst r) in
  fst (fst r) = true
  /\ Shard.instances_ s' = []
  /\ Shard.clean_wait_ s' = []
  /\ Shard.prev_connected_ s' = false
  /\ Shard.last_connected_time_ s' = Shard.last_connected_time_ s
  /\ snd r = Shard.EvLockUnique :: Shard.EvUnlock ::
             Shard.notify_ready_change ready_change_callback_
               (Shard.prev_connected_ s) false
  /\ (Shard.prev_connected_ s = true ->
      forall callback, ready_change_callback_ = Some callback ->
      List.filter is_notification (snd r) = [Shard.EvReadyChangeCallback false]
      /\ List.filter is_notification (under_lock false (snd r)) = [])
  /\ (Shard.last_ready_time_ s < Shard.last_connected_time_ s ->
      Shard.last_ready_time_ s' = now)
  /\ (Shard.last_connected_time_ s <= Shard.last_ready_time_ s ->
      Shard.last_ready_time_ s' = Shard.last_ready_time_ s).
Proof.
  intros Hi Hc Ha r s'. subst s' r.
  rewrite ProcessStateUpdate_eq. rewrite Hi, Hc.
  assert (E1 : entry_connected a = false).
  { unfold entry_connected, is_connected. rewrite Ha. reflexivity. }
  assert (E2 : entry_pending a = false).
  { unfold entry_pending. rewrite Ha. reflexivity. }
  assert (E3 : entry_terminal a = true).
  { unfold entry_terminal. rewrite E1, E2. reflexivity. }
  cbn [List.filter app map fst snd].
  rewrite E1, E2, E3.
  cbn [negb app Shard.is_empty orb andb map fst snd Shard.instances_
       Shard.clean_wait_ Shard.prev_connected_ Shard.last_connected_time_
       Shard.last_ready_time_].
  repeat match goal with |- _ /\ _ => split end; try reflexivity.
  - intros Hp cbk Hcb. rewrite Hcb, Hp. unfold Shard.notify_ready_change.
    cbn. destruct (cbk false); split; reflexivity.
  - intros Hlt. apply Z.ltb_lt in Hlt. rewrite Hlt. reflexivity.
  - intros Hle. apply Z.ltb_ge in Hle. rewrite Hle. reflexivity.
Qed.

(** A second [ProcessStateUpdate] finds nothing to do. *)
Lemma ProcessStateUpdate_twice (now now' : Z) (s : Shard.Shard) :
  let s1 := snd (fst (ProcessStateUpdate now s)) in
  ProcessStateUpdate now' s1
  = (false, s1, [Shard.EvLockUnique; Shard.EvUnlock]).
Proof.
  cbv zeta. rewrite (ProcessStateUpdate_eq now s). cbn [fst snd].
  rewrite ProcessStateUpdate_eq.
  cbn [Shard.connection_infos_ Shard.instances_ Shard.clean_wait_
       Shard.destroying_ Shard.current_ Shard.last_connected_time_
       Shard.last_ready_time_ Shard.prev_connected_ Shard.cluster_mode_
       Shard.commands_buffering_settings_].
  assert (Hcp : forall x, entry_pending x = true -> entry_connected x = false).
  { intros x Hx. destruct (entry_fate x) as [H|[H|H]];
      destruct H as (H1 & H2 & H3); congruence. }
  assert (Hct : forall x, entry_connected x = true -> entry_terminal x = false).
  { intros x Hx. destruct (entry_fate x) as [H|[H|H]];
      destruct H as (H1 & H2 & H3); congruence. }
  assert (Hpc : forall x, entry_connected x = true -> entry_pending x = false).
  { intros x Hx. destruct (entry_fate x) as [H|[H|H]];
      destruct H as (H1 & H2 & H3); congruence. }
  assert (Hpt : forall x, entry_pending x = true -> entry_terminal x = false).
  { intros x Hx. destruct (entry_fate x) as [H|[H|H]];
      destruct H as (H1 & H2 & H3); congruence. }
  rewrite !List.filter_app.
  rewrite !(filter_filter_sub entry_connected entry_connected) by auto.
  rewrite !(filter_filter_sub entry_pending entry_pending) by auto.
  rewrite !(filter_filter_disjoint entry_connected entry_pending) by auto.
  rewrite !(filter_filter_disjoint entry_pending entry_connected) by auto.
  rewrite !(filter_filter_disjoint entry_terminal entry_connected) by auto.
  rewrite !(filter_filter_disjoint entry_terminal entry_pending) by auto.
  rewrite !(filter_filter_disjoint (fun c => negb (entry_connected c))
              entry_connected)
    by (intros x Hx; rewrite Hx; reflexivity).
  cbn [app Shard.is_empty negb orb andb map].
  rewrite !app_nil_r.
  unfold Shard.notify_ready_change.
  case_bool_decide; [congruence | reflexivity].
Qed.

End StateUpdate.

Lemma demotion_drains_and_flips_readiness_witness :
  Shard.instances_
    (snd (fst (Shard.ProcessStateUpdate Sample.callback 10
                 Sample.one_disconnecting))) = []
  /\ Shard.clean_wait_
       (snd (fst (Shard.ProcessStateUpdate Sample.callback 10
                    Sample.one_disconnecting))) = []
  /\ Shard.last_ready_time_
       (snd (fst (Shard.ProcessStateUpdate Sample.callback 10
                    Sample.one_disconnecting))) = 10.
Proof.
  pose proof (demotion_drains_and_flips_readiness Sample.callback 10
                Sample.one_disconnecting Sample.entry_a
                eq_refl eq_refl eq_refl) as H.
  cbv zeta in H.
  destruct H as (_ & H1 & H2 & _ & _ & _ & _ & H3 & _).
  split; [exact H1|]. split; [exact H2|].
  apply H3. reflexivity.
Defined.

(** The scenario of C6 on a sample shard: after the call the entry is not
    in [clean_wait_]. *)
Lemma demotion_entry_not_in_clean_wait :
  Shard.instances_ Sample.one_disconnecting = [Sample.entry_a]
  /\ Shard.clean_wait_ Sample.one_disconnecting = []
  /\ GetState (Shard.instance Sample.entry_a) = kDisconnecting
  /\ ~ In Sample.entry_a
         (Shard.clean_wait_
            (snd (fst (Shard.ProcessStateUpdate Sample.callback 10
                         Sample.one_disconnecting)))).
Proof.
  repeat split. cbn. intros [].
Qed.

(** *** Notifications and the lock *)

Section Notifications.

Variable ready_change_callback_ : option (bool -> option string).

Lemma under_lock_signals (l : list Shard.ConnectionStatus)
    (rest : list Shard.Event) :
  under_lock true (map ready_signal l ++ Shard.EvUnlock :: rest)
  = map ready_signal l ++ under_lock false rest.
Proof.
  induction l as [|c l IH]; [reflexivity|]. cbn. rewrite IH. reflexivity.
Qed.

Lemma outside_lock_signals (l : list Shard.ConnectionStatus)
    (rest : list Shard.Event) :
  outside_lock true (map ready_signal l ++ Shard.EvUnlock :: rest)
  = outside_lock false rest.
Proof.
  induction l as [|c l IH]; [reflexivity|]. cbn. exact IH.
Qed.

Lemma notify_outside (prev new : bool) :
  let n := Shard.notify_ready_change ready_change_callback_ prev new in
  under_lock false n = [] /\ outside_lock false n = n.
Proof.
  unfold Shard.notify_ready_change.
  destruct (bool_decide (prev ≠ new)); [|split; reflexivity].
  destruct ready_change_callback_ as [callback|]; [|split; reflexivity].
  destruct (callback new); split; reflexivity.
Qed.

Lemma notify_no_signal (prev new : bool) (id : ServerId) (ro : bool) :
  ~ In (Shard.EvSignalInstanceReady id ro)
       (Shard.notify_ready_change ready_change_callback_ prev new).
Proof.
  unfold Shard.notify_ready_change.
  destruct (bool_decide (prev ≠ new)); [|intros []].
  destruct ready_change_callback_ as [callback|]; [|intros []].
  destruct (callback new); cbn; intuition discriminate.
Qed.

(** C9, as the code has it.  In the trace of [ProcessStateUpdate] the
    events under the exclusive lock are exactly the instance-ready signals,
    one for each connected entry of [clean_wait_], in order, each emitted
    where the entry is promoted; the events after the lock is released are
    exactly those of the readiness callback.  So the readiness callback is
    never called while the lock is held, and the instance-ready signal is
    never emitted after it is released. *)
Theorem ready_signal_under_lock_callback_outside (now : Z)
    (s : Shard.Shard) :
  let r := Shard.ProcessStateUpdate ready_change_callback_ now s in
  let tr := snd r in
  under_lock false tr
  = map ready_signal (List.filter entry_connected (Shard.clean_wait_ s))
  /\ outside_lock false tr
     = Shard.notify_ready_change ready_change_callback_
         (Shard.prev_connected_ s) (Shard.prev_connected_ (snd (fst r)))
  /\ (forall b, ~ In (Shard.EvReadyChangeCallback b) (under_lock false tr))
  /\ (forall id ro,
        ~ In (Shard.EvSignalInstanceReady id ro) (outside_lock false tr)).
Proof.
  cbv zeta. rewrite ProcessStateUpdate_eq. cbn [fst snd Shard.prev_connected_].
  set (promoted := List.filter entry_connected (Shard.clean_wait_ s)).
  set (new_connected := negb (Shard.is_empty _)).
  pose proof (notify_outside (Shard.prev_connected_ s) new_connected)
    as [Hu Ho].
  cbn [under_lock outside_lock].
  rewrite under_lock_signals, outside_lock_signals, Hu, Ho, app_nil_r.
  repeat match goal with |- _ /\ _ => split end; try reflexivity.
  - intros b Hin. apply in_map_iff in Hin as (c & Hc & _). discriminate Hc.
  - intros id ro. apply notify_no_signal.
Qed.

End Notifications.

(** The scenario of C9 on a sample shard: the instance-ready signal of a
    promotion is emitted between taking the lock and releasing it. *)
Lemma ready_signal_emitted_holding_lock :
  snd (Shard.ProcessStateUpdate Sample.callback 10
         Sample.one_pending_connected)
  = [Shard.EvLockUnique;
     Shard.EvSignalInstanceReady (mkServerId 1) false;
     Shard.EvUnlock;
     Shard.EvReadyChangeCallback true]
  /\ List.filter is_notification
       (under_lock false
          (snd (Shard.ProcessStateUpdate Sample.callback 10
                  Sample.one_pending_connected)))
     = [Shard.EvSignalInstanceReady (mkServerId 1) false].
Proof. split; reflexivity. Qed.

(** ** Reconciliation: creation *)

Lemma string_compare_refl (a : string) : String.compare a a = Eq.
Proof.
  pose proof (String.compare_antisym a a) as H.
  destruct (String.compare a a); [reflexivity | discriminate | discriminate].
Qed.

Lemma info_less_irrefl (a : Shard.ConnectionInfoInt) :
  Shard.info_less a a = false.
Proof.
  unfold Shard.info_less. rewrite string_compare_refl. apply Z.ltb_irrefl.
Qed.

Lemma info_equiv_refl (a : Shard.ConnectionInfoInt) :
  Shard.info_equiv a a = true.
Proof. unfold Shard.info_equiv. rewrite info_less_irrefl. reflexivity. Qed.

(** Equivalent infos are those with the same host and port. *)
Lemma info_equiv_spec (a b : Shard.ConnectionInfoInt) :
  Shard.info_equiv a b = true
  <-> Shard.host a = Shard.host b /\ Shard.port a = Shard.port b.
Proof.
  unfold Shard.info_equiv, Shard.info_less.
  rewrite (String.compare_antisym (Shard.host b) (Shard.host a)).
  destruct (String.compare (Shard.host a) (Shard.host b)) eqn:E; cbn.
  - apply String.compare_eq_iff in E.
    rewrite andb_true_iff, !negb_true_iff, !Z.ltb_ge. intuition lia.
  - split; [discriminate|]. intros [H _]. rewrite H in E.
    rewrite string_compare_refl in E. discriminate.
  - split; [discriminate|]. intros [H _]. rewrite H in E.
    rewrite string_compare_refl in E. discriminate.
Qed.

Lemma info_equiv_set_read_only (a b : Shard.ConnectionInfoInt) (ro : bool) :
  Shard.info_equiv (Shard.set_read_only a ro) b = Shard.info_equiv a b.
Proof. reflexivity. Qed.

Lemma set_find_set_read_only (a : Shard.ConnectionInfoInt) (ro : bool)
    (infos : Shard.InfoSet) :
  Shard.set_find (Shard.set_read_only a ro) infos = Shard.set_find a infos.
Proof. reflexivity. Qed.

Lemma set_find_Some (x y : Shard.ConnectionInfoInt) (infos : Shard.InfoSet) :
  Shard.set_find x infos = Some y ->
  In y infos /\ Shard.info_equiv x y = true.
Proof. unfold Shard.set_find. apply find_some. Qed.

Lemma set_find_equiv (x y : Shard.ConnectionInfoInt)
    (infos : Shard.InfoSet) :
  In y infos -> Shard.info_equiv x y = true ->
  Shard.set_find x infos <> None.
Proof.
  intros Hin He Hnone. unfold Shard.set_find in Hnone.
  pose proof (find_none _ _ Hnone y Hin) as H. congruence.
Qed.

(** Erasing a sequence of keys keeps the elements none of them stands for. *)
Lemma set_erase_fold (xs : list Shard.ConnectionInfoInt)
    (infos : Shard.InfoSet) :
  fold_left Shard.set_erase xs infos
  = List.filter
      (fun y => negb (existsb (fun x => Shard.info_equiv x y) xs)) infos.
Proof.
  revert infos. induction xs as [|x xs IH]; intros infos.
  - cbn. symmetry. apply filter_all. reflexivity.
  - cbn [fold_left]. rewrite IH. unfold Shard.set_erase.
    induction infos as [|y infos IHi]; [reflexivity|].
    cbn. destruct (Shard.info_equiv x y); cbn.
    + exact IHi.
    + destruct (existsb _ xs); cbn; [exact IHi | f_equal; exact IHi].
Qed.

Lemma existsb_on_map {A B : Type} (f : B -> bool) (g : A -> B)
    (l : list A) :
  existsb f (map g l) = existsb (fun x => f (g x)) l.
Proof.
  induction l as [|x l IH]; [reflexivity|]. cbn. rewrite IH. reflexivity.
Qed.

Lemma filter_filter_and {A : Type} (f g : A -> bool) (l : list A) :
  List.filter f (List.filter g l) = List.filter (fun x => g x && f x) l.
Proof.
  induction l as [|x l IH]; [reflexivity|].
  cbn. destruct (g x); cbn; rewrite IH; reflexivity.
Qed.

Lemma GetConnectionInfosToCreate_eq (s : Shard.Shard) :
  Shard.GetConnectionInfosToCreate s
  = List.filter
      (fun y => negb (covered (Shard.instances_ s ++ Shard.clean_wait_ s) y))
      (Shard.connection_infos_ s).
Proof.
  unfold Shard.GetConnectionInfosToCreate.
  rewrite !set_erase_fold, filter_filter_and.
  apply List.filter_ext. intros y. unfold covered.
  rewrite existsb_app, !existsb_on_map, negb_orb. reflexivity.
Qed.

Lemma reconcile_fold (infos : Shard.InfoSet)
    (l acc : list Shard.ConnectionStatus) (ch : bool) :
  fold_left (Shard.reconcile_instance infos) l (acc, ch)
  = (acc ++ omap (reconciled infos) l,
     ch || negb (forallb (settled infos) l)).
Proof.
  revert acc ch. induction l as [|c l IH]; intros acc ch.
  - cbn. rewrite app_nil_r, orb_false_r. reflexivity.
  - cbn [fold_left omap list_omap forallb].
    unfold Shard.reconcile_instance at 2. unfold reconciled at 1.
    unfold settled at 1.
    destruct (Shard.set_find (Shard.info c) infos) as [ci|] eqn:E.
    + destruct (decide (Shard.read_only ci = Shard.read_only (Shard.info c)))
        as [Heq|Hne].
      * rewrite (bool_decide_eq_false_2 _ (fun H => H Heq)).
        rewrite (bool_decide_eq_true_2 _ Heq).
        cbn [fst snd]. rewrite IH, <- app_assoc. cbn.
        rewrite Heq. destruct c as [[h p ro] r]. reflexivity.
      * rewrite (bool_decide_eq_true_2 _ Hne).
        rewrite (bool_decide_eq_false_2 _ Hne).
        cbn [fst snd]. rewrite IH, <- app_assoc. cbn.
        rewrite orb_true_r. reflexivity.
    + cbn [fst snd]. rewrite IH. cbn. rewrite orb_true_r. reflexivity.
Qed.

Section Creation.

Variable new_Redis : bool -> nat -> Redis.
Variable Redis_Connect : Shard.ConnectionInfoInt -> Redis -> Redis.
Variable Redis_SetCommandsBufferingSettings :
  Shard.CommandsBufferingSettings -> Redis -> Redis.

Abbreviation ProcessCreation :=
  (Shard.ProcessCreation new_Redis Redis_Connect
     Redis_SetCommandsBufferingSettings).
Abbreviation create_entry :=
  (Shard.create_entry new_Redis Redis_Connect
     Redis_SetCommandsBufferingSettings).

(** [ProcessCreation] in closed form. *)
Lemma ProcessCreation_eq (alloc : nat) (s : Shard.Shard) :
  ProcessCreation alloc s
  = (negb (forallb (settled (Shard.connection_infos_ s))
                   (Shard.instances_ s)),
     Shard.with_lists s
       (omap (reconciled (Shard.connection_infos_ s)) (Shard.instances_ s))
       (Shard.clean_wait_ s
        ++ imap (create_entry s alloc) (Shard.GetConnectionInfosToCreate s)),
     [Shard.EvLockShared; Shard.EvUnlock; Shard.EvLockUnique;
      Shard.EvUnlock]).
Proof.
  unfold Shard.ProcessCreation, Shard.UpdateCleanWaitQueue.
  rewrite reconcile_fold. reflexivity.
Qed.

Lemma created_infos (s : Shard.Shard) (alloc : nat)
    (l : list Shard.ConnectionInfoInt) :
  map Shard.info (imap (create_entry s alloc) l) = l.
Proof.
  assert (H : forall (f : nat -> Shard.ConnectionInfoInt
                           -> Shard.ConnectionStatus),
             (forall k x, Shard.info (f k x) = x) ->
             map Shard.info (imap f l) = l).
  { induction l as [|x l IH]; intros f Hf; [reflexivity|].
    cbn. rewrite Hf. f_equal. apply IH. intros k y. apply Hf. }
  apply H. reflexivity.
Qed.

Lemma reconciled_In (infos : Shard.InfoSet)
    (l : list Shard.ConnectionStatus) (c' : Shard.ConnectionStatus) :
  In c' (omap (reconciled infos) l) ->
  exists c ci, In c l /\ Shard.set_find (Shard.info c) infos = Some ci
               /\ c' = Shard.mkStatus
                         (Shard.set_read_only (Shard.info c)
                            (Shard.read_only ci))
                         (Shard.instance c).
Proof.
  rewrite <- list_elem_of_In, list_elem_of_omap.
  intros (c & Hc & Hrec). apply list_elem_of_In in Hc.
  unfold reconciled in Hrec.
  destruct (Shard.set_find (Shard.info c) infos) as [ci|] eqn:E;
    [|discriminate].
  exists c, ci. injection Hrec as <-. auto.
Qed.

(** A reconciled entry carries an element of the desired set. *)
Lemma reconciled_member (infos : Shard.InfoSet)
    (l : list Shard.ConnectionStatus) (c' : Shard.ConnectionStatus) :
  In c' (omap (reconciled infos) l) -> In (Shard.info c') infos.
Proof.
  intros H. apply reconciled_In in H as (c & ci & _ & Hfind & ->).
  apply set_find_Some in Hfind as [Hin He].
  apply info_equiv_spec in He as [Hh Hp]. cbn.
  replace (Shard.set_read_only (Shard.info c) (Shard.read_only ci)) with ci;
    [exact Hin|].
  destruct ci as [h p ro]. unfold Shard.set_read_only.
  cbn in *. subst. reflexivity.
Qed.

(** A reconciled entry is settled: reconciling it again returns it. *)
Lemma reconciled_settled (infos : Shard.InfoSet)
    (l : list Shard.ConnectionStatus) (c' : Shard.ConnectionStatus) :
  In c' (omap (reconciled infos) l) ->
  reconciled infos c' = Some c' /\ settled infos c' = true.
Proof.
  intros H. apply reconciled_In in H as (c & ci & _ & Hfind & ->).
  unfold reconciled, settled. cbn [Shard.info Shard.instance].
  rewrite set_find_set_read_only, Hfind. cbn.
  split; [reflexivity|]. apply bool_decide_eq_true_2. reflexivity.
Qed.

Lemma omap_fixed {A : Type} (f : A -> option A) (l : list A) :
  (forall x, In x l -> f x = Some x) -> omap f l = l.
Proof.
  induction l as [|x l IH]; intros H; [reflexivity|].
  cbn. rewrite (H x) by (left; reflexivity). cbn.
  f_equal. apply IH. intros y Hy. apply H. right. exact Hy.
Qed.

(** After [ProcessCreation] every element of the desired set is stood for
    by a live or pending entry. *)
Lemma covered_after_creation (alloc : nat) (s : Shard.Shard)
    (y : Shard.ConnectionInfoInt) :
  In y (Shard.connection_infos_ s) ->
  covered
    (omap (reconciled (Shard.connection_infos_ s)) (Shard.instances_ s)
     ++ Shard.clean_wait_ s
     ++ imap (create_entry s alloc) (Shard.GetConnectionInfosToCreate s))
    y = true.
Proof.
  intros Hy. unfold covered. apply existsb_exists.
  destruct (covered (Shard.instances_ s ++ Shard.clean_wait_ s) y) eqn:E.
  - unfold covered in E. apply existsb_exists in E as (c & Hc & He).
    apply in_app_or in Hc as [Hc|Hc].
    + destruct (Shard.set_find (Shard.info c) (Shard.connection_infos_ s))
        as [ci|] eqn:Hfind.
      * exists (Shard.mkStatus
                  (Shard.set_read_only (Shard.info c) (Shard.read_only ci))
                  (Shard.instance c)).
        split; [|exact He].
        apply in_or_app. left.
        apply list_elem_of_In, list_elem_of_omap. exists c.
        split; [apply list_elem_of_In; exact Hc|].
        unfold reconciled. rewrite Hfind. reflexivity.
      * exfalso. exact (set_find_equiv _ _ _ Hy He Hfind).
    + exists c. split; [|exact He].
      apply in_or_app. right. apply in_or_app. left. exact Hc.
  - assert (Hneed : In y (Shard.GetConnectionInfosToCreate s)).
    { rewrite GetConnectionInfosToCreate_eq. apply List.filter_In.
      split; [exact Hy|]. rewrite E. reflexivity. }
    rewrite <- (created_infos s alloc) in Hneed.
    apply in_map_iff in Hneed as (e & <- & He).
    exists e. split; [|apply info_equiv_refl].
    apply in_or_app. right. apply in_or_app. right. exact He.
Qed.

(** A second [ProcessCreation] finds nothing to do. *)
Lemma ProcessCreation_twice (alloc alloc' : nat) (s : Shard.Shard) :
  let s1 := snd (fst (ProcessCreation alloc s)) in
  ProcessCreation alloc' s1
  = (false, s1,
     [Shard.EvLockShared; Shard.EvUnlock; Shard.EvLockUnique;
      Shard.EvUnlock]).
Proof.
  cbv zeta. rewrite (ProcessCreation_eq alloc s). cbn [fst snd].
  set (infos := Shard.connection_infos_ s).
  set (instances1 := omap (reconciled infos) (Shard.instances_ s)).
  set (clean_wait1 := Shard.clean_wait_ s ++ _).
  rewrite ProcessCreation_eq.
  cbn [Shard.with_lists Shard.connection_infos_ Shard.instances_
       Shard.clean_wait_].
  fold infos.
  assert (Hneed : Shard.GetConnectionInfosToCreate
                    (Shard.with_lists s instances1 clean_wait1) = []).
  { rewrite GetConnectionInfosToCreate_eq.
    cbn [Shard.with_lists Shard.connection_infos_ Shard.instances_
         Shard.clean_wait_].
    apply filter_none. intros y Hy. apply negb_false_iff.
    apply covered_after_creation. exact Hy. }
  unfold Shard.with_lists in Hneed |- *.
  cbn [Shard.connection_infos_ Shard.instances_ Shard.clean_wait_
       Shard.destroying_ Shard.current_ Shard.last_connected_time_
       Shard.last_ready_time_ Shard.prev_connected_ Shard.cluster_mode_
       Shard.commands_buffering_settings_] in Hneed |- *.
  rewrite Hneed. cbn [imap]. rewrite app_nil_r.
  rewrite (omap_fixed (reconciled infos) instances1).
  2:{ intros x Hx. apply (reconciled_settled infos _ x Hx). }
  rewrite (proj2 (forallb_forall (settled infos) instances1)).
  2:{ intros x Hx. apply (reconciled_settled infos _ x Hx). }
  reflexivity.
Qed.

End Creation.

(** ** Reconciliation: idempotence and membership *)

(** C7.  Idempotent reconcile.  [ProcessCreation] run on the state a first
    run has left, and [ProcessStateUpdate] likewise, with no change to a
    handle or to the desired set in between, returns false (no change),
    leaves the state as it is, in every field, and emits no signal and calls
    no callback.  This holds whatever the second run is given as allocation
    count or clock reading. *)
Theorem reconcile_twice_is_idempotent
    (new_Redis : bool -> nat -> Redis)
    (Redis_Connect : Shard.ConnectionInfoInt -> Redis -> Redis)
    (Redis_SetCommandsBufferingSettings :
       Shard.CommandsBufferingSettings -> Redis -> Redis)
    (ready_change_callback_ : option (bool -> option string))
    (alloc alloc' : nat) (now now' : Z) (s : Shard.Shard) :
  let created :=
    snd (fst (Shard.ProcessCreation new_Redis Redis_Connect
                Redis_SetCommandsBufferingSettings alloc s)) in
  let updated :=
    snd (fst (Shard.ProcessStateUpdate ready_change_callback_ now s)) in
  Shard.ProcessCreation new_Redis Redis_Connect
    Redis_SetCommandsBufferingSettings alloc' created
  = (false, created,
     [Shard.EvLockShared; Shard.EvUnlock; Shard.EvLockUnique;
      Shard.EvUnlock])
  /\ Shard.ProcessStateUpdate ready_change_callback_ now' updated
     = (false, updated, [Shard.EvLockUnique; Shard.EvUnlock]).
Proof.
  split.
  - apply ProcessCreation_twice.
  - apply ProcessStateUpdate_twice.
Qed.

Lemma known_of_member (infos : Shard.InfoSet) (c : Shard.ConnectionStatus) :
  In (Shard.info c) infos -> known infos c.
Proof.
  intros H. unfold known.
  exact (set_find_equiv _ _ _ H (info_equiv_refl _)).
Qed.

(** C4, as the code has it.  After [ProcessCreation] every entry of
    [instances_] carries an element of the desired set (entries whose info
    has left the set are dropped, the others take the read-only flag of the
    set); [clean_wait_] keeps all the entries it had, whether or not their
    info is still desired, and gains one entry for each info that had none,
    each carrying an element of the desired set.  Membership of all entries
    in the desired set is preserved by [ProcessCreation] and by
    [ProcessStateUpdate] when it holds before the call. *)
Theorem membership_after_reconcile
    (new_Redis : bool -> nat -> Redis)
    (Redis_Connect : Shard.ConnectionInfoInt -> Redis -> Redis)
    (Redis_SetCommandsBufferingSettings :
       Shard.CommandsBufferingSettings -> Redis -> Redis)
    (ready_change_callback_ : option (bool -> option string))
    (alloc : nat) (now : Z) (s : Shard.Shard) :
  let created :=
    snd (fst (Shard.ProcessCreation new_Redis Redis_Connect
                Redis_SetCommandsBufferingSettings alloc s)) in
  let updated :=
    snd (fst (Shard.ProcessStateUpdate ready_change_callback_ now s)) in
  Shard.connection_infos_ created = Shard.connection_infos_ s
  /\ (forall c, In c (Shard.instances_ created) ->
                In (Shard.info c) (Shard.connection_infos_ s))
  /\ (exists added,
        Shard.clean_wait_ created = Shard.clean_wait_ s ++ added
        /\ map Shard.info added = Shard.GetConnectionInfosToCreate s
        /\ forall c, In c added ->
                     In (Shard.info c) (Shard.connection_infos_ s))
  /\ (membership s -> membership created)
  /\ (membership s -> membership updated).
Proof.
  cbv zeta. rewrite ProcessCreation_eq, ProcessStateUpdate_eq.
  cbn [fst snd Shard.with_lists Shard.connection_infos_ Shard.instances_
       Shard.clean_wait_].
  set (infos := Shard.connection_infos_ s).
  set (added := imap _ (Shard.GetConnectionInfosToCreate s)).
  assert (Hadded : forall c, In c added -> In (Shard.info c) infos).
  { intros c Hc.
    assert (Hi : In (Shard.info c) (map Shard.info added))
      by (apply in_map; exact Hc).
    unfold added in Hi. rewrite created_infos in Hi.
    rewrite GetConnectionInfosToCreate_eq in Hi.
    apply List.filter_In in Hi as [Hi _]. exact Hi. }
  split; [reflexivity|]. split; [apply reconciled_member|].
  split; [exists added; split; [reflexivity|]; split;
          [apply created_infos | exact Hadded]|].
  split.
  - intros Hm c Hc. unfold membership in *.
    cbn [Shard.connection_infos_ Shard.instances_ Shard.clean_wait_] in *.
    apply in_app_or in Hc as [Hc|Hc].
    + apply known_of_member. apply (reconciled_member _ _ _ Hc).
    + apply in_app_or in Hc as [Hc|Hc].
      * apply Hm. apply in_or_app. right. exact Hc.
      * apply known_of_member. apply Hadded. exact Hc.
  - intros Hm c Hc. unfold membership in *.
    cbn [Shard.connection_infos_ Shard.instances_ Shard.clean_wait_] in *.
    apply Hm.
    repeat (apply in_app_or in Hc as [Hc|Hc]);
      apply List.filter_In in Hc as [Hc _]; apply in_or_app; auto.
Qed.

Lemma membership_after_reconcile_witness :
  membership Sample.three_connected
  /\ membership
       (snd (fst (Shard.ProcessCreation Sample.new_Redis Sample.Connect
                    Sample.SetBuffering 0 Sample.three_connected))).
Proof.
  assert (H : membership Sample.three_connected).
  { intros c Hc. cbn in Hc.
    destruct Hc as [<-|[<-|[<-|[]]]]; discriminate. }
  split; [exact H|].
  apply (membership_after_reconcile Sample.new_Redis Sample.Connect
           Sample.SetBuffering Sample.callback 0 0 Sample.three_connected).
  exact H.
Defined.

(** The scenario of C4 on a sample shard: the info of the first handle is
    removed from the desired set while the handle is still connecting; after
    the next [ProcessCreation] its entry is still in [clean_wait_], and its
    info is not in the desired set. *)
Lemma removed_info_stays_in_clean_wait :
  let s :=
    Shard.run_operations Sample.accept_all Sample.new_Redis Sample.Connect
      Sample.SetBuffering Sample.callback Sample.empty_shard
      Sample.replace_desired_set in
  Shard.connection_infos_ s = [Sample.info_r1]
  /\ map Shard.info (Shard.clean_wait_ s) = [Sample.info_m; Sample.info_r1]
  /\ Shard.set_find Sample.info_m (Shard.connection_infos_ s) = None
  /\ ~ membership s.
Proof.
  cbv zeta.
  assert (E : map Shard.info
                (Shard.clean_wait_
                   (Shard.run_operations Sample.accept_all Sample.new_Redis
                      Sample.Connect Sample.SetBuffering Sample.callback
                      Sample.empty_shard Sample.replace_desired_set))
              = [Sample.info_m; Sample.info_r1]) by reflexivity.
  repeat match goal with |- _ /\ _ => split end; try reflexivity.
  intros Hm.
  destruct (Shard.clean_wait_ _) as [|c rest] eqn:Ecw; [discriminate|].
  injection E as Ec _.
  apply (Hm c).
  - apply in_or_app. right. rewrite Ecw. left. reflexivity.
  - rewrite Ec. reflexivity.
Qed.

(** ** Routing in Sentinel mode *)

Lemma fold_left_invariant {A B : Type} (P : A -> Prop) (f : A -> B -> A)
    (l : list B) (a : A) :
  P a -> (forall x b, P x -> P (f x b)) -> P (fold_left f l a).
Proof.
  intros Ha Hf. revert a Ha.
  induction l as [|b l IH]; intros a Ha; [exact Ha|].
  cbn. apply IH. apply Hf. exact Ha.
Qed.

(** What [GetInstance] returns is a handle of [instances_] that passed every
    test of the loop, at the index it reports; when it returns none, the
    index is the one passed in. *)
Lemma GetInstance_found (instances : list Shard.ConnectionStatus)
    (current : Z) (avail : list bool) (fallback : bool) (skip_idx : Z)
    (ro : bool) (pidx : Z) :
  let '(found, idx, cur) :=
    Shard.GetInstance instances current avail fallback skip_idx ro pidx in
  cur = wrap (current + 1)
  /\ match found with
     | None => idx = pidx
     | Some r =>
         exists c,
           instances !! Z.to_nat idx = Some c
           /\ Shard.instance c = r
           /\ idx <> skip_idx
           /\ (ro = false -> Shard.read_only (Shard.info c) = false)
           /\ (fallback = false -> Shard.available avail idx = true)
           /\ usable r = true
     end.
Proof.
  unfold Shard.GetInstance.
  set (step := Shard.GetInstance_visit _ _ _ _ _ _ _).
  set (P := fun acc : option Redis * Z =>
              match fst acc with
              | None => snd acc = pidx
              | Some r =>
                  exists c,
                    instances !! Z.to_nat (snd acc) = Some c
                    /\ Shard.instance c = r
                    /\ snd acc <> skip_idx
                    /\ (ro = false -> Shard.read_only (Shard.info c) = false)
                    /\ (fallback = false ->
                        Shard.available avail (snd acc) = true)
                    /\ usable r = true
              end).
  assert (H : P (fold_left step (seq 0 (length instances)) (None, pidx))).
  { apply fold_left_invariant; [reflexivity|].
    intros acc i Hacc. subst step. unfold Shard.GetInstance_visit.
    set (j := wrap _ mod _).
    destruct (instances !! Z.to_nat j) as [c|] eqn:Ec; [|exact Hacc].
    destruct (Z.eqb_spec j skip_idx) as [Hs|Hs]; [exact Hacc|].
    cbn [orb].
    destruct ro; cbn [negb andb orb].
    - destruct fallback; cbn [negb andb orb].
      + destruct (usable (Shard.instance c) && _) eqn:Eu; [|exact Hacc].
        apply andb_true_iff in Eu as [Eu _].
        unfold P. cbn. exists c. repeat split; auto; discriminate.
      + destruct (Shard.available avail j) eqn:Ea; cbn [negb];
          [|exact Hacc].
        destruct (usable (Shard.instance c) && _) eqn:Eu; [|exact Hacc].
        apply andb_true_iff in Eu as [Eu _].
        unfold P. cbn. exists c. repeat split; auto; discriminate.
    - destruct (Shard.read_only (Shard.info c)) eqn:Er; cbn [orb];
        [exact Hacc|].
      destruct fallback; cbn [negb andb orb].
      + destruct (usable (Shard.instance c) && _) eqn:Eu; [|exact Hacc].
        apply andb_true_iff in Eu as [Eu _].
        unfold P. cbn. exists c. repeat split; auto; discriminate.
      + destruct (Shard.available avail j) eqn:Ea; cbn [negb];
          [|exact Hacc].
        destruct (usable (Shard.instance c) && _) eqn:Eu; [|exact Hacc].
        apply andb_true_iff in Eu as [Eu _].
        unfold P. cbn. exists c. repeat split; auto; discriminate. }
  destruct (fold_left step _ _) as [found idx]. split; [reflexivity|].
  exact H.
Qed.

(** With no eligible entry, [GetInstance] returns none. *)
Lemma GetInstance_none (instances : list Shard.ConnectionStatus)
    (current : Z) (avail : list bool) (fallback : bool) (skip_idx : Z)
    (ro : bool) (pidx : Z) :
  (forall j c, instances !! Z.to_nat j = Some c ->
               eligible avail fallback skip_idx ro j c = false) ->
  Shard.GetInstance instances current avail fallback skip_idx ro pidx
  = (None, pidx, wrap (current + 1)).
Proof.
  intros H. unfold Shard.GetInstance. f_equal.
  apply (fold_left_invariant (fun acc => acc = (None, pidx)));
    [reflexivity|].
  intros acc i ->. unfold Shard.GetInstance_visit.
  set (j := wrap _ mod _).
  destruct (instances !! Z.to_nat j) as [c|] eqn:Ec; [|reflexivity].
  specialize (H j c Ec). unfold eligible in H.
  destruct ((j =? skip_idx) || _ || _); [reflexivity|].
  cbn in H. rewrite H. reflexivity.
Qed.

Section Routing.

Variable Redis_AsyncCommand : Redis -> Command -> bool * Redis.

Abbreviation attempts := (Shard.attempts Redis_AsyncCommand).
Abbreviation AsyncCommand := (Shard.AsyncCommand Redis_AsyncCommand).

Lemma fallback_warning_no_dispatch (avail : list bool) (idx : Z)
    (i : Z) (r : Redis) (c : Command) (a : bool) :
  ~ In (Shard.EvRedisAsyncCommand i r c a) (Shard.fallback_warning avail idx).
Proof.
  unfold Shard.fallback_warning.
  destruct (_ || _); cbn; intuition discriminate.
Qed.

(** The attempt loop, for an invariant [Inv] of [instances_] that every
    dispatch keeps and a property [D] that every selection has. *)
Lemma attempts_invariant (Inv : list Shard.ConnectionStatus -> Prop)
    (D : Z -> Redis -> Prop) (cc : CommandControl) (ro : bool)
    (avail : list bool) :
  (forall instances current fallback skip_idx pidx r idx cur,
      Inv instances ->
      (fallback = true -> IsAny (force_server_id cc) = true) ->
      Shard.GetInstance instances current avail fallback skip_idx ro pidx
      = (Some r, idx, cur) ->
      D idx r
      /\ forall cmd,
           Inv (after_dispatch Redis_AsyncCommand r cmd idx instances)) ->
  forall fuel attempt instances current cmd idx,
    control cmd = cc -> cmd_read_only cmd = ro -> Inv instances ->
    forall b instances' cur' cmd' evs,
      attempts fuel attempt avail instances current cmd idx
      = (b, instances', cur', cmd', evs) ->
      Inv instances'
      /\ control cmd' = cc /\ cmd_read_only cmd' = ro
      /\ dispatched D evs
      /\ (b = true -> accepted_once evs (instance_idx cmd'))
      /\ (b = false -> all_refused evs).
Proof.
  intros Hsel. induction fuel as [|fuel IH];
    intros attempt instances current cmd idx Hcc Hro Hinv
           b instances' cur' cmd' evs Hrun.
  - cbn in Hrun. injection Hrun as <- <- <- <- <-.
    repeat match goal with |- _ /\ _ => split end; auto;
      try discriminate;
      try (intros i r c a [H|[]]; discriminate H);
      intros _ i r c a [H|[]]; discriminate H.
  - cbn [Shard.attempts] in Hrun. rewrite Hcc, Hro in Hrun.
    set (fallback := negb (attempt =? 0) && IsAny (force_server_id cc))
      in Hrun.
    set (skip_idx := if attempt =? 0 then instance_idx cmd else size_t_max)
      in Hrun.
    destruct (Shard.GetInstance instances current avail fallback skip_idx
                ro idx) as [[found idx1] cur1] eqn:Eg.
    destruct found as [r|].
    + assert (Hfb : fallback = true -> IsAny (force_server_id cc) = true).
      { subst fallback. intros H. apply andb_true_iff in H. apply H. }
      destruct (Hsel _ _ _ _ _ _ _ _ Hinv Hfb Eg) as [HD Hkeep].
      specialize (Hkeep (set_instance_idx cmd idx1)).
      unfold after_dispatch in Hkeep.
      destruct (Redis_AsyncCommand r (set_instance_idx cmd idx1))
        as [accepted r'] eqn:Ed.
      cbn [snd] in Hkeep.
      destruct accepted.
      * injection Hrun as <- <- <- <- <-.
        repeat match goal with |- _ /\ _ => split end; auto.
        -- intros i r0 c a Hin. apply in_app_or in Hin as [Hin|Hin].
           ++ exfalso. exact (fallback_warning_no_dispatch _ _ _ _ _ _ Hin).
           ++ destruct Hin as [Hin|[]]. injection Hin as <- <- _ _.
              exact HD.
        -- intros _. exists (Shard.fallback_warning avail idx1), [], r,
             (set_instance_idx cmd idx1).
           split; [reflexivity|]. split; [|reflexivity].
           intros i r0 c a Hin. exfalso.
           exact (fallback_warning_no_dispatch _ _ _ _ _ _ Hin).
        -- discriminate.
      * destruct (attempts fuel (wrap (attempt + 1)) avail _ cur1
                    (set_instance_idx cmd idx1) idx1)
          as [[[[b2 i2] c2] cm2] e2] eqn:Er.
        injection Hrun as <- <- <- <- <-.
        destruct (IH _ _ _ (set_instance_idx cmd idx1) _ Hcc Hro Hkeep
                    _ _ _ _ _ Er)
          as (H1 & H2 & H3 & H4 & H5 & H6).
        repeat match goal with |- _ /\ _ => split end; auto.
        -- intros i r0 c a Hin. apply in_app_or in Hin as [Hin|Hin].
           ++ exfalso. exact (fallback_warning_no_dispatch _ _ _ _ _ _ Hin).
           ++ destruct Hin as [Hin|Hin].
              ** injection Hin as <- <- _ _. exact HD.
              ** exact (H4 _ _ _ _ Hin).
        -- intros Hb.
           destruct (H5 Hb) as (pre & post & r0 & c0 & -> & Hpre & Hpost).
           exists (Shard.fallback_warning avail idx1
                   ++ Shard.EvRedisAsyncCommand idx1 r
                        (set_instance_idx cmd idx1) false :: pre),
             post, r0, c0.
           split; [rewrite <- app_assoc; reflexivity|].
           split; [|exact Hpost].
           intros i r1 c a Hin. apply in_app_or in Hin as [Hin|Hin].
           ++ exfalso. exact (fallback_warning_no_dispatch _ _ _ _ _ _ Hin).
           ++ destruct Hin as [Hin|Hin].
              ** injection Hin as _ _ _ <-. reflexivity.
              ** exact (Hpre _ _ _ _ Hin).
        -- intros Hb i r0 c a Hin. apply in_app_or in Hin as [Hin|Hin].
           ++ exfalso. exact (fallback_warning_no_dispatch _ _ _ _ _ _ Hin).
           ++ destruct Hin as [Hin|Hin].
              ** injection Hin as _ _ _ <-. reflexivity.
              ** exact (H6 Hb _ _ _ _ Hin).
    + exact (IH _ _ _ (set_instance_idx cmd idx1) _ Hcc Hro Hinv
               _ _ _ _ _ Hrun).
Qed.

(** With no eligible entry at any attempt, the loop selects nothing: it
    writes the local index back to the command and logs one warning. *)
Lemma attempts_no_candidate (avail : list bool)
    (instances : list Shard.ConnectionStatus) (cc : CommandControl)
    (ro : bool) :
  (forall fallback skip_idx j c,
      (fallback = true -> IsAny (force_server_id cc) = true) ->
      instances !! Z.to_nat j = Some c ->
      eligible avail fallback skip_idx ro j c = false) ->
  forall fuel attempt current cmd idx,
    control cmd = cc -> cmd_read_only cmd = ro ->
    exists cur',
      attempts fuel attempt avail instances current cmd idx
      = (false, instances, cur',
         match fuel with
         | O => cmd
         | S _ => set_instance_idx cmd idx
         end,
         [Shard.EvLimitedWarning NoRedisServerIsReady]).
Proof.
  intros Hel. induction fuel as [|fuel IH];
    intros attempt current cmd idx Hcc Hro.
  - exists current. reflexivity.
  - cbn [Shard.attempts]. rewrite Hcc, Hro.
    rewrite GetInstance_none.
    2:{ intros j c Hj. apply Hel; [|exact Hj].
        intros H. apply andb_true_iff in H. apply H. }
    destruct (IH (wrap (attempt + 1)) (wrap (current + 1))
                 (set_instance_idx cmd idx) idx Hcc Hro) as [cur' E].
    exists cur'. rewrite E. destruct fuel; reflexivity.
Qed.

(** [AsyncCommand] on a shard that is not destroying: the mask, then the
    loop, under the shared lock. *)
Lemma AsyncCommand_running (s : Shard.Shard) (cmd : Command) :
  Shard.destroying_ s = false ->
  forall avail log b instances cur cmd' evs,
    Shard.GetAvailableServers (Shard.instances_ s) (control cmd)
      (negb (cmd_read_only cmd) || allow_reads_from_master (control cmd))
      (cmd_read_only cmd) = (avail, log) ->
    attempts (S (length (Shard.instances_ s))) 0 avail (Shard.instances_ s)
      (Shard.current_ s) cmd 0 = (b, instances, cur, cmd', evs) ->
    AsyncCommand s cmd
    = Shard.mkOutcome b (Shard.with_routing s instances cur) cmd'
        (Shard.EvLockShared :: log ++ evs ++ [Shard.EvUnlock]).
Proof.
  intros Hd avail log b instances cur cmd' evs Ha Hl.
  unfold Shard.AsyncCommand. rewrite Hd, Ha, Hl. reflexivity.
Qed.

End Routing.

(** *** The trace of a submit *)

Lemma GetAvailableServers_log (instances : list Shard.ConnectionStatus)
    (cc : CommandControl) (with_masters with_slaves : bool) :
  let log :=
    snd (Shard.GetAvailableServers instances cc with_masters with_slaves) in
  log = [] \/ log = [Shard.EvLimitedWarning
                       (ServerIdNotFound (force_server_id cc))].
Proof.
  unfold Shard.GetAvailableServers.
  destruct (negb (IsAny (force_server_id cc))).
  - destruct (list_find _ instances) as [[i c]|]; cbn; auto.
  - destruct (strategy cc); cbn; auto.
Qed.

Lemma log_no_dispatch (log : list Shard.Event) (id : ServerId) :
  log = [] \/ log = [Shard.EvLimitedWarning (ServerIdNotFound id)] ->
  forall i r c a, ~ In (Shard.EvRedisAsyncCommand i r c a) log.
Proof.
  intros [->| ->] i r c a; cbn; intuition discriminate.
Qed.

Lemma submit_trace_dispatched (D : Z -> Redis -> Prop)
    (log evs : list Shard.Event) :
  (forall i r c a, ~ In (Shard.EvRedisAsyncCommand i r c a) log) ->
  dispatched D evs ->
  dispatched D (Shard.EvLockShared :: log ++ evs ++ [Shard.EvUnlock]).
Proof.
  intros Hlog Hd i r c a [Hin|Hin]; [discriminate Hin|].
  apply in_app_or in Hin as [Hin|Hin]; [exfalso; exact (Hlog _ _ _ _ Hin)|].
  apply in_app_or in Hin as [Hin|[Hin|[]]]; [|discriminate Hin].
  exact (Hd _ _ _ _ Hin).
Qed.

Lemma submit_trace_refused (log evs : list Shard.Event) :
  (forall i r c a, ~ In (Shard.EvRedisAsyncCommand i r c a) log) ->
  all_refused evs ->
  all_refused (Shard.EvLockShared :: log ++ evs ++ [Shard.EvUnlock]).
Proof.
  intros Hlog Hd i r c a [Hin|Hin]; [discriminate Hin|].
  apply in_app_or in Hin as [Hin|Hin]; [exfalso; exact (Hlog _ _ _ _ Hin)|].
  apply in_app_or in Hin as [Hin|[Hin|[]]]; [|discriminate Hin].
  exact (Hd _ _ _ _ Hin).
Qed.

Lemma submit_trace_accepted (log evs : list Shard.Event) (idx : Z) :
  (forall i r c a, ~ In (Shard.EvRedisAsyncCommand i r c a) log) ->
  accepted_once evs idx ->
  accepted_once (Shard.EvLockShared :: log ++ evs ++ [Shard.EvUnlock]) idx.
Proof.
  intros Hlog (pre & post & r & c & -> & Hpre & Hpost).
  exists (Shard.EvLockShared :: log ++ pre), (post ++ [Shard.EvUnlock]), r, c.
  split; [cbn; rewrite <- !app_assoc; reflexivity|]. split.
  - intros i r0 c0 a [Hin|Hin]; [discriminate Hin|].
    apply in_app_or in Hin as [Hin|Hin];
      [exfalso; exact (Hlog _ _ _ _ Hin) | exact (Hpre _ _ _ _ Hin)].
  - rewrite List.filter_app, Hpost. reflexivity.
Qed.

Lemma available_replicate (n : nat) (j : Z) :
  Shard.available (replicate n false) j = false.
Proof.
  unfold Shard.available.
  destruct (replicate n false !! Z.to_nat j) as [b|] eqn:E; [|reflexivity].
  apply lookup_replicate in E as [-> _]. reflexivity.
Qed.

(** The mask of a pinned command marks the first entry with the pinned id
    and nothing else. *)
Lemma available_pinned (n k : nat) (j : Z) :
  Shard.available (<[k := true]> (replicate n false)) j = true ->
  Z.to_nat j = k.
Proof.
  unfold Shard.available. intros H.
  destruct (decide (Z.to_nat j = k)) as [E|E]; [exact E|].
  rewrite list_lookup_insert_ne in H by congruence.
  fold (Shard.available (replicate n false) j) in H.
  rewrite available_replicate in H. discriminate.
Qed.

(** *** A pinned id that no instance carries *)

Section PinnedMissing.

Variable Redis_AsyncCommand : Redis -> Command -> bool * Redis.

(** C3, as the code has it.  When no instance carries the pinned id, submit
    returns false, hands the command to no instance and leaves the handles
    as they are.  On a shard that is not destroying it emits two rate-limited
    warnings, "server_id not found" from the mask and "No Redis server is
    ready" after the loop, and writes the local index, which is still at its
    initial value [0], back to [command.instance_idx].  On a destroying
    shard it emits nothing and leaves the command alone. *)
Theorem pinned_id_missing (s : Shard.Shard) (cmd : Command) :
  IsAny (force_server_id (control cmd)) = false ->
  (forall c, In c (Shard.instances_ s) ->
             GetServerId (Shard.instance c) <> force_server_id (control cmd)) ->
  let out := Shard.AsyncCommand Redis_AsyncCommand s cmd in
  Shard.ret out = false
  /\ List.filter is_dispatch (Shard.trace out) = []
  /\ Shard.instances_ (Shard.out_shard out) = Shard.instances_ s
  /\ (Shard.destroying_ s = false ->
      Shard.trace out
      = [Shard.EvLockShared;
         Shard.EvLimitedWarning
           (ServerIdNotFound (force_server_id (control cmd)));
         Shard.EvLimitedWarning NoRedisServerIsReady;
         Shard.EvUnlock]
      /\ Shard.out_command out = set_instance_idx cmd 0)
  /\ (Shard.destroying_ s = true ->
      Shard.trace out = [Shard.EvLockShared; Shard.EvUnlock]
      /\ Shard.out_command out = cmd).
Proof.
  intros Hpin Hmiss out. subst out.
  destruct (Shard.destroying_ s) eqn:Hd.
  - rewrite (AsyncCommand_destroying Redis_AsyncCommand s cmd Hd). cbn.
    repeat match goal with |- _ /\ _ => split end; auto; discriminate.
  - assert (Hfind : list_find
                      (Shard.has_server_id (force_server_id (control cmd)))
                      (Shard.instances_ s) = None).
    { apply list_find_None, Forall_forall. intros c Hc.
      apply list_elem_of_In in Hc. exact (Hmiss c Hc). }
    set (avail := replicate (length (Shard.instances_ s)) false).
    assert (Ha : Shard.GetAvailableServers (Shard.instances_ s) (control cmd)
                   (negb (cmd_read_only cmd)
                    || allow_reads_from_master (control cmd))
                   (cmd_read_only cmd)
                 = (avail,
                    [Shard.EvLimitedWarning
                       (ServerIdNotFound (force_server_id (control cmd)))])).
    { unfold Shard.GetAvailableServers. rewrite Hpin, Hfind. reflexivity. }
    destruct (attempts_no_candidate Redis_AsyncCommand avail
                (Shard.instances_ s) (control cmd) (cmd_read_only cmd))
      with (fuel := S (length (Shard.instances_ s))) (attempt := 0)
           (current := Shard.current_ s) (cmd := cmd) (idx := 0)
      as [cur' Hl]; try reflexivity.
    { intros fallback skip_idx j c Hfb _. unfold eligible.
      destruct fallback; [rewrite Hfb in Hpin by reflexivity; discriminate|].
      subst avail. rewrite available_replicate. cbn.
      rewrite !orb_true_r. reflexivity. }
    rewrite (AsyncCommand_running Redis_AsyncCommand s cmd Hd _ _ _ _ _ _ _
               Ha Hl).
    cbn. repeat match goal with |- _ /\ _ => split end; auto; discriminate.
Qed.

End PinnedMissing.

Lemma pinned_id_missing_witness :
  Shard.ret (Shard.AsyncCommand Sample.accept_all Sample.three_connected
               (Sample.read_command 99)) = false
  /\ instance_idx
       (Shard.out_command
          (Shard.AsyncCommand Sample.accept_all Sample.three_connected
             (Sample.read_command 99))) = 0.
Proof.
  pose proof (pinned_id_missing Sample.accept_all Sample.three_connected
                (Sample.read_command 99)) as H.
  cbv zeta in H.
  destruct H as (H1 & _ & _ & H2 & _).
  - reflexivity.
  - intros c Hc. cbn in Hc.
    destruct Hc as [<-|[<-|[<-|[]]]]; discriminate.
  - split; [exact H1|].
    destruct (H2 eq_refl) as [_ ->]. reflexivity.
Defined.

(** The scenario of C3 on a sample shard: a read pinned to an id that no
    instance carries, from a command that has not been tried yet.  Two
    warnings are emitted, and [instance_idx] is not what it was. *)
Lemma pinned_id_missing_two_warnings_and_index_reset :
  let cmd := Sample.read_command 99 in
  let out :=
    Shard.AsyncCommand Sample.accept_all Sample.three_connected cmd in
  Forall (fun c => GetServerId (Shard.instance c) <> mkServerId 99)
         (Shard.instances_ Sample.three_connected)
  /\ Shard.ret out = false
  /\ List.filter is_limited_warning (Shard.trace out)
     = [Shard.EvLimitedWarning (ServerIdNotFound (mkServerId 99));
        Shard.EvLimitedWarning NoRedisServerIsReady]
  /\ instance_idx cmd = size_t_max
  /\ instance_idx (Shard.out_command out) = 0
  /\ instance_idx (Shard.out_command out) <> instance_idx cmd.
Proof.
  cbv zeta. split.
  - repeat constructor; discriminate.
  - repeat split. vm_compute. discriminate.
Qed.

(** *** Role filtering *)

Lemma map_info_after_alter
    (f : Shard.ConnectionStatus -> Shard.ConnectionStatus) (k : nat) (l : list Shard.ConnectionStatus) :
  (forall c, Shard.info (f c) = Shard.info c) ->
  map Shard.info (alter f k l) = map Shard.info l.
Proof.
  intros Hf. revert k. induction l as [|c l IH]; intros k; [reflexivity|].
  destruct k as [|k]; cbn.
  - rewrite Hf. reflexivity.
  - f_equal. apply IH.
Qed.

Lemma lookup_same_infos (l l' : list Shard.ConnectionStatus) (k : nat)
    (c : Shard.ConnectionStatus) :
  map Shard.info l = map Shard.info l' ->
  l !! k = Some c ->
  exists c', l' !! k = Some c' /\ Shard.info c' = Shard.info c.
Proof.
  revert l' k. induction l as [|x l IH]; intros l' k Hm Hk; [discriminate|].
  destruct l' as [|x' l']; [discriminate|].
  injection Hm as Hx Hm.
  destruct k as [|k]; cbn in *.
  - injection Hk as <-. exists x'. auto.
  - exact (IH l' k Hm Hk).
Qed.

Section RoleFiltering.

Variable Redis_AsyncCommand : Redis -> Command -> bool * Redis.

(** C2.  Role filtering.  For a writable command, every instance the
    command is handed to, on any attempt, fallback attempts included, sits
    at an index of [instances_] whose [info.read_only] is false; when submit
    returns true, exactly one dispatch was accepted, at the index written
    back to the command; the infos of the instances do not change.  When
    every instance that is not read-only is destroying or not connected (as
    in a shard whose single master is destroying, whatever the state of the
    replicas), submit returns false and hands the command to no instance. *)
Theorem writable_never_reaches_read_only (s : Shard.Shard)
    (cmd : Command) :
  cmd_read_only cmd = false ->
  let out := Shard.AsyncCommand Redis_AsyncCommand s cmd in
  let writable_at (i : Z) (r : Redis) :=
    exists c, Shard.instances_ s !! Z.to_nat i = Some c
              /\ Shard.read_only (Shard.info c) = false in
  dispatched writable_at (Shard.trace out)
  /\ (Shard.ret out = true ->
      accepted_once (Shard.trace out) (instance_idx (Shard.out_command out)))
  /\ (Shard.ret out = false -> all_refused (Shard.trace out))
  /\ map Shard.info (Shard.instances_ (Shard.out_shard out))
     = map Shard.info (Shard.instances_ s)
  /\ ((forall c, In c (Shard.instances_ s) ->
                 Shard.read_only (Shard.info c) = false ->
                 usable (Shard.instance c) = false) ->
      Shard.ret out = false
      /\ List.filter is_dispatch (Shard.trace out) = []).
Proof.
  intros Hw out writable_at. subst out.
  destruct (Shard.destroying_ s) eqn:Hd.
  { rewrite (AsyncCommand_destroying Redis_AsyncCommand s cmd Hd). cbn.
    repeat match goal with |- _ /\ _ => split end; auto; try discriminate.
    - intros i r c a [H|[H|[]]]; discriminate H.
    - intros _ i r c a [H|[H|[]]]; discriminate H. }
  destruct (Shard.GetAvailableServers (Shard.instances_ s) (control cmd)
              (negb (cmd_read_only cmd)
               || allow_reads_from_master (control cmd))
              (cmd_read_only cmd)) as [avail log] eqn:Ha.
  assert (Hlog : forall i r c a,
             ~ In (Shard.EvRedisAsyncCommand i r c a) log).
  { apply (log_no_dispatch log (force_server_id (control cmd))).
    pose proof (GetAvailableServers_log (Shard.instances_ s) (control cmd)
                  (negb (cmd_read_only cmd)
                   || allow_reads_from_master (control cmd))
                  (cmd_read_only cmd)) as H.
    cbv zeta in H. rewrite Ha in H. exact H. }
  destruct (Shard.attempts Redis_AsyncCommand
              (S (length (Shard.instances_ s))) 0 avail (Shard.instances_ s)
              (Shard.current_ s) cmd 0)
    as [[[[b instances] cur] cmd'] evs] eqn:Hl.
  rewrite (AsyncCommand_running Redis_AsyncCommand s cmd Hd _ _ _ _ _ _ _
             Ha Hl).
  cbn [Shard.ret Shard.trace Shard.out_command Shard.out_shard
       Shard.with_routing Shard.instances_].
  pose proof (attempts_invariant Redis_AsyncCommand
                (fun l => map Shard.info l
                          = map Shard.info (Shard.instances_ s))
                writable_at (control cmd) false avail) as Hinv.
  destruct (Hinv) with (fuel := S (length (Shard.instances_ s)))
    (attempt := 0) (instances := Shard.instances_ s)
    (current := Shard.current_ s) (cmd := cmd) (idx := 0)
    (b := b) (instances' := instances) (cur' := cur) (cmd' := cmd')
    (evs := evs) as (H1 & _ & _ & H4 & H5 & H6); auto.
  { intros l current fallback skip_idx pidx r idx cur0 Hl0 _ Hg.
    pose proof (GetInstance_found l current avail fallback skip_idx false
                  pidx) as Hf.
    rewrite Hg in Hf. destruct Hf as [_ (c & Hc & _ & _ & Hro & _)].
    split.
    - destruct (lookup_same_infos _ _ _ _ Hl0 Hc) as (c' & Hc' & Hi).
      exists c'. split; [exact Hc'|]. rewrite Hi. apply Hro. reflexivity.
    - intros cmd0. unfold after_dispatch.
      rewrite map_info_after_alter by reflexivity. exact Hl0. }
  repeat match goal with |- _ /\ _ => split end.
  - apply submit_trace_dispatched; assumption.
  - intros Hb. apply submit_trace_accepted; auto.
  - intros Hb. apply submit_trace_refused; auto.
  - exact H1.
  - intros Hun.
    destruct (attempts_no_candidate Redis_AsyncCommand avail
                (Shard.instances_ s) (control cmd) false)
      with (fuel := S (length (Shard.instances_ s))) (attempt := 0)
           (current := Shard.current_ s) (cmd := cmd) (idx := 0)
      as [cur' Hl']; auto.
    { intros fallback skip_idx j c _ Hj. unfold eligible. cbn [negb andb].
      destruct (Shard.read_only (Shard.info c)) eqn:Er.
      - rewrite orb_true_r. reflexivity.
      - rewrite (Hun c); [apply andb_false_r| |exact Er].
        apply list_elem_of_In. exact (list_elem_of_lookup_2 _ _ _ Hj). }
    rewrite Hl' in Hl. injection Hl as <- _ _ _ <-.
    split; [reflexivity|].
    destruct (GetAvailableServers_log (Shard.instances_ s) (control cmd)
                (negb (cmd_read_only cmd)
                 || allow_reads_from_master (control cmd))
                (cmd_read_only cmd)) as [E|E];
      rewrite Ha in E; cbn in E; rewrite E; reflexivity.
Qed.

End RoleFiltering.

Lemma writable_never_reaches_read_only_witness :
  Shard.ret (Shard.AsyncCommand Sample.accept_all Sample.master_destroying
               (Sample.write_command (-1))) = false
  /\ List.filter is_dispatch
       (Shard.trace
          (Shard.AsyncCommand Sample.accept_all Sample.master_destroying
             (Sample.write_command (-1)))) = [].
Proof.
  apply (writable_never_reaches_read_only Sample.accept_all
           Sample.master_destroying (Sample.write_command (-1)) eq_refl).
  intros c Hc. cbn in Hc.
  destruct Hc as [<-|[<-|[<-|[]]]]; intros H; try discriminate H;
    reflexivity.
Defined.

(** *** The pin *)

Section Pin.

Variable Redis_AsyncCommand : Redis -> Command -> bool * Redis.

(** The id of a server does not change when it is handed a command. *)
Hypothesis server_id_stable :
  forall r c, GetServerId (snd (Redis_AsyncCommand r c)) = GetServerId r.


End Pin.

Section ClusterPin.

Variable kDefaultPrevInstanceIdx : Z.
Variable Redis_AsyncCommand : Redis -> Command -> bool * Redis.
Variable partial_sort :
  nat -> list ClusterShard.RedisConnectionPtr
  -> list ClusterShard.RedisConnectionPtr.





End ClusterPin.




(** * Further properties *)

(** ** The state update, continued *)

Lemma filter_partition_perm {A : Type} (f g : A -> bool) (l : list A) :
  (forall x, f x = true -> g x = false) ->
  Permutation (List.filter f l ++ List.filter g l)
              (List.filter (fun x => f x || g x) l).
Proof.
  intros Hfg. induction l as [|x l IH]; [constructor|].
  cbn. destruct (f x) eqn:Ef; cbn.
  - rewrite (Hfg x Ef). constructor. exact IH.
  - destruct (g x); [|exact IH].
    rewrite <- Permutation_middle. constructor. exact IH.
Qed.

Section StateUpdateMore.

Variable ready_change_callback_ : option (bool -> option string).

Abbreviation PSU := (Shard.ProcessStateUpdate ready_change_callback_).

Lemma state_update_instances_connected (now : Z) (s : Shard.Shard)
    (c : Shard.ConnectionStatus) :
  In c (Shard.instances_ (snd (fst (PSU now s)))) ->
  entry_connected c = true.
Proof.
  rewrite ProcessStateUpdate_eq. cbn [fst snd Shard.instances_].
  intros Hc. apply in_app_or in Hc as [Hc|Hc];
    apply List.filter_In in Hc as [_ Hc]; exact Hc.
Qed.

Lemma state_update_prev_connected (now : Z) (s : Shard.Shard) :
  Shard.prev_connected_ (snd (fst (PSU now s)))
  = negb (Shard.is_empty (Shard.instances_ (snd (fst (PSU now s))))).
Proof. rewrite ProcessStateUpdate_eq. reflexivity. Qed.

Lemma state_update_sorts_entries_perm (now : Z) (s : Shard.Shard) :
  Permutation
    (Shard.instances_ (snd (fst (PSU now s)))
     ++ Shard.clean_wait_ (snd (fst (PSU now s))))
    (List.filter (fun c => negb (entry_terminal c))
                 (Shard.instances_ s ++ Shard.clean_wait_ s)).
Proof.
  rewrite ProcessStateUpdate_eq.
  cbn [fst snd Shard.instances_ Shard.clean_wait_].
  assert (Hd : forall x, entry_connected x = true -> entry_pending x = false).
  { intros x Hx. destruct (entry_fate x) as [H|[H|H]];
      destruct H as (H1 & H2 & H3); congruence. }
  rewrite (List.filter_ext (fun c => negb (entry_terminal c))
             (fun c => entry_connected c || entry_pending c)).
  2:{ intros x. destruct (entry_fate x) as [H|[H|H]];
        destruct H as (H1 & H2 & H3); rewrite H1, H2, H3; reflexivity. }
  rewrite List.filter_app.
  rewrite <- !(filter_partition_perm entry_connected entry_pending) by auto.
  set (a := List.filter entry_connected (Shard.instances_ s)).
  set (b := List.filter entry_connected (Shard.clean_wait_ s)).
  set (c := List.filter entry_pending (Shard.clean_wait_ s)).
  set (d := List.filter entry_pending (Shard.instances_ s)).
  rewrite <- !app_assoc.
  apply Permutation_app_head.
  rewrite (Permutation_app_comm c d).
  rewrite !app_assoc. apply Permutation_app_tail.
  apply Permutation_app_comm.
Qed.

(** X1.  After [ProcessStateUpdate] every entry of [instances_] is connected
    and every entry of [clean_wait_] is still connecting; the entries kept
    are, with their multiplicities, those that were not in a drained state:
    nothing is copied and nothing else is lost. *)
Theorem state_update_sorts_entries (now : Z) (s : Shard.Shard) :
  let s' := snd (fst (PSU now s)) in
  Forall (fun c => GetState (Shard.instance c) = kConnected)
         (Shard.instances_ s')
  /\ Forall (fun c => GetState (Shard.instance c) = kInit)
            (Shard.clean_wait_ s')
  /\ Permutation
       (Shard.instances_ s' ++ Shard.clean_wait_ s')
       (List.filter (fun c => negb (entry_terminal c))
                    (Shard.instances_ s ++ Shard.clean_wait_ s)).
Proof.
  cbv zeta. rewrite ProcessStateUpdate_eq.
  cbn [fst snd Shard.instances_ Shard.clean_wait_].
  split; [|split].
  - apply Forall_forall. intros c Hc. apply list_elem_of_In in Hc.
    apply in_app_or in Hc as [Hc|Hc];
      apply List.filter_In in Hc as [_ Hc];
      unfold entry_connected, is_connected in Hc;
      apply bool_decide_eq_true in Hc; exact Hc.
  - apply Forall_forall. intros c Hc. apply list_elem_of_In in Hc.
    apply in_app_or in Hc as [Hc|Hc];
      apply List.filter_In in Hc as [_ Hc];
      unfold entry_pending in Hc;
      apply bool_decide_eq_true in Hc; exact Hc.
  - pose proof (state_update_sorts_entries_perm now s) as Hp.
    rewrite ProcessStateUpdate_eq in Hp. exact Hp.
Qed.

Lemma filter_negb_nil {A : Type} (f : A -> bool) (l : list A) :
  List.filter (fun x => negb (f x)) l = [] -> List.filter f l = l.
Proof.
  induction l as [|x l IH]; [reflexivity|].
  cbn. destruct (f x); cbn; [|discriminate].
  intros H. f_equal. exact (IH H).
Qed.

Lemma is_empty_nil {A : Type} (l : list A) :
  Shard.is_empty l = true <-> l = [].
Proof. destruct l; split; intros H; try reflexivity; discriminate. Qed.

(** X2.  [ProcessStateUpdate] returns true exactly when [instances_] is not
    the list it was: an instance was demoted or a pending entry promoted.
    Draining entries from [clean_wait_] alone is not reported. *)
Theorem state_update_reports_change (now : Z) (s : Shard.Shard) :
  let r := PSU now s in
  fst (fst r) = true
  <-> Shard.instances_ (snd (fst r)) <> Shard.instances_ s.
Proof.
  cbv zeta. rewrite ProcessStateUpdate_eq.
  cbn [fst snd Shard.instances_].
  set (demoted := List.filter (fun c => negb (entry_connected c))
                              (Shard.instances_ s)).
  set (promoted := List.filter entry_connected (Shard.clean_wait_ s)).
  split.
  - intros Hch Heq.
    destruct demoted as [|c rest] eqn:E.
    + cbn in Hch. subst demoted. apply filter_negb_nil in E.
      rewrite E in Heq.
      apply (f_equal (@length _)) in Heq. rewrite length_app in Heq.
      destruct promoted; [discriminate|]. cbn in Heq. lia.
    + assert (Hc : In c demoted) by (rewrite E; left; reflexivity).
      apply List.filter_In in Hc as [Hc Hn].
      rewrite <- Heq in Hc. apply in_app_or in Hc as [Hc|Hc];
        apply List.filter_In in Hc as [_ Hc]; rewrite Hc in Hn;
        discriminate.
  - intros Hne.
    destruct (Shard.is_empty demoted) eqn:Ed; [|reflexivity].
    destruct (Shard.is_empty promoted) eqn:Ep; [|reflexivity].
    exfalso. apply Hne.
    apply is_empty_nil in Ed, Ep. rewrite Ep, app_nil_r.
    apply filter_negb_nil. exact Ed.
Qed.

(** [ProcessStateUpdate_exn] in closed form. *)
Lemma ProcessStateUpdate_exn_eq
    (callback : option (bool -> Shard.CallbackEnd)) (now : Z)
    (s : Shard.Shard) :
  let promoted := List.filter entry_connected (Shard.clean_wait_ s) in
  let demoted :=
    List.filter (fun c => negb (entry_connected c)) (Shard.instances_ s) in
  let instances :=
    List.filter entry_connected (Shard.instances_ s) ++ promoted in
  let clean_wait :=
    List.filter entry_pending (Shard.clean_wait_ s)
    ++ List.filter entry_pending (Shard.instances_ s) in
  let erase_clean_wait :=
    List.filter entry_terminal (Shard.clean_wait_ s)
    ++ List.filter entry_terminal (Shard.instances_ s) in
  let last_connected_time :=
    if Shard.is_empty promoted then Shard.last_connected_time_ s else now in
  let last_ready_time :=
    if negb (Shard.is_empty erase_clean_wait)
       && (Shard.last_ready_time_ s <? last_connected_time)
    then now else Shard.last_ready_time_ s in
  let new_connected := negb (Shard.is_empty instances) in
  let changed :=
    negb (Shard.is_empty demoted) || negb (Shard.is_empty promoted) in
  let after prev_connected :=
    Shard.mkShard (Shard.connection_infos_ s) instances clean_wait
      (Shard.destroying_ s) (Shard.current_ s) last_connected_time
      last_ready_time prev_connected (Shard.cluster_mode_ s)
      (Shard.commands_buffering_settings_ s) in
  let locked :=
    Shard.EvLockUnique :: map ready_signal promoted ++ [Shard.EvUnlock] in
  Shard.ProcessStateUpdate_exn callback now s
  = if bool_decide (Shard.prev_connected_ s <> new_connected) then
      match callback with
      | Some cb =>
          match cb new_connected with
          | Shard.CallbackReturns =>
              (Shard.Returned changed, after new_connected,
               locked ++ [Shard.EvReadyChangeCallback new_connected])
          | Shard.CallbackThrows what =>
              (Shard.Returned changed, after new_connected,
               locked
               ++ [Shard.EvReadyChangeCallback new_connected;
                   Shard.EvWarning (ExceptionInReadyChangeCallback what)])
          | Shard.CallbackThrowsOther =>
              (Shard.Escaped, after (Shard.prev_connected_ s),
               locked ++ [Shard.EvReadyChangeCallback new_connected])
          end
      | None => (Shard.Returned changed, after new_connected, locked)
      end
    else (Shard.Returned changed, after (Shard.prev_connected_ s), locked).
Proof.
  cbv zeta. unfold Shard.ProcessStateUpdate_exn.
  rewrite demote_fold, scan_fold. cbn [Shard.sc_instances Shard.sc_clean_wait
    Shard.sc_erase Shard.sc_changed Shard.sc_last_connected Shard.sc_events
    app orb].
  rewrite !List.filter_app.
  rewrite (filter_filter_disjoint entry_connected)
    by (intros x Hx; apply negb_true_iff; exact Hx).
  rewrite (filter_filter_sub entry_pending).
  2:{ intros x Hx. destruct (entry_fate x) as [H|[H|H]];
        destruct H as (H1 & H2 & H3); rewrite H1; cbn; congruence. }
  rewrite (filter_filter_sub entry_terminal).
  2:{ intros x Hx. destruct (entry_fate x) as [H|[H|H]];
        destruct H as (H1 & H2 & H3); rewrite H1; cbn; congruence. }
  rewrite !app_nil_r. reflexivity.
Qed.

Lemma no_warning_under_lock (l : list Shard.ConnectionStatus) (w : Warning) :
  ~ In (Shard.EvWarning w)
       (Shard.EvLockUnique :: map ready_signal l ++ [Shard.EvUnlock]).
Proof.
  intros [H|H]; [discriminate H|].
  apply in_app_or in H as [H|[H|[]]]; [|discriminate H].
  apply in_map_iff in H as (c & H & _). discriminate H.
Qed.

Lemma no_callback_under_lock (l : list Shard.ConnectionStatus) :
  List.filter is_ready_callback
    (Shard.EvLockUnique :: map ready_signal l ++ [Shard.EvUnlock]) = [].
Proof.
  apply filter_none. intros e [<-|H]; [reflexivity|].
  apply in_app_or in H as [H|[<-|[]]]; [|reflexivity].
  apply in_map_iff in H as (c & <- & _). reflexivity.
Qed.

(** X3.  Readiness.  [ProcessStateUpdate] calls the readiness callback at
    most once, exactly when a callback is installed and the new readiness
    ([instances_] is non-empty) differs from [prev_connected_], and passes it
    the new readiness.  [instances_], [clean_wait_] and the clocks end as
    they do without a callback, however the callback ends.  If the callback
    returns, or throws a [std::exception] (which is logged as a warning, and
    nothing else is), the call returns what it returns without a callback
    and [prev_connected_] is the new readiness.  If the callback throws
    anything else, the exception leaves [ProcessStateUpdate]: nothing is
    returned, and [prev_connected_] keeps its old value, which is not the
    new readiness.  On callbacks that return or throw a [std::exception]
    this is [ProcessStateUpdate] as modelled for them. *)
Theorem state_update_tracks_readiness
    (callback : option (bool -> Shard.CallbackEnd)) (now : Z)
    (s : Shard.Shard) :
  let r := Shard.ProcessStateUpdate_exn callback now s in
  let s' := snd (fst r) in
  let quiet := Shard.ProcessStateUpdate None now s in
  let ready := negb (Shard.is_empty (Shard.instances_ s')) in
  let called :=
    if bool_decide (Shard.prev_connected_ s <> ready)
    then option_map (fun cb => cb ready) callback else None in
  List.filter is_ready_callback (snd r)
  = match called with
    | Some _ => [Shard.EvReadyChangeCallback ready]
    | None => []
    end
  /\ (Shard.instances_ s' = Shard.instances_ (snd (fst quiet))
      /\ Shard.clean_wait_ s' = Shard.clean_wait_ (snd (fst quiet))
      /\ Shard.last_connected_time_ s'
         = Shard.last_connected_time_ (snd (fst quiet))
      /\ Shard.last_ready_time_ s'
         = Shard.last_ready_time_ (snd (fst quiet)))
  /\ match called with
     | Some Shard.CallbackThrowsOther =>
         fst (fst r) = Shard.Escaped
         /\ Shard.prev_connected_ s' = Shard.prev_connected_ s
         /\ Shard.prev_connected_ s' <> ready
     | _ =>
         fst (fst r) = Shard.Returned (fst (fst quiet))
         /\ Shard.prev_connected_ s' = ready
     end
  /\ (forall what,
        In (Shard.EvWarning (ExceptionInReadyChangeCallback what)) (snd r)
        <-> called = Some (Shard.CallbackThrows what))
  /\ Shard.ProcessStateUpdate_exn
       (option_map Shard.as_callback ready_change_callback_) now s
     = (Shard.Returned (fst (fst (PSU now s))), snd (fst (PSU now s)),
        snd (PSU now s)).
Proof.
  cbv zeta.
  set (promoted := List.filter entry_connected (Shard.clean_wait_ s)).
  set (instances := List.filter entry_connected (Shard.instances_ s)
                    ++ promoted).
  assert (Hi : Shard.instances_
                 (snd (fst (Shard.ProcessStateUpdate_exn callback now s)))
               = instances).
  { rewrite ProcessStateUpdate_exn_eq. cbv zeta.
    case_bool_decide; [destruct callback as [cb|]; [destruct (cb _)|]|];
      reflexivity. }
  rewrite Hi. clear Hi.
  rewrite !ProcessStateUpdate_exn_eq, !ProcessStateUpdate_eq.
  cbv zeta. fold promoted. fold instances.
  set (ready := negb (Shard.is_empty instances)).
  unfold Shard.notify_ready_change, Shard.as_callback.
  assert (Hconj : forall (A B C D E : Prop),
             A -> B -> C -> D -> E -> A /\ B /\ C /\ D /\ E) by tauto.
  case_bool_decide as Hflip.
  - apply Hconj.
    + destruct callback as [cb|]; cbn [option_map];
        [destruct (cb ready)|]; cbn [fst snd];
        rewrite ?List.filter_app, no_callback_under_lock; reflexivity.
    + destruct callback as [cb|]; [destruct (cb ready)|];
        cbn [fst snd Shard.instances_ Shard.clean_wait_
             Shard.last_connected_time_ Shard.last_ready_time_]; auto.
    + destruct callback as [cb|]; cbn [option_map];
        [destruct (cb ready)|];
        cbn [fst snd Shard.prev_connected_]; auto.
    + intros what.
      destruct callback as [cb|]; cbn [option_map];
        [destruct (cb ready) as [|what'|]|]; cbn [fst snd]; split;
        try discriminate;
        try (intros H; apply in_app_or in H as [H|H];
             [destruct (no_warning_under_lock _ _ H)|];
             cbn in H; intuition congruence);
        try (intros H; destruct (no_warning_under_lock _ _ H)).
      intros [= ->]. apply in_or_app. right. right. left. reflexivity.
    + destruct ready_change_callback_ as [cb|]; cbn [option_map];
        [destruct (cb ready)|]; cbn [fst snd app];
        rewrite <- ?app_assoc; cbn [app]; rewrite ?app_nil_r; reflexivity.
  - apply Hconj.
    + cbn [fst snd]. apply no_callback_under_lock.
    + cbn [fst snd Shard.instances_ Shard.clean_wait_
           Shard.last_connected_time_ Shard.last_ready_time_]. auto.
    + cbn [fst snd Shard.prev_connected_]. auto.
    + intros what. cbn [fst snd]. split; [|discriminate].
      intros H. destruct (no_warning_under_lock _ _ H).
    + cbn [fst snd app]. rewrite Hflip, <- ?app_assoc.
      cbn [app]. rewrite ?app_nil_r. reflexivity.
Qed.

(** X4.  The clocks.  [last_connected_time_] is set to the current time when a
    pending entry is promoted.  [last_ready_time_] is set to the current time
    when an entry is drained and [last_connected_time_], as it is after the
    promotions of this call, is later than it: whether an instance is left
    does not enter.  If neither clock is ahead of the current time before the
    call, neither moves backwards nor ahead of it. *)
Theorem state_update_clocks (now : Z) (s : Shard.Shard) :
  Shard.last_connected_time_ s <= now ->
  Shard.last_ready_time_ s <= now ->
  let s' := snd (fst (PSU now s)) in
  Shard.last_connected_time_ s'
  = (if existsb entry_connected (Shard.clean_wait_ s)
     then now else Shard.last_connected_time_ s)
  /\ Shard.last_ready_time_ s'
     = (if existsb entry_terminal (Shard.clean_wait_ s ++ Shard.instances_ s)
           && (Shard.last_ready_time_ s <? Shard.last_connected_time_ s')
        then now else Shard.last_ready_time_ s)
  /\ Shard.last_connected_time_ s <= Shard.last_connected_time_ s' <= now
  /\ Shard.last_ready_time_ s <= Shard.last_ready_time_ s' <= now.
Proof.
  intros Hc Hr. cbv zeta. rewrite ProcessStateUpdate_eq.
  cbn [fst snd Shard.last_connected_time_ Shard.last_ready_time_].
  assert (He : forall (f : Shard.ConnectionStatus -> bool) l,
             negb (Shard.is_empty (List.filter f l)) = existsb f l).
  { intros f l. induction l as [|x l IH]; [reflexivity|].
    cbn. destruct (f x); [reflexivity | exact IH]. }
  rewrite <- List.filter_app, !He.
  rewrite <- (negb_involutive (Shard.is_empty (List.filter entry_connected _))).
  rewrite He.
  split; [destruct (existsb entry_connected _); reflexivity|].
  split; [reflexivity|].
  destruct (existsb entry_connected _), (existsb entry_terminal _);
    cbn [negb andb]; try destruct (_ <? _); lia.
Qed.

(** X5.  Right after [ProcessStateUpdate], [IsConnectedToAllServersDebug]
    holds when an empty shard is allowed, and otherwise says what
    [prev_connected_] says; the ids [GetAllInstancesServerId] lists are those
    of the instances that are not destroying. *)
Theorem introspection_after_state_update (now : Z) (s : Shard.Shard) :
  let s' := snd (fst (PSU now s)) in
  Shard.IsConnectedToAllServersDebug s' true = true
  /\ Shard.IsConnectedToAllServersDebug s' false = Shard.prev_connected_ s'
  /\ Shard.GetAllInstancesServerId s'
     = map (fun c => GetServerId (Shard.instance c))
           (List.filter (fun c => negb (IsDestroying (Shard.instance c)))
                        (Shard.instances_ s')).
Proof.
  cbv zeta. rewrite state_update_prev_connected.
  pose proof (state_update_instances_connected now s) as Hconn.
  set (s' := snd (fst (PSU now s))) in *.
  assert (Hall : forallb (fun c => is_connected (Shard.instance c))
                         (Shard.instances_ s') = true).
  { apply forallb_forall. intros c Hc. exact (Hconn c Hc). }
  unfold Shard.IsConnectedToAllServersDebug, Shard.GetAllInstancesServerId.
  rewrite Hall. split; [reflexivity|]. split; [reflexivity|].
  f_equal. apply List.filter_ext_in. intros c Hc.
  unfold Shard.connected_alive.
  rewrite (proj1 (forallb_forall _ _) Hall c Hc). reflexivity.
Qed.

End StateUpdateMore.

Lemma state_update_clocks_witness :
  Shard.last_ready_time_
    (snd (fst (Shard.ProcessStateUpdate Sample.callback 10
                 Sample.one_disconnecting))) = 10
  /\ Shard.last_connected_time_
       (snd (fst (Shard.ProcessStateUpdate Sample.callback 10
                    Sample.one_pending_connected))) = 10.
Proof.
  split.
  - apply (state_update_clocks Sample.callback 10 Sample.one_disconnecting);
      cbn; lia.
  - apply (state_update_clocks Sample.callback 10
             Sample.one_pending_connected); cbn; lia.
Defined.

(** ** Creation, continued *)

Lemma covered_spec (l : list Shard.ConnectionStatus)
    (y : Shard.ConnectionInfoInt) :
  covered l y = true <-> In (info_key y) (map entry_key l).
Proof.
  unfold covered. rewrite existsb_exists, in_map_iff. split.
  - intros (c & Hc & He). exists c. split; [|exact Hc].
    apply info_equiv_spec in He as [Hh Hp].
    unfold entry_key, info_key. congruence.
  - intros (c & Hk & Hc). exists c. split; [exact Hc|].
    apply info_equiv_spec. unfold entry_key, info_key in Hk.
    injection Hk as Hh Hp. auto.
Qed.

Lemma omap_length_le {A B : Type} (f : A -> option B) (l : list A) :
  (length (omap f l) <= length l)%nat.
Proof.
  induction l as [|x l IH]; [reflexivity|].
  cbn. destruct (f x); cbn; lia.
Qed.

Lemma reconciled_same (infos : Shard.InfoSet) (c : Shard.ConnectionStatus) :
  reconciled infos c = Some c <-> settled infos c = true.
Proof.
  unfold reconciled, settled.
  destruct (Shard.set_find (Shard.info c) infos) as [ci|];
    [|split; discriminate].
  rewrite bool_decide_eq_true. destruct c as [[h p ro] r]. cbn. split.
  - intros [= H]. exact H.
  - intros ->. reflexivity.
Qed.

Lemma reconcile_fixed (infos : Shard.InfoSet)
    (l : list Shard.ConnectionStatus) :
  omap (reconciled infos) l = l <-> forallb (settled infos) l = true.
Proof.
  induction l as [|c l IH]; [split; reflexivity|].
  cbn [omap list_omap forallb]. rewrite andb_true_iff, <- IH.
  rewrite <- reconciled_same.
  destruct (reconciled infos c) as [c'|] eqn:E.
  - split.
    + intros [= -> H]. auto.
    + intros [[= ->] ->]. reflexivity.
  - split; [|intros [H _]; discriminate H].
    intros H. exfalso.
    pose proof (omap_length_le (reconciled infos) l) as Hle.
    apply (f_equal (@length _)) in H. cbn in H. lia.
Qed.

Section CreationMore.

Variable new_Redis : bool -> nat -> Redis.
Variable Redis_Connect : Shard.ConnectionInfoInt -> Redis -> Redis.
Variable Redis_SetCommandsBufferingSettings :
  Shard.CommandsBufferingSettings -> Redis -> Redis.

Abbreviation PC :=
  (Shard.ProcessCreation new_Redis Redis_Connect
     Redis_SetCommandsBufferingSettings).

(** X6.  After [ProcessCreation] every element of the desired set has an
    entry, live or pending, for its host and port; an element that had one
    before the call gets no new one, an element that had none gets exactly one
    new entry, at the end of [clean_wait_], in the order of the set. *)
Theorem creation_covers_desired_set (alloc : nat) (s : Shard.Shard) :
  let s' := snd (fst (PC alloc s)) in
  let missing :=
    List.filter
      (fun y => negb (covered (Shard.instances_ s ++ Shard.clean_wait_ s) y))
      (Shard.connection_infos_ s) in
  (forall y, In y (Shard.connection_infos_ s) ->
     In (info_key y)
        (map entry_key (Shard.instances_ s' ++ Shard.clean_wait_ s')))
  /\ exists added,
       Shard.clean_wait_ s' = Shard.clean_wait_ s ++ added
       /\ map Shard.info added = missing.
Proof.
  cbv zeta. rewrite ProcessCreation_eq.
  cbn [fst snd Shard.with_lists Shard.instances_ Shard.clean_wait_].
  split.
  - intros y Hy. apply covered_spec.
    apply (covered_after_creation new_Redis Redis_Connect
             Redis_SetCommandsBufferingSettings alloc s y Hy).
  - eexists. split; [reflexivity|].
    rewrite created_infos. apply GetConnectionInfosToCreate_eq.
Qed.

(** X7.  [ProcessCreation] returns true exactly when [instances_] is not the
    list it was: an instance was dropped or its read-only flag was changed.
    Creating pending entries alone is not reported. *)
Theorem creation_reports_change (alloc : nat) (s : Shard.Shard) :
  let r := PC alloc s in
  fst (fst r) = true
  <-> Shard.instances_ (snd (fst r)) <> Shard.instances_ s.
Proof.
  cbv zeta. rewrite ProcessCreation_eq.
  cbn [fst snd Shard.with_lists Shard.instances_].
  rewrite reconcile_fixed.
  destruct (forallb _ _); cbn; split; intros H; congruence.
Qed.

(** X8.  Buffering settings reach the instances that exist and those created
    later:  [SetCommandsBufferingSettings] applies the settings to every live
    and pending handle and leaves the infos and the desired set alone, and
    each entry a following [ProcessCreation] creates has had the same settings
    applied before it is connected. *)
Theorem buffering_settings_reach_new_instances
    (settings : Shard.CommandsBufferingSettings) (alloc : nat)
    (s : Shard.Shard) :
  let s1 :=
    fst (Shard.SetCommandsBufferingSettings
           Redis_SetCommandsBufferingSettings s settings) in
  let s2 := snd (fst (PC alloc s1)) in
  map Shard.instance (Shard.instances_ s1 ++ Shard.clean_wait_ s1)
  = map (fun c => Redis_SetCommandsBufferingSettings settings
                    (Shard.instance c))
        (Shard.instances_ s ++ Shard.clean_wait_ s)
  /\ map Shard.info (Shard.instances_ s1 ++ Shard.clean_wait_ s1)
     = map Shard.info (Shard.instances_ s ++ Shard.clean_wait_ s)
  /\ Shard.connection_infos_ s1 = Shard.connection_infos_ s
  /\ exists added,
       Shard.clean_wait_ s2 = Shard.clean_wait_ s1 ++ added
       /\ forall c, In c added ->
            exists k,
              Shard.instance c
              = Redis_Connect (Shard.info c)
                  (Redis_SetCommandsBufferingSettings settings
                     (new_Redis
                        (Shard.cluster_mode_ s
                         && Shard.read_only (Shard.info c))
                        (alloc + k))).
Proof.
  cbv zeta. rewrite ProcessCreation_eq.
  cbn [fst snd Shard.SetCommandsBufferingSettings Shard.with_lists
       Shard.instances_ Shard.clean_wait_ Shard.connection_infos_].
  rewrite <- !map_app, !map_map. cbn [Shard.set_instance Shard.instance
                                      Shard.info].
  split; [reflexivity|]. split; [reflexivity|]. split; [reflexivity|].
  eexists. split; [reflexivity|].
  intros c Hc. apply list_elem_of_In in Hc.
  apply list_elem_of_lookup in Hc as [k Hk].
  apply list_lookup_imap_Some in Hk as (y & Hy & ->).
  exists k. reflexivity.
Qed.

End CreationMore.

(** ** The desired set and the uniqueness of entries *)

Lemma string_lt_trans (a b c : string) :
  String.compare a b = Lt -> String.compare b c = Lt ->
  String.compare a c = Lt.
Proof.
  intros H1 H2.
  apply OrderedTypeEx.String_as_OT.cmp_lt in H1, H2.
  apply OrderedTypeEx.String_as_OT.cmp_lt.
  exact (OrderedTypeEx.String_as_OT.lt_trans _ _ _ H1 H2).
Qed.

Lemma info_less_trans (a b c : Shard.ConnectionInfoInt) :
  Shard.info_less a b = true -> Shard.info_less b c = true ->
  Shard.info_less a c = true.
Proof.
  unfold Shard.info_less.
  destruct (String.compare (Shard.host a) (Shard.host b)) eqn:Eab;
    [|intros _|discriminate].
  - apply String.compare_eq_iff in Eab. rewrite Eab. intros Hp.
    destruct (String.compare (Shard.host b) (Shard.host c));
      [|reflexivity|discriminate].
    intros Hq. apply Z.ltb_lt in Hp, Hq. apply Z.ltb_lt. lia.
  - destruct (String.compare (Shard.host b) (Shard.host c)) eqn:Ebc;
      [| |discriminate]; intros _.
    + apply String.compare_eq_iff in Ebc. rewrite <- Ebc, Eab. reflexivity.
    + rewrite (string_lt_trans _ _ _ Eab Ebc). reflexivity.
Qed.

Lemma info_less_key (a b : Shard.ConnectionInfoInt) :
  Shard.info_less a b = true -> info_key a <> info_key b.
Proof.
  intros Hl Hk. unfold info_key in Hk. injection Hk as Hh Hp.
  unfold Shard.info_less in Hl. rewrite Hh, string_compare_refl, Hp in Hl.
  rewrite Z.ltb_irrefl in Hl. discriminate.
Qed.

Lemma set_insert_In (x z : Shard.ConnectionInfoInt) (l : Shard.InfoSet) :
  In z (Shard.set_insert x l) -> z = x \/ In z l.
Proof.
  induction l as [|y l IH]; cbn.
  - intros [<-|[]]. auto.
  - destruct (Shard.info_less x y).
    + intros [<-|H]; auto.
    + destruct (Shard.info_less y x); [|auto].
      intros [<-|H]; [auto|]. destruct (IH H); auto.
Qed.

Lemma set_insert_sorted (x : Shard.ConnectionInfoInt) (l : Shard.InfoSet) :
  sorted_infos l -> sorted_infos (Shard.set_insert x l).
Proof.
  unfold sorted_infos. induction 1 as [|y l Hs IH Hy]; cbn.
  - repeat constructor.
  - destruct (Shard.info_less x y) eqn:Exy.
    + constructor; [constructor; assumption|].
      constructor; [exact Exy|].
      rewrite List.Forall_forall in Hy |- *. intros z Hz.
      exact (info_less_trans _ _ _ Exy (Hy z Hz)).
    + destruct (Shard.info_less y x) eqn:Eyx.
      * constructor; [exact IH|].
        rewrite List.Forall_forall in Hy |- *. intros z Hz.
        apply set_insert_In in Hz as [->|Hz]; [exact Eyx | exact (Hy z Hz)].
      * constructor; assumption.
Qed.

Lemma sorted_infos_NoDup (l : Shard.InfoSet) :
  sorted_infos l -> NoDup (map info_key l).
Proof.
  unfold sorted_infos. induction 1 as [|y l Hs IH Hy]; cbn.
  - constructor.
  - constructor; [|exact IH].
    intros Hin. apply list_elem_of_In, in_map_iff in Hin as (z & Hk & Hz).
    rewrite List.Forall_forall in Hy.
    exact (info_less_key _ _ (Hy z Hz) (eq_sym Hk)).
Qed.

Lemma inserted_sorted (info_array : list Shard.ConnectionInfoInt)
    (acc : Shard.InfoSet) :
  sorted_infos acc ->
  sorted_infos (fold_left (fun acc x => Shard.set_insert x acc)
                          info_array acc).
Proof.
  revert acc. induction info_array as [|x l IH]; intros acc H; [exact H|].
  cbn. apply IH. apply set_insert_sorted. exact H.
Qed.

Lemma filter_keys_sublist {A K : Type} (key : A -> K) (f : A -> bool)
    (l : list A) :
  sublist (map key (List.filter f l)) (map key l).
Proof.
  induction l as [|x l IH]; [constructor|].
  cbn. destruct (f x); cbn; constructor; exact IH.
Qed.

Lemma reconciled_keys_sublist (infos : Shard.InfoSet)
    (l : list Shard.ConnectionStatus) :
  sublist (map entry_key (omap (reconciled infos) l)) (map entry_key l).
Proof.
  induction l as [|c l IH]; [constructor|].
  cbn. unfold reconciled at 1.
  destruct (Shard.set_find (Shard.info c) infos); cbn.
  - constructor. exact IH.
  - constructor. exact IH.
Qed.

Lemma unique_entries_same_infos (s s' : Shard.Shard) :
  map Shard.info (Shard.instances_ s') = map Shard.info (Shard.instances_ s) ->
  map Shard.info (Shard.clean_wait_ s')
  = map Shard.info (Shard.clean_wait_ s) ->
  unique_entries s -> unique_entries s'.
Proof.
  unfold unique_entries. intros Hi Hc.
  assert (E : forall l, map entry_key l = map info_key (map Shard.info l)).
  { intros l. rewrite map_map. reflexivity. }
  rewrite !E, !map_app, Hi, Hc. auto.
Qed.

Section Consistency.

Variable Redis_AsyncCommand : Redis -> Command -> bool * Redis.
Variable new_Redis : bool -> nat -> Redis.
Variable Redis_Connect : Shard.ConnectionInfoInt -> Redis -> Redis.
Variable Redis_SetCommandsBufferingSettings :
  Shard.CommandsBufferingSettings -> Redis -> Redis.
Variable ready_change_callback_ : option (bool -> option string).

Abbreviation run1 :=
  (Shard.run_operation Redis_AsyncCommand new_Redis Redis_Connect
     Redis_SetCommandsBufferingSettings ready_change_callback_).
Abbreviation run :=
  (Shard.run_operations Redis_AsyncCommand new_Redis Redis_Connect
     Redis_SetCommandsBufferingSettings ready_change_callback_).

(** A submit changes handles and the counter, nothing else. *)
Lemma AsyncCommand_keeps_infos (s : Shard.Shard) (cmd : Command) :
  let s' := Shard.out_shard (Shard.AsyncCommand Redis_AsyncCommand s cmd) in
  Shard.connection_infos_ s' = Shard.connection_infos_ s
  /\ map Shard.info (Shard.instances_ s') = map Shard.info (Shard.instances_ s)
  /\ Shard.clean_wait_ s' = Shard.clean_wait_ s.
Proof.
  cbv zeta. destruct (Shard.destroying_ s) eqn:Hd.
  { rewrite (AsyncCommand_destroying Redis_AsyncCommand s cmd Hd). auto. }
  destruct (Shard.GetAvailableServers (Shard.instances_ s) (control cmd)
              (negb (cmd_read_only cmd)
               || allow_reads_from_master (control cmd))
              (cmd_read_only cmd)) as [avail log] eqn:Ha.
  destruct (Shard.attempts Redis_AsyncCommand
              (S (length (Shard.instances_ s))) 0 avail (Shard.instances_ s)
              (Shard.current_ s) cmd 0)
    as [[[[b instances] cur] cmd'] evs] eqn:Hl.
  rewrite (AsyncCommand_running Redis_AsyncCommand s cmd Hd _ _ _ _ _ _ _
             Ha Hl).
  cbn [Shard.out_shard Shard.with_routing Shard.connection_infos_
       Shard.instances_ Shard.clean_wait_].
  split; [reflexivity|]. split; [|reflexivity].
  destruct (attempts_invariant Redis_AsyncCommand
              (fun l => map Shard.info l
                        = map Shard.info (Shard.instances_ s))
              (fun _ _ => True) (control cmd) (cmd_read_only cmd) avail)
    with (fuel := S (length (Shard.instances_ s)))
         (attempt := 0) (instances := Shard.instances_ s)
         (current := Shard.current_ s) (cmd := cmd) (idx := 0)
         (b := b) (instances' := instances) (cur' := cur) (cmd' := cmd')
         (evs := evs) as (H1 & _); auto.
  intros l current fallback skip_idx pidx r idx cur0 Hl0 _ _.
  split; [exact I|]. intros cmd0. unfold after_dispatch.
  rewrite map_info_after_alter by reflexivity. exact Hl0.
Qed.

Lemma creation_keeps_unique (alloc : nat) (s : Shard.Shard) :
  consistent s ->
  unique_entries
    (snd (fst (Shard.ProcessCreation new_Redis Redis_Connect
                 Redis_SetCommandsBufferingSettings alloc s))).
Proof.
  intros [Hsorted Hun]. unfold unique_entries in *.
  rewrite ProcessCreation_eq.
  cbn [fst snd Shard.with_lists Shard.instances_ Shard.clean_wait_].
  rewrite GetConnectionInfosToCreate_eq.
  set (infos := Shard.connection_infos_ s) in *.
  set (old := Shard.instances_ s ++ Shard.clean_wait_ s) in *.
  set (missing := List.filter (fun y => negb (covered old y)) infos).
  rewrite app_assoc, map_app.
  assert (Hadd : map entry_key
                   (imap (Shard.create_entry new_Redis Redis_Connect
                            Redis_SetCommandsBufferingSettings s alloc)
                         missing)
                 = map info_key missing).
  { rewrite <- (created_infos new_Redis Redis_Connect
                  Redis_SetCommandsBufferingSettings s alloc missing) at 2.
    rewrite map_map. reflexivity. }
  rewrite Hadd.
  assert (Hsub : sublist
                   (map entry_key
                      (omap (reconciled infos) (Shard.instances_ s)
                       ++ Shard.clean_wait_ s))
                   (map entry_key old)).
  { subst old. rewrite !map_app. apply sublist_app; [|reflexivity].
    apply reconciled_keys_sublist. }
  apply NoDup_app. split; [exact (sublist_NoDup _ _ Hun Hsub)|]. split.
  - intros k Hk Hk'.
    apply (fun H => elem_of_sublist _ _ _ H Hsub) in Hk.
    apply list_elem_of_In, in_map_iff in Hk' as (y & <- & Hy).
    apply List.filter_In in Hy as [_ Hy].
    apply negb_true_iff in Hy.
    apply list_elem_of_In, covered_spec in Hk. congruence.
  - apply (sublist_NoDup _ (map info_key infos));
      [apply sorted_infos_NoDup; exact Hsorted | apply filter_keys_sublist].
Qed.

Lemma state_update_keeps_unique (now : Z) (s : Shard.Shard) :
  unique_entries s ->
  unique_entries
    (snd (fst (Shard.ProcessStateUpdate ready_change_callback_ now s))).
Proof.
  unfold unique_entries. intros Hun.
  pose proof (state_update_sorts_entries_perm
                ready_change_callback_ now s) as Hp.
  rewrite (Permutation_map entry_key Hp).
  exact (sublist_NoDup _ _ Hun (filter_keys_sublist entry_key _ _)).
Qed.

Lemma run_operation_consistent (s : Shard.Shard) (op : Shard.Operation) :
  consistent s -> consistent (run1 s op).
Proof.
  intros Hc. destruct op; cbn [Shard.run_operation].
  - destruct (AsyncCommand_keeps_infos s command) as (Hi & Hm & Hw).
    destruct Hc as [Hs Hu]. split; [rewrite Hi; exact Hs|].
    apply (unique_entries_same_infos s); [exact Hm | rewrite Hw | exact Hu].
    reflexivity.
  - destruct Hc as [Hs _]. split; [exact Hs|]. constructor.
  - unfold Shard.SetConnectionInfo. destruct Hc as [Hs Hu].
    destruct (Shard.set_equal _ _); cbn; [split; assumption|].
    split; [|exact Hu]. apply inserted_sorted. constructor.
  - destruct Hc as [Hs Hu]. split; [exact Hs|].
    apply (unique_entries_same_infos s); [| |exact Hu]; cbn;
      rewrite map_map; reflexivity.
  - split; [|apply creation_keeps_unique; exact Hc].
    rewrite ProcessCreation_eq. exact (proj1 Hc).
  - split; [|apply state_update_keeps_unique; exact (proj2 Hc)].
    rewrite ProcessStateUpdate_eq. exact (proj1 Hc).
  - destruct Hc as [Hs Hu]. split; [exact Hs|].
    apply (unique_entries_same_infos s); [| |exact Hu]; cbn;
      rewrite map_map; reflexivity.
Qed.

(** X9.  Disjointness, over time.  From a shard whose desired set is a set and
    in which no host and port has two entries, whatever operations follow
    (submits, teardown, new desired sets or buffering settings,
    reconciliation, handles changing state), the desired set stays strictly
    sorted and no host and port has two entries: in particular no instance is
    at once in [instances_] and in [clean_wait_]. *)
Theorem entries_stay_unique (s : Shard.Shard) (ops : list Shard.Operation) :
  consistent s ->
  let s' := run s ops in
  consistent s'
  /\ forall a b, In a (Shard.instances_ s') -> In b (Shard.clean_wait_ s') ->
                 entry_key a <> entry_key b.
Proof.
  intros Hc s'. assert (Hc' : consistent s').
  { subst s'. revert s Hc. induction ops as [|op ops IH]; intros s Hc;
      [exact Hc|].
    cbn. apply IH. apply run_operation_consistent. exact Hc. }
  split; [exact Hc'|].
  intros a b Ha Hb Hk. destruct Hc' as [_ Hu]. unfold unique_entries in Hu.
  rewrite map_app in Hu. apply NoDup_app in Hu as (_ & Hd & _).
  apply (Hd (entry_key a)).
  - apply list_elem_of_In, in_map. exact Ha.
  - rewrite Hk. apply list_elem_of_In, in_map. exact Hb.
Qed.

End Consistency.

Lemma entries_stay_unique_witness :
  consistent Sample.empty_shard
  /\ consistent
       (Shard.run_operations Sample.accept_all Sample.new_Redis
          Sample.Connect Sample.SetBuffering Sample.callback
          Sample.empty_shard Sample.replace_desired_set).
Proof.
  assert (H : consistent Sample.empty_shard)
    by (split; constructor).
  split; [exact H|].
  apply (entries_stay_unique Sample.accept_all Sample.new_Redis
           Sample.Connect Sample.SetBuffering Sample.callback
           Sample.empty_shard Sample.replace_desired_set H).
Defined.

(** ** Selection, continued *)

Section LeastLoaded.

Variable instances : list Shard.ConnectionStatus.
Variable current : Z.
Variable avail : list bool.
Variable fallback : bool.
Variable skip_idx : Z.
Variable ro : bool.

Abbreviation round := (rotation current (length instances)).
Abbreviation eligible_in :=
  (eligible_round instances current avail fallback skip_idx ro).
Abbreviation visit :=
  (Shard.GetInstance_visit instances avail fallback skip_idx ro
     (wrap (current + 1)) (Z.of_nat (length instances))).

Abbreviation chosen_after :=
  (chosen_in instances current avail fallback skip_idx ro).

Lemma eligible_usable (j : Z) (c : Shard.ConnectionStatus) :
  eligible avail fallback skip_idx ro j c = true ->
  usable (Shard.instance c) = true
  /\ IsDestroying (Shard.instance c) = false
  /\ ((j =? skip_idx)
      || (negb ro && Shard.read_only (Shard.info c))
      || (negb fallback && negb (Shard.available avail j))) = false.
Proof.
  unfold eligible. intros H. apply andb_true_iff in H as [H1 H2].
  apply negb_true_iff in H1. split; [exact H2|]. split; [|exact H1].
  unfold usable in H2. apply andb_true_iff in H2 as [H2 _].
  apply negb_true_iff in H2. exact H2.
Qed.

Lemma chosen_skip (a : nat) (acc : option Redis * Z) :
  chosen_after a acc -> (forall ci, ~ eligible_in a ci) ->
  chosen_after (S a) acc.
Proof.
  intros Hacc Hno. unfold chosen_after in *. destruct (fst acc) as [r|].
  - destruct Hacc as (k & ck & Hk & Hidx & Hel & Hr & Hle & Hlt).
    exists k, ck. split; [lia|]. split; [exact Hidx|].
    split; [exact Hel|]. split; [exact Hr|]. split; [|exact Hlt].
    intros i ci Hi He.
    destruct (decide (i = a)) as [->|]; [destruct (Hno ci He)|].
    apply (Hle i ci); [lia | exact He].
  - intros i ci Hi He.
    destruct (decide (i = a)) as [->|]; [destruct (Hno ci He)|].
    apply (Hacc i ci); [lia | exact He].
Qed.

Lemma visit_step (a : nat) (acc : option Redis * Z) :
  chosen_after a acc -> chosen_after (S a) (visit acc a).
Proof.
  intros Hacc. unfold Shard.GetInstance_visit. fold (round a).
  destruct (instances !! Z.to_nat (round a)) as [c|] eqn:Ec.
  2:{ apply chosen_skip; [exact Hacc|]. intros ci [Hl _]. congruence. }
  destruct ((round a =? skip_idx)
            || (negb ro && Shard.read_only (Shard.info c))
            || (negb fallback && negb (Shard.available avail (round a))))
    eqn:Efilter.
  { apply chosen_skip; [exact Hacc|].
    intros ci [Hl He]. rewrite Ec in Hl. injection Hl as <-.
    apply eligible_usable in He as (_ & _ & He). congruence. }
  destruct (usable (Shard.instance c)) eqn:Eu; cbn [andb].
  2:{ apply chosen_skip; [exact Hacc|].
      intros ci [Hl He]. rewrite Ec in Hl. injection Hl as <-.
      apply eligible_usable in He as (He & _). congruence. }
  assert (Hela : eligible_in a c).
  { split; [exact Ec|]. unfold eligible. rewrite Efilter, Eu. reflexivity. }
  assert (Honly : forall ci, eligible_in a ci -> ci = c).
  { intros ci [Hl _]. rewrite Ec in Hl. congruence. }
  destruct acc as [[r|] pidx]; cbn [fst better_than].
  - unfold chosen_after in Hacc. cbn [fst snd] in Hacc.
    destruct Hacc as (k & ck & Hk & Hidx & Hel & Hr & Hle & Hlt).
    assert (Hnd : IsDestroying r = false).
    { destruct Hel as [_ Hel]. apply eligible_usable in Hel as (_ & Hd & _).
      rewrite <- Hr. exact Hd. }
    rewrite Hnd. cbn [orb].
    destruct (Z.ltb_spec (GetRunningCommands (Shard.instance c))
                         (GetRunningCommands r)) as [Hless|Hge].
    + unfold chosen_after. cbn [fst snd]. exists a, c.
      split; [lia|]. split; [reflexivity|]. split; [exact Hela|].
      split; [reflexivity|]. split.
      * intros i ci Hi He.
        destruct (decide (i = a)) as [->|];
          [rewrite (Honly ci He); lia|].
        specialize (Hle i ci ltac:(lia) He). lia.
      * intros i ci Hi He. specialize (Hle i ci ltac:(lia) He). lia.
    + unfold chosen_after. cbn [fst snd]. exists k, ck.
      split; [lia|]. split; [exact Hidx|]. split; [exact Hel|].
      split; [exact Hr|]. split; [|exact Hlt].
      intros i ci Hi He.
      destruct (decide (i = a)) as [->|];
        [rewrite (Honly ci He); lia|].
      apply (Hle i ci); [lia | exact He].
  - unfold chosen_after in *. cbn [fst snd] in *. exists a, c.
    split; [lia|]. split; [reflexivity|]. split; [exact Hela|].
    split; [reflexivity|]. split.
    + intros i ci Hi He.
      destruct (decide (i = a)) as [->|];
        [rewrite (Honly ci He); lia|].
      destruct (Hacc i ci ltac:(lia) He).
    + intros i ci Hi He. destruct (Hacc i ci ltac:(lia) He).
Qed.

Lemma visit_fold (m a : nat) (acc : option Redis * Z) :
  chosen_after a acc ->
  chosen_after (a + m) (fold_left visit (seq a m) acc).
Proof.
  revert a acc. induction m as [|m IH]; intros a acc Hacc.
  - rewrite Nat.add_0_r. exact Hacc.
  - cbn [seq fold_left]. replace (a + S m)%nat with (S a + m)%nat by lia.
    apply IH. apply visit_step. exact Hacc.
Qed.

End LeastLoaded.

Lemma GetInstance_chosen (instances : list Shard.ConnectionStatus)
    (current : Z) (avail : list bool) (fallback : bool) (skip_idx : Z)
    (ro : bool) (pidx : Z) :
  let n := length instances in
  let passes := eligible_round instances current avail fallback skip_idx ro in
  let '(found, idx, cur) :=
    Shard.GetInstance instances current avail fallback skip_idx ro pidx in
  match found with
  | None => idx = pidx /\ forall i c, (i < n)%nat -> ~ passes i c
  | Some r =>
      exists k c,
        (k < n)%nat
        /\ idx = rotation current n k
        /\ passes k c
        /\ Shard.instance c = r
        /\ (forall i ci, (i < n)%nat -> passes i ci ->
              GetRunningCommands r <= GetRunningCommands (Shard.instance ci))
        /\ (forall i ci, (i < k)%nat -> passes i ci ->
              GetRunningCommands r < GetRunningCommands (Shard.instance ci))
  end.
Proof.
  cbv zeta.
  pose proof (GetInstance_found instances current avail fallback skip_idx ro
                pidx) as Hf.
  unfold Shard.GetInstance in *.
  pose proof (visit_fold instances current avail fallback skip_idx ro
                (length instances) 0 (None, pidx)) as H.
  cbn [Nat.add] in H.
  destruct (fold_left _ _ _) as [found idx].
  unfold chosen_in in H. cbn [fst snd] in H.
  destruct found as [r|].
  - apply H. intros i c Hi. lia.
  - split; [apply Hf|]. apply H. intros i c Hi. lia.
Qed.

(** X10.  Least loaded.  [GetInstance] returns the entry it met in some round
    [k] of its rotation: an entry that passes every test of the loop, runs no
    more commands than any entry that passes them in any round, and fewer than
    those that pass them in an earlier round (of equally loaded entries the
    first in rotation order wins).  It returns none, and leaves the index
    alone, exactly when no round meets an entry that passes the tests. *)
Theorem GetInstance_least_loaded (instances : list Shard.ConnectionStatus)
    (current : Z) (avail : list bool) (fallback : bool) (skip_idx : Z)
    (ro : bool) (pidx : Z) :
  let n := length instances in
  let passes := eligible_round instances current avail fallback skip_idx ro in
  let '(found, idx, cur) :=
    Shard.GetInstance instances current avail fallback skip_idx ro pidx in
  match found with
  | None => idx = pidx /\ forall i c, (i < n)%nat -> ~ passes i c
  | Some r =>
      exists k c,
        (k < n)%nat
        /\ idx = rotation current n k
        /\ passes k c
        /\ Shard.instance c = r
        /\ (forall i ci, (i < n)%nat -> passes i ci ->
              GetRunningCommands r <= GetRunningCommands (Shard.instance ci))
        /\ (forall i ci, (i < k)%nat -> passes i ci ->
              GetRunningCommands r < GetRunningCommands (Shard.instance ci))
  end.
Proof.
  exact (GetInstance_chosen instances current avail fallback skip_idx ro
           pidx).
Qed.

Lemma rotation_covers (current : Z) (n j : nat) :
  0 <= current -> current + 1 + Z.of_nat n < size_t_modulus ->
  (j < n)%nat ->
  exists i, (i < n)%nat /\ rotation current n i = Z.of_nat j.
Proof.
  intros H0 Hw Hj.
  set (m := Z.of_nat n).
  exists (Z.to_nat ((Z.of_nat j - (current + 1)) mod m)).
  assert (Hm : 0 < m) by (subst m; lia).
  pose proof (Z.mod_pos_bound (Z.of_nat j - (current + 1)) m Hm) as Hb.
  split; [subst m; lia|].
  unfold rotation. fold m. rewrite Z2Nat.id by lia.
  rewrite (wrap_small (current + 1)) by (unfold in_size_t; lia).
  rewrite wrap_small by (unfold in_size_t; subst m; lia).
  rewrite Zplus_mod_idemp_r.
  replace (current + 1 + (Z.of_nat j - (current + 1))) with (Z.of_nat j)
    by lia.
  apply Z.mod_small. subst m. lia.
Qed.

(** X11.  Completeness.  As long as the counter does not wrap around during
    the loop, the rotation meets every instance: if some entry passes the
    tests, [GetInstance] returns one, and none that passes them runs fewer
    commands. *)
Theorem GetInstance_complete (instances : list Shard.ConnectionStatus)
    (current : Z) (avail : list bool) (fallback : bool) (skip_idx : Z)
    (ro : bool) (pidx : Z) (j : nat) (c : Shard.ConnectionStatus) :
  0 <= current ->
  current + 1 + Z.of_nat (length instances) < size_t_modulus ->
  instances !! j = Some c ->
  eligible avail fallback skip_idx ro (Z.of_nat j) c = true ->
  exists r idx,
    Shard.GetInstance instances current avail fallback skip_idx ro pidx
    = (Some r, idx, current + 1)
    /\ forall j' c', instances !! j' = Some c' ->
         eligible avail fallback skip_idx ro (Z.of_nat j') c' = true ->
         GetRunningCommands r <= GetRunningCommands (Shard.instance c').
Proof.
  intros H0 Hw Hj He.
  assert (Hround : forall j' c', instances !! j' = Some c' ->
             eligible avail fallback skip_idx ro (Z.of_nat j') c' = true ->
             exists i, (i < length instances)%nat
                       /\ eligible_round instances current avail fallback
                            skip_idx ro i c').
  { intros j' c' Hj' He'.
    destruct (rotation_covers current (length instances) j' H0 Hw
                (lookup_lt_Some _ _ _ Hj')) as (i & Hi & Hr).
    exists i. split; [exact Hi|]. unfold eligible_round.
    rewrite Hr, Nat2Z.id. auto. }
  pose proof (GetInstance_chosen instances current avail fallback
                skip_idx ro pidx) as H.
  pose proof (GetInstance_found instances current avail fallback skip_idx ro
                pidx) as Hf.
  cbv zeta in H.
  destruct (Shard.GetInstance _ _ _ _ _ _ _) as [[found idx] cur].
  destruct Hf as [-> _].
  rewrite wrap_small by (unfold in_size_t; lia).
  destruct found as [r|].
  - destruct H as (k & ck & _ & _ & _ & _ & Hle & _).
    exists r, idx. split; [reflexivity|].
    intros j' c' Hj' He'.
    destruct (Hround j' c' Hj' He') as (i & Hi & Hel).
    exact (Hle i c' Hi Hel).
  - destruct H as [_ Hnone].
    destruct (Hround j c Hj He) as (i & Hi & Hel).
    destruct (Hnone i c Hi Hel).
Qed.

Lemma GetInstance_complete_witness :
  exists r idx,
    Shard.GetInstance (Shard.instances_ Sample.three_connected) 0
      [true; true; true] false size_t_max true 0
    = (Some r, idx, 0 + 1).
Proof.
  destruct (GetInstance_complete (Shard.instances_ Sample.three_connected) 0
              [true; true; true] false size_t_max true 0 0%nat
              (Shard.mkStatus Sample.info_m
                 (Sample.handle kConnected 1 0 false)))
    as (r & idx & H & _);
    try reflexivity; try lia; try (vm_compute; reflexivity).
  exists r, idx. exact H.
Defined.

(** Where the counter wraps around, the rotation over three instances
    looks at index 0 twice and never at index 2. *)
Lemma rotation_at_wrap_around :
  map (rotation (size_t_max - 1) 3) [0; 1; 2]%nat = [0; 0; 1].
Proof. reflexivity. Qed.

(** ** The submit as a whole *)

Section SubmitMore.

Variable Redis_AsyncCommand : Redis -> Command -> bool * Redis.

Abbreviation submit := (Shard.AsyncCommand Redis_AsyncCommand).

Lemma dispatch_count_app (l k : list Shard.Event) :
  dispatch_count (l ++ k) = (dispatch_count l + dispatch_count k)%nat.
Proof.
  unfold dispatch_count. rewrite List.filter_app, length_app. reflexivity.
Qed.

Lemma fallback_warning_count (avail : list bool) (idx : Z) :
  dispatch_count (Shard.fallback_warning avail idx) = 0%nat.
Proof. unfold Shard.fallback_warning. destruct (_ || _); reflexivity. Qed.

Lemma log_count (log : list Shard.Event) (id : ServerId) :
  log = [] \/ log = [Shard.EvLimitedWarning (ServerIdNotFound id)] ->
  dispatch_count log = 0%nat.
Proof. intros [->| ->]; reflexivity. Qed.

Lemma iter_advance (k : nat) (current : Z) :
  Nat.iter (S k) (fun c => wrap (c + 1)) current = advance current (S k).
Proof.
  unfold advance. induction k as [|k IH].
  - cbn. f_equal.
  - change (Nat.iter (S (S k)) (fun c => wrap (c + 1)) current)
      with (wrap (Nat.iter (S k) (fun c => wrap (c + 1)) current + 1)).
    rewrite IH, wrap_add_l. f_equal. lia.
Qed.

Lemma iter_shift_any {A : Type} (f : A -> A) (k : nat) (x : A) :
  Nat.iter k f (f x) = Nat.iter (S k) f x.
Proof.
  induction k as [|k IH]; [reflexivity|].
  change (f (Nat.iter k f (f x)) = f (Nat.iter (S k) f x)).
  f_equal. exact IH.
Qed.

Lemma iter_shift (k : nat) (current : Z) :
  Nat.iter k (fun c => wrap (c + 1)) (wrap (current + 1))
  = Nat.iter (S k) (fun c => wrap (c + 1)) current.
Proof. exact (iter_shift_any (fun c => wrap (c + 1)) k current). Qed.

(** The loop makes at most [fuel] attempts, each advancing the counter by
    one and making at most one dispatch; it uses them all when it fails. *)
Lemma attempts_bounded (fuel : nat) :
  forall attempt avail instances current cmd idx b instances' cur' cmd' evs,
    Shard.attempts Redis_AsyncCommand fuel attempt avail instances current
      cmd idx = (b, instances', cur', cmd', evs) ->
    exists k,
      (k <= fuel)%nat
      /\ cur' = Nat.iter k (fun c => wrap (c + 1)) current
      /\ (dispatch_count evs <= k)%nat
      /\ (b = false -> k = fuel)
      /\ (b = true -> (1 <= k)%nat)
      /\ length instances' = length instances.
Proof.
  induction fuel as [|fuel IH];
    intros attempt avail instances current cmd idx b instances' cur' cmd'
           evs Hrun.
  - cbn in Hrun. injection Hrun as <- <- <- <- <-.
    exists 0%nat. repeat split; auto; discriminate.
  - cbn [Shard.attempts] in Hrun.
    pose proof (GetInstance_found instances current avail
                  (negb (attempt =? 0)
                   && IsAny (force_server_id (control cmd)))
                  (if attempt =? 0 then instance_idx cmd else size_t_max)
                  (cmd_read_only cmd) idx) as Hf.
    destruct (Shard.GetInstance _ _ _ _ _ _ _) as [[found idx1] cur1].
    destruct Hf as [-> _].
    destruct found as [r|].
    + destruct (Redis_AsyncCommand r (set_instance_idx cmd idx1))
        as [accepted r'].
      destruct accepted.
      * injection Hrun as <- <- <- <- <-. exists 1%nat.
        rewrite dispatch_count_app, fallback_warning_count, length_alter.
        repeat split; auto; try lia; try discriminate; cbn; lia.
      * destruct (Shard.attempts Redis_AsyncCommand fuel _ _ _ _ _ _)
          as [[[[b2 i2] c2] cm2] e2] eqn:Er.
        injection Hrun as <- <- <- <- <-.
        destruct (IH _ _ _ _ _ _ _ _ _ _ _ Er)
          as (k & Hk & Hc & Hd & Hf & Ht & Hlen).
        exists (S k). rewrite dispatch_count_app, fallback_warning_count.
        rewrite length_alter in Hlen.
        repeat split; auto; try lia;
          try (rewrite Hc; apply iter_shift);
          try (intros Hb; rewrite (Hf Hb); reflexivity).
        cbn. unfold dispatch_count in *. cbn. lia.
    + destruct (IH _ _ _ _ _ _ _ _ _ _ _ Hrun)
        as (k & Hk & Hc & Hd & Hf & Ht & Hlen).
      exists (S k).
      repeat split; auto; try lia;
        try (rewrite Hc; apply iter_shift);
        try (intros Hb; rewrite (Hf Hb); reflexivity).
Qed.

(** X12.  A submit on a shard that is not destroying makes between one and
    [|instances| + 1] attempts, all of them when it returns false; it advances
    the round-robin counter by the number of attempts it makes (modulo
    [2^64]), hands the command to an instance at most once per attempt, and
    keeps the number of instances.  On a destroying shard it makes none and
    leaves the counter alone. *)
Theorem submit_attempts_bounded (s : Shard.Shard) (cmd : Command) :
  let out := submit s cmd in
  let n := length (Shard.instances_ s) in
  (Shard.destroying_ s = false ->
   exists k,
     (1 <= k <= n + 1)%nat
     /\ Shard.current_ (Shard.out_shard out) = advance (Shard.current_ s) k
     /\ (dispatch_count (Shard.trace out) <= k)%nat
     /\ (Shard.ret out = false -> k = (n + 1)%nat)
     /\ length (Shard.instances_ (Shard.out_shard out)) = n)
  /\ (Shard.destroying_ s = true ->
      Shard.out_shard out = s /\ dispatch_count (Shard.trace out) = 0%nat).
Proof.
  cbv zeta. split; intros Hd.
  2:{ rewrite (AsyncCommand_destroying Redis_AsyncCommand s cmd Hd).
      split; reflexivity. }
  destruct (Shard.GetAvailableServers (Shard.instances_ s) (control cmd)
              (negb (cmd_read_only cmd)
               || allow_reads_from_master (control cmd))
              (cmd_read_only cmd)) as [avail log] eqn:Ha.
  assert (Hlog : dispatch_count log = 0%nat).
  { apply (log_count log (force_server_id (control cmd))).
    pose proof (GetAvailableServers_log (Shard.instances_ s) (control cmd)
                  (negb (cmd_read_only cmd)
                   || allow_reads_from_master (control cmd))
                  (cmd_read_only cmd)) as H.
    cbv zeta in H. rewrite Ha in H. exact H. }
  destruct (Shard.attempts Redis_AsyncCommand
              (S (length (Shard.instances_ s))) 0 avail (Shard.instances_ s)
              (Shard.current_ s) cmd 0)
    as [[[[b instances] cur] cmd'] evs] eqn:Hl.
  rewrite (AsyncCommand_running Redis_AsyncCommand s cmd Hd _ _ _ _ _ _ _
             Ha Hl).
  cbn [Shard.ret Shard.trace Shard.out_shard Shard.with_routing
       Shard.current_ Shard.instances_].
  destruct (attempts_bounded _ _ _ _ _ _ _ _ _ _ _ _ Hl)
    as (k & Hk & Hc & Hdc & Hf & Ht & Hlen).
  assert (Hk1 : (1 <= k)%nat).
  { destruct b; [apply Ht; reflexivity | rewrite Hf by reflexivity; lia]. }
  exists k. split; [lia|]. split.
  - rewrite Hc. destruct k as [|k]; [lia|]. apply iter_advance.
  - split; [|split; [intros Hb; rewrite (Hf Hb); lia | exact Hlen]].
    change (Shard.EvLockShared :: log ++ evs ++ [Shard.EvUnlock])
      with ([Shard.EvLockShared] ++ log ++ evs ++ [Shard.EvUnlock]).
    rewrite !dispatch_count_app, Hlog. cbn. lia.
Qed.

Lemma accepted_trace (warn : list Shard.Event) (idx : Z) (r : Redis)
    (c : Command) :
  dispatch_count warn = 0%nat ->
  (forall i r0 c0 a, ~ In (Shard.EvRedisAsyncCommand i r0 c0 a) warn) ->
  dispatch_count (warn ++ [Shard.EvRedisAsyncCommand idx r c true]) = 1%nat
  /\ accepted_once (warn ++ [Shard.EvRedisAsyncCommand idx r c true]) idx.
Proof.
  intros Hw Hno. split.
  - rewrite dispatch_count_app, Hw. reflexivity.
  - exists warn, [], r, c. split; [reflexivity|]. split; [|reflexivity].
    intros i r0 c0 a Hin. destruct (Hno _ _ _ _ Hin).
Qed.

(** X13.  Progress.  On a shard that is not destroying, for a command that is
    not pinned, when instances take the commands they are handed and some
    instance is connected, not destroying and of a role the command may use
    (any instance for a read, a master for a write), submit returns true with
    exactly one dispatch: if the first attempt finds no instance the mask
    allows, the second may fall back to any.  The round-robin counter must not
    wrap around during the two attempts. *)
Theorem submit_succeeds_when_accepted (s : Shard.Shard) (cmd : Command)
    (j : nat) (c : Shard.ConnectionStatus) :
  Shard.destroying_ s = false ->
  IsAny (force_server_id (control cmd)) = true ->
  (forall r cm, fst (Redis_AsyncCommand r cm) = true) ->
  Shard.instances_ s !! j = Some c ->
  usable (Shard.instance c) = true ->
  (cmd_read_only cmd = false -> Shard.read_only (Shard.info c) = false) ->
  0 <= Shard.current_ s ->
  Shard.current_ s + 2 + Z.of_nat (length (Shard.instances_ s))
    < size_t_modulus ->
  let out := submit s cmd in
  Shard.ret out = true
  /\ dispatch_count (Shard.trace out) = 1%nat
  /\ accepted_once (Shard.trace out) (instance_idx (Shard.out_command out)).
Proof.
  intros Hd Hany Hacc Hj Hu Hrole H0 Hw out. subst out.
  destruct (Shard.GetAvailableServers (Shard.instances_ s) (control cmd)
              (negb (cmd_read_only cmd)
               || allow_reads_from_master (control cmd))
              (cmd_read_only cmd)) as [avail log] eqn:Ha.
  pose proof (GetAvailableServers_log (Shard.instances_ s) (control cmd)
                (negb (cmd_read_only cmd)
                 || allow_reads_from_master (control cmd))
                (cmd_read_only cmd)) as Hlog.
  cbv zeta in Hlog. rewrite Ha in Hlog. cbn [snd] in Hlog.
  pose proof (log_no_dispatch log _ Hlog) as Hlogno.
  pose proof (log_count log _ Hlog) as Hlogc.
  assert (Hmain :
    exists instances cur cmd' warn idx r,
      Shard.attempts Redis_AsyncCommand (S (length (Shard.instances_ s))) 0
        avail (Shard.instances_ s) (Shard.current_ s) cmd 0
      = (true, instances, cur, cmd',
         warn ++ [Shard.EvRedisAsyncCommand idx r cmd' true])
      /\ instance_idx cmd' = idx
      /\ dispatch_count warn = 0%nat
      /\ forall i r0 c0 a, ~ In (Shard.EvRedisAsyncCommand i r0 c0 a) warn).
  { cbn [Shard.attempts]. change (0 =? 0) with true. cbn [negb andb].
    pose proof (GetInstance_found (Shard.instances_ s) (Shard.current_ s)
                  avail false (instance_idx cmd) (cmd_read_only cmd) 0)
      as Hf.
    destruct (Shard.GetInstance (Shard.instances_ s) (Shard.current_ s)
                avail false (instance_idx cmd) (cmd_read_only cmd) 0)
      as [[found idx1] cur1].
    destruct Hf as [-> _].
    destruct found as [r|].
    - pose proof (Hacc r (set_instance_idx cmd idx1)) as Ht.
      destruct (Redis_AsyncCommand r (set_instance_idx cmd idx1))
        as [accepted r'].
      cbn in Ht. subst accepted.
      eexists _, _, _, _, _, _. split; [reflexivity|].
      split; [reflexivity|]. split; [apply fallback_warning_count|].
      intros i r0 c0 a.
      apply (fallback_warning_no_dispatch Redis_AsyncCommand).
    - pose proof (lookup_lt_Some _ _ _ Hj) as Hlen.
      destruct (length (Shard.instances_ s)) as [|n] eqn:En; [lia|].
      cbn [Shard.attempts].
      replace (wrap (0 + 1)) with 1 by reflexivity.
      change (1 =? 0) with false.
      change (control (set_instance_idx cmd idx1)) with (control cmd).
      change (cmd_read_only (set_instance_idx cmd idx1))
        with (cmd_read_only cmd).
      rewrite Hany. cbn [negb andb].
      rewrite (wrap_small (Shard.current_ s + 1))
        by (unfold in_size_t; lia).
      destruct (GetInstance_complete (Shard.instances_ s)
                  (Shard.current_ s + 1) avail true size_t_max
                  (cmd_read_only cmd) idx1 j c)
        as (r & idx2 & Hg & _); try lia; try exact Hj.
      { unfold eligible. rewrite Hu. cbn [negb andb orb].
        rewrite orb_false_r, andb_true_r.
        apply negb_true_iff, orb_false_iff. split.
        - apply Z.eqb_neq. unfold size_t_max. lia.
        - destruct (cmd_read_only cmd); [reflexivity|].
          rewrite Hrole; reflexivity. }
      rewrite Hg.
      match goal with
      | |- context [Redis_AsyncCommand ?a ?b] =>
          pose proof (Hacc a b) as Ht;
          destruct (Redis_AsyncCommand a b) as [accepted r']
      end.
      cbn in Ht. subst accepted.
      eexists _, _, _, _, _, _. split; [reflexivity|].
      split; [reflexivity|]. split; [apply fallback_warning_count|].
      intros i r0 c0 a.
      apply (fallback_warning_no_dispatch Redis_AsyncCommand). }
  destruct Hmain as (instances & cur & cmd' & warn & idx & r & Hl & Hidx
                     & Hwc & Hwno).
  rewrite (AsyncCommand_running Redis_AsyncCommand s cmd Hd _ _ _ _ _ _ _
             Ha Hl).
  cbn [Shard.ret Shard.trace Shard.out_command].
  destruct (accepted_trace warn idx r cmd' Hwc Hwno) as [Hc1 Hacc1].
  split; [reflexivity|]. split.
  - change (Shard.EvLockShared :: log ++ (warn ++ _) ++ [Shard.EvUnlock])
      with ([Shard.EvLockShared] ++ log
            ++ (warn ++ [Shard.EvRedisAsyncCommand idx r cmd' true])
            ++ [Shard.EvUnlock]).
    rewrite !dispatch_count_app, Hlogc.
    rewrite dispatch_count_app in Hc1. cbn in *. lia.
  - rewrite Hidx. apply submit_trace_accepted; assumption.
Qed.

(** X14.  The ids [GetAllInstancesServerId] lists are the only ones worth
    pinning: a command pinned to an id it does not list is handed to no
    instance, and the submit returns false and leaves the handles alone. *)
Theorem pin_to_unlisted_id_fails (s : Shard.Shard) (cmd : Command) :
  IsAny (force_server_id (control cmd)) = false ->
  ~ In (force_server_id (control cmd)) (Shard.GetAllInstancesServerId s) ->
  let out := submit s cmd in
  Shard.ret out = false
  /\ dispatch_count (Shard.trace out) = 0%nat
  /\ Shard.instances_ (Shard.out_shard out) = Shard.instances_ s.
Proof.
  intros Hpin Hun out. subst out.
  destruct (Shard.destroying_ s) eqn:Hd.
  { rewrite (AsyncCommand_destroying Redis_AsyncCommand s cmd Hd).
    repeat split. }
  destruct (Shard.GetAvailableServers (Shard.instances_ s) (control cmd)
              (negb (cmd_read_only cmd)
               || allow_reads_from_master (control cmd))
              (cmd_read_only cmd)) as [avail log] eqn:Ha.
  pose proof (GetAvailableServers_log (Shard.instances_ s) (control cmd)
                (negb (cmd_read_only cmd)
                 || allow_reads_from_master (control cmd))
                (cmd_read_only cmd)) as Hlog.
  cbv zeta in Hlog. rewrite Ha in Hlog. cbn [snd] in Hlog.
  pose proof (log_count log _ Hlog) as Hlogc.
  destruct (attempts_no_candidate Redis_AsyncCommand avail
              (Shard.instances_ s) (control cmd) (cmd_read_only cmd))
    with (fuel := S (length (Shard.instances_ s))) (attempt := 0)
         (current := Shard.current_ s) (cmd := cmd) (idx := 0)
    as [cur' Hl]; try reflexivity.
  { intros fallback skip_idx j c Hfb Hj. unfold eligible.
    destruct fallback; [rewrite Hfb in Hpin by reflexivity; discriminate|].
    cbn [negb andb].
    destruct (Shard.available avail j) eqn:Hav;
      [|cbn; rewrite orb_true_r; reflexivity].
    destruct (usable (Shard.instance c)) eqn:Hu; [|apply andb_false_r].
    exfalso. apply Hun.
    unfold Shard.GetAvailableServers in Ha. rewrite Hpin in Ha. cbn in Ha.
    destruct (list_find _ (Shard.instances_ s)) as [[k c0]|] eqn:Hfind.
    - injection Ha as <- <-.
      apply available_pinned in Hav. rewrite Hav in Hj.
      apply list_find_Some in Hfind as (Hk & Hid & _).
      rewrite Hk in Hj. injection Hj as ->.
      unfold Shard.GetAllInstancesServerId. apply in_map_iff.
      exists c. split; [exact Hid|]. apply List.filter_In.
      split; [apply list_elem_of_In, (list_elem_of_lookup_2 _ _ _ Hk)|].
      unfold usable in Hu. unfold Shard.connected_alive.
      rewrite andb_comm. exact Hu.
    - injection Ha as <- <-. rewrite available_replicate in Hav.
      discriminate. }
  rewrite (AsyncCommand_running Redis_AsyncCommand s cmd Hd _ _ _ _ _ _ _
             Ha Hl).
  cbn [Shard.ret Shard.trace Shard.out_shard Shard.with_routing
       Shard.instances_].
  split; [reflexivity|]. split; [|reflexivity].
  change (Shard.EvLockShared :: log ++ ?x ++ [Shard.EvUnlock])
    with ([Shard.EvLockShared] ++ log ++ x ++ [Shard.EvUnlock]).
  rewrite !dispatch_count_app, Hlogc. reflexivity.
Qed.

End SubmitMore.

Lemma submit_attempts_bounded_witness :
  exists k,
    (1 <= k <= 3 + 1)%nat
    /\ Shard.current_
         (Shard.out_shard
            (Shard.AsyncCommand Sample.refuse_all Sample.three_connected
               (Sample.read_command (-1))))
       = advance 0 k.
Proof.
  destruct (proj1 (submit_attempts_bounded Sample.refuse_all
                     Sample.three_connected (Sample.read_command (-1)))
              eq_refl)
    as (k & Hk & Hc & _).
  exists k. split; [exact Hk | exact Hc].
Defined.

Lemma submit_succeeds_when_accepted_witness :
  Shard.ret (Shard.AsyncCommand Sample.accept_all Sample.three_connected
               (Sample.write_command (-1))) = true.
Proof.
  apply (submit_succeeds_when_accepted Sample.accept_all
           Sample.three_connected (Sample.write_command (-1)) 0%nat
           (Shard.mkStatus Sample.info_m
              (Sample.handle kConnected 1 0 false)));
    try reflexivity; try (intros; reflexivity); try lia;
    try (vm_compute; reflexivity).
Defined.

Lemma pin_to_unlisted_id_fails_witness :
  Shard.ret (Shard.AsyncCommand Sample.accept_all Sample.master_destroying
               (Sample.read_command 1)) = false.
Proof.
  apply (pin_to_unlisted_id_fails Sample.accept_all Sample.master_destroying
           (Sample.read_command 1) eq_refl).
  cbn. intros [H|[H|[]]]; discriminate H.
Defined.

(** ** The availability mask, continued *)

Lemma pair_le_spec (a b : Z * Z) :
  pair_le a b <-> fst a < fst b \/ (fst a = fst b /\ snd a <= snd b).
Proof.
  unfold pair_le, Shard.pair_less.
  destruct (Z.ltb_spec (fst b) (fst a)), (Z.eqb_spec (fst b) (fst a)),
           (Z.ltb_spec (snd b) (snd a)); cbn; split; intros Hx;
    try discriminate; try reflexivity; lia.
Qed.

Lemma insert_sorted_perm (x : Z * Z) (l : list (Z * Z)) :
  Permutation (Shard.insert_sorted x l) (x :: l).
Proof.
  induction l as [|y l IH]; [reflexivity|].
  cbn. destruct (Shard.pair_less y x); [|reflexivity].
  rewrite IH. apply perm_swap.
Qed.

Lemma sort_pairs_perm (l : list (Z * Z)) :
  Permutation (Shard.sort_pairs l) l.
Proof.
  induction l as [|x l IH]; [reflexivity|].
  cbn. rewrite insert_sorted_perm. constructor. exact IH.
Qed.

Lemma insert_sorted_sorted (x : Z * Z) (l : list (Z * Z)) :
  StronglySorted pair_le l -> StronglySorted pair_le (Shard.insert_sorted x l).
Proof.
  induction 1 as [|y l Hs IH Hy]; cbn.
  - repeat constructor.
  - destruct (Shard.pair_less y x) eqn:E.
    + constructor; [exact IH|].
      rewrite List.Forall_forall in Hy |- *. intros z Hz.
      apply (Permutation_in _ (insert_sorted_perm x l)) in Hz.
      destruct Hz as [<-|Hz]; [|exact (Hy z Hz)].
      apply pair_le_spec. unfold Shard.pair_less in E.
      destruct (Z.ltb_spec (fst y) (fst x)), (Z.eqb_spec (fst y) (fst x)),
               (Z.ltb_spec (snd y) (snd x)); cbn in E;
        try discriminate; lia.
    + constructor; [constructor; assumption|].
      constructor; [exact E|].
      rewrite List.Forall_forall in Hy |- *. intros z Hz.
      specialize (Hy z Hz). apply pair_le_spec in Hy.
      apply pair_le_spec. fold (pair_le x y) in E.
      apply pair_le_spec in E. lia.
Qed.

Lemma sort_pairs_sorted (l : list (Z * Z)) :
  StronglySorted pair_le (Shard.sort_pairs l).
Proof.
  induction l as [|x l IH]; [constructor|].
  cbn. apply insert_sorted_sorted. exact IH.
Qed.

Lemma sorted_filter {A : Type} (R : A -> A -> Prop) (f : A -> bool)
    (l : list A) :
  StronglySorted R l -> StronglySorted R (List.filter f l).
Proof.
  induction 1 as [|x l Hs IH Hx]; cbn; [constructor|].
  destruct (f x); [|exact IH].
  constructor; [exact IH|].
  rewrite List.Forall_forall in Hx |- *. intros z Hz.
  apply List.filter_In in Hz as [Hz _]. exact (Hx z Hz).
Qed.

Lemma sorted_split {A : Type} (R : A -> A -> Prop) (l1 l2 : list A) :
  StronglySorted R (l1 ++ l2) ->
  forall a b, In a l1 -> In b l2 -> R a b.
Proof.
  induction l1 as [|x l1 IH]; intros Hs a b Ha Hb; [destruct Ha|].
  cbn in Hs. apply StronglySorted_inv in Hs as [Hs Hx].
  destruct Ha as [<-|Ha]; [|exact (IH Hs a b Ha Hb)].
  rewrite List.Forall_forall in Hx. apply Hx. apply in_or_app. auto.
Qed.

Lemma ping_pairs_In (instances : list Shard.ConnectionStatus) (pn : Z * Z) :
  In pn (ping_pairs instances)
  <-> exists i c, instances !! i = Some c
                  /\ pn = (entry_ping c, Z.of_nat i).
Proof.
  unfold ping_pairs. rewrite <- list_elem_of_In, list_elem_of_lookup.
  split.
  - intros [k Hk]. apply list_lookup_imap_Some in Hk as (c & Hc & ->).
    exists k, c. auto.
  - intros (i & c & Hc & ->). exists i.
    apply list_lookup_imap_Some. exists c. auto.
Qed.

Lemma role_test (with_masters with_slaves : bool)
    (c : Shard.ConnectionStatus) :
  (with_slaves && Shard.read_only (Shard.info c))
  || (with_masters && negb (Shard.read_only (Shard.info c)))
  = role_matches with_masters with_slaves c.
Proof.
  unfold role_matches.
  destruct with_masters, with_slaves, (Shard.read_only (Shard.info c));
    reflexivity.
Qed.

(** The second loop of [GetNearestServersPing] marks the first [count]
    pairs, in the order given, whose instance has the role asked for. *)
Lemma mark_nearest_eq (instances : list Shard.ConnectionStatus)
    (wm ws : bool) (pairs : list (Z * Z)) :
  (forall pn, In pn pairs -> is_Some (instances !! Z.to_nat (snd pn))) ->
  forall count mask,
    Shard.mark_nearest instances wm ws pairs count mask
    = mark_all
        (map (fun pn => Z.to_nat (snd pn))
             (take (Z.to_nat count)
                   (List.filter (pair_role instances wm ws) pairs)))
        mask.
Proof.
  induction pairs as [|[p num] pairs IH]; intros Hvalid count mask.
  - cbn. rewrite take_nil. reflexivity.
  - cbn [Shard.mark_nearest List.filter].
    destruct (Z.ltb_spec 0 count) as [Hpos|Hnon].
    2:{ replace (Z.to_nat count) with 0%nat by lia. reflexivity. }
    destruct (Hvalid (p, num) ltac:(left; reflexivity)) as [c Hc].
    cbn [snd] in Hc. unfold pair_role at 1. cbn [snd]. rewrite Hc.
    rewrite role_test.
    destruct (role_matches wm ws c).
    + rewrite IH by (intros pn Hpn; apply Hvalid; right; exact Hpn).
      replace (Z.to_nat count) with (S (Z.to_nat (count - 1))) by lia.
      reflexivity.
    + apply IH. intros pn Hpn. apply Hvalid. right. exact Hpn.
Qed.

Lemma mark_all_length (ks : list nat) (mask : list bool) :
  length (mark_all ks mask) = length mask.
Proof.
  revert mask. induction ks as [|k ks IH]; intros mask; [reflexivity|].
  cbn. rewrite IH. apply length_insert.
Qed.

Lemma mark_all_snoc (ks : list nat) (k : nat) (mask : list bool) :
  mark_all (ks ++ [k]) mask = <[k := true]> (mark_all ks mask).
Proof. unfold mark_all. rewrite fold_left_app. reflexivity. Qed.

Lemma mark_all_lookup (ks : list nat) (mask : list bool) (i : nat) :
  (forall k, In k ks -> (k < length mask)%nat) ->
  mark_all ks mask !! i = if decide (i ∈ ks) then Some true else mask !! i.
Proof.
  induction ks as [|k ks IH] using rev_ind; intros Hv.
  - cbn. destruct (decide (i ∈ [])) as [H|H]; [inversion H | reflexivity].
  - rewrite mark_all_snoc.
    assert (Hv' : forall k', In k' ks -> (k' < length mask)%nat).
    { intros k' Hk'. apply Hv. apply in_or_app. left. exact Hk'. }
    assert (Hk : (k < length (mark_all ks mask))%nat).
    { rewrite mark_all_length. apply Hv. apply in_or_app. right. left.
      reflexivity. }
    destruct (decide (k = i)) as [->|Hne].
    + rewrite list_lookup_insert_eq by exact Hk.
      rewrite decide_True; [reflexivity|].
      apply list_elem_of_In, in_or_app. right. left. reflexivity.
    + rewrite list_lookup_insert_ne by exact Hne. rewrite IH by exact Hv'.
      destruct (decide (i ∈ ks)) as [Hin|Hnin].
      * rewrite decide_True; [reflexivity|].
        apply list_elem_of_In, in_or_app. left.
        apply list_elem_of_In. exact Hin.
      * rewrite decide_False; [reflexivity|].
        intros Hin. apply list_elem_of_In, in_app_or in Hin as [Hin|Hin].
        -- apply Hnin, list_elem_of_In. exact Hin.
        -- destruct Hin as [->|[]]. congruence.
Qed.

Lemma marked_insert (k : nat) (mask : list bool) :
  (marked (<[k := true]> mask) <= S (marked mask))%nat.
Proof.
  unfold marked. revert k. induction mask as [|b mask IH]; intros k.
  - destruct k; simpl; lia.
  - destruct k as [|k]; simpl.
    + destruct b; simpl; lia.
    + specialize (IH k). destruct b; simpl; lia.
Qed.

Lemma marked_mark_all (ks : list nat) (mask : list bool) :
  (marked (mark_all ks mask) <= length ks + marked mask)%nat.
Proof.
  induction ks as [|k ks IH] using rev_ind; [reflexivity|].
  rewrite mark_all_snoc, length_app. change (length [k]) with 1%nat.
  pose proof (marked_insert k (mark_all ks mask)). lia.
Qed.

Lemma marked_replicate (n : nat) : marked (replicate n false) = 0%nat.
Proof. unfold marked. induction n as [|n IH]; [reflexivity | exact IH]. Qed.

Section NearestMask.

Variable instances : list Shard.ConnectionStatus.
Variable cc : CommandControl.
Variable wm ws : bool.

(** The pairs in the order [std::sort] leaves them. *)
Abbreviation by_ping := (Shard.sort_pairs (ping_pairs instances)).
Abbreviation matching := (List.filter (pair_role instances wm ws) by_ping).

Lemma by_ping_In (pn : Z * Z) :
  In pn by_ping
  <-> exists i c, instances !! i = Some c
                  /\ pn = (entry_ping c, Z.of_nat i).
Proof.
  rewrite <- ping_pairs_In. split; apply Permutation_in.
  - apply sort_pairs_perm.
  - symmetry. apply sort_pairs_perm.
Qed.

Lemma matching_In (pn : Z * Z) :
  In pn matching
  <-> exists i c, instances !! i = Some c
                  /\ pn = (entry_ping c, Z.of_nat i)
                  /\ role_matches wm ws c = true.
Proof.
  rewrite List.filter_In, by_ping_In. split.
  - intros [(i & c & Hc & ->) Hr]. exists i, c.
    unfold pair_role in Hr. cbn [snd] in Hr.
    rewrite Nat2Z.id, Hc in Hr. auto.
  - intros (i & c & Hc & -> & Hr). split; [eauto|].
    unfold pair_role. cbn [snd]. rewrite Nat2Z.id, Hc. exact Hr.
Qed.

(** [GetNearestServersPing] in closed form. *)
Lemma nearest_mask_eq :
  let count :=
    if best_dc_count cc =? 0 then Z.of_nat (length instances)
    else best_dc_count cc in
  Shard.GetNearestServersPing instances cc wm ws
  = mark_all
      (map (fun pn => Z.to_nat (snd pn)) (take (Z.to_nat count) matching))
      (replicate (length instances) false).
Proof.
  cbv zeta. unfold Shard.GetNearestServersPing.
  apply (mark_nearest_eq instances wm ws by_ping).
  intros pn Hpn. apply by_ping_In in Hpn as (i & c & Hc & ->).
  cbn [snd]. rewrite Nat2Z.id, Hc. eauto.
Qed.

Lemma chosen_valid (m : nat) (k : nat) :
  In k (map (fun pn : Z * Z => Z.to_nat (snd pn)) (take m matching)) ->
  (k < length (replicate (length instances) false))%nat.
Proof.
  intros Hk. apply in_map_iff in Hk as (pn & <- & Hpn).
  apply list_elem_of_In, elem_of_take in Hpn as (j & Hj & _).
  apply list_elem_of_lookup_2, list_elem_of_In in Hj.
  apply matching_In in Hj as (i & c & Hc & -> & _).
  cbn [snd]. rewrite Nat2Z.id, length_replicate.
  exact (lookup_lt_Some _ _ _ Hc).
Qed.

Lemma take_In {A : Type} (m : nat) (l : list A) (x : A) :
  In x (take m l) -> In x l.
Proof.
  intros H. apply list_elem_of_In. apply list_elem_of_In in H.
  exact (subseteq_take m l x H).
Qed.

(** X15.  The nearest-ping mask has one place for each instance, marks only
    instances of the role asked for, and marks no more than [best_dc_count] of
    them when that is not zero. *)
Theorem nearest_mask_shape :
  let mask := Shard.GetNearestServersPing instances cc wm ws in
  length mask = length instances
  /\ (forall i, mask !! i = Some true ->
        exists c, instances !! i = Some c
                  /\ role_matches wm ws c = true)
  /\ (0 < best_dc_count cc -> Z.of_nat (marked mask) <= best_dc_count cc).
Proof.
  cbv zeta. rewrite nearest_mask_eq.
  set (count := if best_dc_count cc =? 0 then _ else _).
  set (ks := map _ (take (Z.to_nat count) matching)).
  split; [rewrite mark_all_length; apply length_replicate|]. split.
  - intros i Hi.
    rewrite mark_all_lookup in Hi by (apply chosen_valid).
    destruct (decide (i ∈ ks)) as [Hin|_].
    2:{ apply lookup_replicate in Hi as [Hi _]. discriminate. }
    apply list_elem_of_In, in_map_iff in Hin as (pn & <- & Hpn).
    apply take_In, matching_In in Hpn as (j & c & Hc & -> & Hr).
    cbn [snd]. rewrite Nat2Z.id. eauto.
  - intros Hpos.
    pose proof (marked_mark_all ks (replicate (length instances) false))
      as Hm.
    rewrite marked_replicate in Hm.
    assert (Hlen : (length ks <= Z.to_nat count)%nat).
    { subst ks. rewrite length_map, length_take. lia. }
    subst count. destruct (Z.eqb_spec (best_dc_count cc) 0); lia.
Qed.

(** X16.  With no window ([best_dc_count] zero, or not below the number of
    instances) the nearest-ping mask is the mask of the default strategy:
    every instance of the role asked for, whatever its ping. *)
Theorem nearest_mask_without_window :
  best_dc_count cc = 0 \/ Z.of_nat (length instances) <= best_dc_count cc ->
  Shard.GetNearestServersPing instances cc wm ws
  = map (fun c => if Shard.read_only (Shard.info c) then ws else wm)
        instances.
Proof.
  intros Hwin. rewrite nearest_mask_eq. cbv zeta.
  set (count := if best_dc_count cc =? 0 then _ else _).
  assert (Hcount : (length instances <= Z.to_nat count)%nat).
  { subst count. destruct (Z.eqb_spec (best_dc_count cc) 0); lia. }
  assert (Hall : take (Z.to_nat count) matching = matching).
  { apply take_ge.
    pose proof (List.filter_length_le (pair_role instances wm ws) by_ping).
    pose proof (Permutation_length (sort_pairs_perm (ping_pairs instances)))
      as Hp.
    unfold ping_pairs in Hp at 2. rewrite length_imap in Hp. lia. }
  rewrite Hall. apply list_eq. intros i.
  rewrite mark_all_lookup by (rewrite <- Hall; apply chosen_valid).
  change (map ?f instances) with (f <$> instances).
  rewrite list_lookup_fmap.
  destruct (instances !! i) as [c|] eqn:Hc; cbn.
  - fold (role_matches wm ws c).
    destruct (role_matches wm ws c) eqn:Hr.
    + rewrite decide_True; [reflexivity|].
      apply list_elem_of_In, in_map_iff.
      exists (entry_ping c, Z.of_nat i). cbn [snd].
      split; [apply Nat2Z.id|]. apply matching_In. eauto.
    + rewrite decide_False.
      * apply lookup_replicate. split; [reflexivity|].
        exact (lookup_lt_Some _ _ _ Hc).
      * intros Hin.
        apply list_elem_of_In, in_map_iff in Hin as (pn & Hi & Hpn).
        apply matching_In in Hpn as (j & c' & Hc' & -> & Hr').
        cbn [snd] in Hi. rewrite Nat2Z.id in Hi. subst j. congruence.
  - rewrite decide_False.
    + apply lookup_replicate_None. apply lookup_ge_None_1 in Hc. lia.
    + intros Hin.
      apply list_elem_of_In, in_map_iff in Hin as (pn & Hi & Hpn).
      apply matching_In in Hpn as (j & c' & Hc' & -> & Hr').
      cbn [snd] in Hi. rewrite Nat2Z.id in Hi. subst j. congruence.
Qed.

(** X17.  Nearest first.  An instance the nearest-ping mask marks has a ping
    latency no higher than any instance of the role asked for that it leaves
    unmarked; of two with the same latency the one at the lower index is
    marked first. *)
Theorem nearest_mask_prefers_low_ping (i j : nat)
    (ci cj : Shard.ConnectionStatus) :
  let mask := Shard.GetNearestServersPing instances cc wm ws in
  instances !! i = Some ci -> instances !! j = Some cj ->
  mask !! i = Some true -> mask !! j = Some false ->
  role_matches wm ws cj = true ->
  entry_ping ci < entry_ping cj
  \/ (entry_ping ci = entry_ping cj /\ (i < j)%nat).
Proof.
  cbv zeta. rewrite nearest_mask_eq. cbv zeta.
  set (count := if best_dc_count cc =? 0 then _ else _).
  intros Hi Hj Hmi Hmj Hrj.
  rewrite mark_all_lookup in Hmi, Hmj by (apply chosen_valid).
  destruct (decide (i ∈ _)) as [Hin|_] in Hmi.
  2:{ apply lookup_replicate in Hmi as [Hmi _]. discriminate. }
  destruct (decide (j ∈ _)) as [|Hnj] in Hmj; [discriminate|].
  apply list_elem_of_In, in_map_iff in Hin as (pi & Hpi & Hini).
  pose proof (take_In _ _ _ Hini) as Hini'.
  apply matching_In in Hini' as (i' & ci' & Hci' & -> & _).
  cbn [snd] in Hpi. rewrite Nat2Z.id in Hpi. subst i'.
  rewrite Hi in Hci'. injection Hci' as <-.
  assert (Hinj : In (entry_ping cj, Z.of_nat j) matching)
    by (apply matching_In; eauto).
  rewrite <- (take_drop (Z.to_nat count) matching) in Hinj.
  apply in_app_or in Hinj as [Hinj|Hinj].
  { exfalso. apply Hnj, list_elem_of_In, in_map_iff.
    exists (entry_ping cj, Z.of_nat j). cbn [snd].
    split; [apply Nat2Z.id | exact Hinj]. }
  assert (Hs : StronglySorted pair_le
                 (take (Z.to_nat count) matching
                  ++ drop (Z.to_nat count) matching)).
  { rewrite take_drop. apply sorted_filter, sort_pairs_sorted. }
  pose proof (sorted_split _ _ _ Hs _ _ Hini Hinj) as Hle.
  apply pair_le_spec in Hle. cbn [fst snd] in Hle.
  destruct Hle as [Hlt|[Heq Hle]]; [left; exact Hlt|].
  right. split; [exact Heq|].
  assert (i <> j).
  { intros ->. apply Hnj, list_elem_of_In, in_map_iff.
    exists (entry_ping ci, Z.of_nat j). cbn [snd].
    split; [apply Nat2Z.id | exact Hini]. }
  lia.
Qed.

End NearestMask.

Lemma nearest_mask_shape_witness :
  Z.of_nat
    (marked (Shard.GetNearestServersPing
               (Shard.instances_ Sample.three_connected)
               (mkCommandControl kNearestServerPing ServerId_any false 2)
               true true)) <= 2.
Proof.
  apply (nearest_mask_shape (Shard.instances_ Sample.three_connected)
           (mkCommandControl kNearestServerPing ServerId_any false 2)
           true true).
  reflexivity.
Defined.

Lemma nearest_mask_without_window_witness :
  Shard.GetNearestServersPing (Shard.instances_ Sample.three_connected)
    (mkCommandControl kNearestServerPing ServerId_any false 0) false true
  = [false; true; true].
Proof.
  rewrite (nearest_mask_without_window
             (Shard.instances_ Sample.three_connected)
             (mkCommandControl kNearestServerPing ServerId_any false 0)
             false true (or_introl eq_refl)).
  reflexivity.
Defined.

Lemma nearest_mask_prefers_low_ping_witness :
  let instances := Shard.instances_ Sample.three_connected in
  let c0 :=
    Shard.mkStatus Sample.info_m (Sample.handle kConnected 1 0 false) in
  let c1 :=
    Shard.mkStatus Sample.info_r1 (Sample.handle kConnected 2 0 false) in
  entry_ping c0 < entry_ping c1
  \/ (entry_ping c0 = entry_ping c1 /\ (0 < 1)%nat).
Proof.
  cbv zeta.
  apply (nearest_mask_prefers_low_ping
           (Shard.instances_ Sample.three_connected)
           (mkCommandControl kNearestServerPing ServerId_any false 1)
           true true 0%nat 1%nat); reflexivity.
Defined.

(** ** The cluster router, continued *)

(** X18.  The start index is an index.  For a candidate count of at least one
    and arguments in the range of [size_t], [GetStartIndex] is defined and
    below the count; on the first attempt of the first try with reads from the
    master disabled and at least two candidates it is below the count less
    one, so it never names the last candidate, the master. *)
Theorem GetStartIndex_in_range (k : Z) (cc : CommandControl)
    (attempt prev_idx current count : Z) (nearest : bool) :
  in_size_t attempt -> in_size_t prev_idx -> in_size_t current ->
  in_size_t (best_dc_count cc) -> 1 <= count < size_t_modulus ->
  exists idx,
    ClusterShard.GetStartIndex k cc attempt nearest prev_idx current count
    = Some idx
    /\ 0 <= idx < count
    /\ (prev_idx = k -> attempt = 0 -> allow_reads_from_master cc = false ->
        2 <= count -> idx < count - 1).
Proof.
  intros Ha Hp Hcur Hb Hc.
  pose proof (effective_servers_count_range k cc attempt prev_idx count Hc)
    as Heff.
  assert (Hle : ClusterShard.effective_servers_count k cc attempt prev_idx
                  count <= count).
  { unfold ClusterShard.effective_servers_count.
    destruct (_ && _ && _); [|lia].
    rewrite wrap_small by (unfold in_size_t; lia). lia. }
  assert (Hred : prev_idx = k -> attempt = 0 ->
                 allow_reads_from_master cc = false -> 2 <= count ->
                 ClusterShard.effective_servers_count k cc attempt prev_idx
                   count = count - 1).
  { intros -> -> Hallow H2. unfold ClusterShard.effective_servers_count.
    rewrite Z.eqb_refl, Hallow. cbn.
    rewrite wrap_small by (unfold in_size_t; lia). lia. }
  unfold ClusterShard.GetStartIndex.
  set (eff := ClusterShard.effective_servers_count k cc attempt prev_idx
                count) in *.
  assert (Hres : forall x, exists idx,
             ClusterShard.size_t_rem x eff = Some idx
             /\ 0 <= idx < count
             /\ (prev_idx = k -> attempt = 0 ->
                 allow_reads_from_master cc = false -> 2 <= count ->
                 idx < count - 1)).
  { intros x. exists (x mod eff). rewrite size_t_rem_pos by lia.
    pose proof (Z.mod_pos_bound x eff ltac:(lia)).
    split; [reflexivity|]. split; [lia|].
    intros H1 H2 H3 H4. rewrite (Hred H1 H2 H3 H4) in *. lia. }
  destruct nearest.
  - destruct (prev_idx =? k).
    + rewrite size_t_rem_pos.
      * cbn. apply Hres.
      * assert (Hmax : 0 < size_t_max) by reflexivity.
        destruct (Z.eqb_spec (best_dc_count cc) 0); unfold in_size_t in *;
          lia.
    + cbn. apply Hres.
  - destruct (prev_idx =? k); apply Hres.
Qed.

Lemma GetStartIndex_in_range_witness :
  exists idx,
    ClusterShard.GetStartIndex size_t_max
      (mkCommandControl kDefault ServerId_any false 0) 0 false size_t_max
      7 3 = Some idx
    /\ 0 <= idx < 3.
Proof.
  destruct (GetStartIndex_in_range size_t_max
              (mkCommandControl kDefault ServerId_any false 0)
              0 size_t_max 7 3 false)
    as (idx & H & Hr & _);
    try (unfold in_size_t, size_t_max, size_t_modulus; simpl; lia).
  exists idx. split; assumption.
Defined.

(** X19.  No candidates.  With a candidate count of zero [GetStartIndex]
    divides by zero, except on the first attempt of the first try with reads
    from the master disabled: there [servers_count - 1] wraps around to [2^64
    - 1] and an index is returned although there is no candidate. *)
Theorem GetStartIndex_without_candidates (k : Z) (cc : CommandControl)
    (attempt prev_idx current : Z) (nearest : bool) :
  in_size_t current -> in_size_t (best_dc_count cc) ->
  let reduced :=
    (prev_idx =? k) && (attempt =? 0) && negb (allow_reads_from_master cc) in
  let result :=
    ClusterShard.GetStartIndex k cc attempt nearest prev_idx current 0 in
  ClusterShard.effective_servers_count k cc attempt prev_idx 0
  = (if reduced then size_t_max else 0)
  /\ (reduced = false -> result = None)
  /\ (reduced = true -> exists idx, result = Some idx).
Proof.
  intros Hcur Hb reduced result. subst result.
  assert (Heff : ClusterShard.effective_servers_count k cc attempt prev_idx 0
                 = if reduced then size_t_max else 0).
  { unfold ClusterShard.effective_servers_count. fold reduced.
    destruct reduced; reflexivity. }
  split; [exact Heff|].
  unfold ClusterShard.GetStartIndex. rewrite Heff. split; intros Hr.
  - rewrite Hr. subst reduced.
    destruct nearest.
    + destruct (prev_idx =? k) eqn:Ek.
      * replace (Z.min _ 0) with 0
          by (destruct (best_dc_count cc =? 0);
              unfold size_t_max, in_size_t in *; cbn; lia).
        reflexivity.
      * reflexivity.
    + destruct (prev_idx =? k); reflexivity.
  - rewrite Hr. subst reduced.
    apply andb_true_iff in Hr as [Hr _]. apply andb_true_iff in Hr as [Hk _].
    rewrite Hk.
    assert (Hmax : 0 < size_t_max) by reflexivity.
    destruct nearest.
    + rewrite size_t_rem_pos.
      * cbn. rewrite size_t_rem_pos by exact Hmax. eauto.
      * destruct (best_dc_count cc =? 0) eqn:E;
          [cbn; lia|].
        apply Z.eqb_neq in E. unfold in_size_t in Hb. lia.
    + rewrite size_t_rem_pos by exact Hmax. eauto.
Qed.

Lemma GetStartIndex_without_candidates_witness :
  ClusterShard.GetStartIndex size_t_max
    (mkCommandControl kDefault ServerId_any true 0) 0 false size_t_max 7 0
  = None.
Proof.
  apply (GetStartIndex_without_candidates size_t_max
           (mkCommandControl kDefault ServerId_any true 0)
           0 size_t_max 7 false);
    try (unfold in_size_t, size_t_max, size_t_modulus; simpl; lia);
    reflexivity.
Defined.

Section ClusterSelection.

Variable instances : list ClusterShard.RedisConnectionPtr.
Variable start_idx end_ pidx : Z.

Abbreviation cround := (cluster_round start_idx end_).
Abbreviation cvisit :=
  (ClusterShard.GetInstance_visit instances start_idx end_).
Abbreviation cchosen := (cluster_chosen instances start_idx end_ pidx).

Lemma cluster_usable_alive (r : Redis) :
  cluster_usable r = true -> IsDestroying r = false.
Proof.
  unfold cluster_usable, usable. intros H.
  apply andb_true_iff in H as [H _]. apply andb_true_iff in H as [H _].
  apply negb_true_iff in H. exact H.
Qed.

Lemma cluster_chosen_skip (a : nat) (acc : option Redis * Z) :
  cchosen a acc ->
  (forall r, candidate instances (cround a) r -> cluster_usable r = false) ->
  cchosen (S a) acc.
Proof.
  intros Hacc Hno. unfold cluster_chosen in *. destruct (fst acc) as [r|].
  - destruct Hacc as (k & Hk & Hidx & Hc & Hu & Hle & Hlt).
    exists k. split; [lia|]. split; [exact Hidx|]. split; [exact Hc|].
    split; [exact Hu|]. split; [|exact Hlt].
    intros i ri Hi Hci Hui.
    destruct (decide (i = a)) as [->|]; [rewrite (Hno ri Hci) in Hui;
                                         discriminate|].
    apply (Hle i ri); [lia | exact Hci | exact Hui].
  - destruct Hacc as [Hp Hnone]. split; [exact Hp|].
    intros i r Hi Hc.
    destruct (decide (i = a)) as [->|]; [exact (Hno r Hc)|].
    apply (Hnone i r); [lia | exact Hc].
Qed.

Lemma cluster_visit_step (a : nat) (acc acc' : option Redis * Z) :
  cchosen a acc -> cvisit (Some acc) a = Some acc' -> cchosen (S a) acc'.
Proof.
  intros Hacc Hv. unfold ClusterShard.GetInstance_visit in Hv.
  destruct acc as [ret p]. cbn [mbind option_bind] in Hv.
  fold (cround a) in Hv.
  destruct (instances !! Z.to_nat (cround a)) as [[h|]|] eqn:Ec;
    cbn in Hv; try discriminate.
  destruct (ClusterShard.Get h) as [cur|] eqn:Eh.
  2:{ injection Hv as <-. apply cluster_chosen_skip; [exact Hacc|].
      intros r (h' & Hl & Hg). rewrite Ec in Hl. injection Hl as <-.
      congruence. }
  assert (Honly : forall r, candidate instances (cround a) r -> r = cur).
  { intros r (h' & Hl & Hg). rewrite Ec in Hl. injection Hl as <-.
    congruence. }
  assert (Hcand : candidate instances (cround a) cur).
  { exists h. auto. }
  fold (cluster_usable cur) in Hv.
  destruct (cluster_usable cur) eqn:Eu; cbn [andb] in Hv.
  2:{ injection Hv as <-. apply cluster_chosen_skip; [exact Hacc|].
      intros r Hr. rewrite (Honly r Hr). exact Eu. }
  destruct ret as [r|]; cbn [better_than] in Hv.
  - unfold cluster_chosen in Hacc. cbn [fst snd] in Hacc.
    destruct Hacc as (k & Hk & Hidx & Hc & Hu & Hle & Hlt).
    rewrite (cluster_usable_alive r Hu) in Hv. cbn [orb] in Hv.
    destruct (Z.ltb_spec (GetRunningCommands cur) (GetRunningCommands r))
      as [Hless|Hge]; injection Hv as <-; unfold cluster_chosen;
      cbn [fst snd].
    + exists a. split; [lia|]. split; [reflexivity|]. split; [exact Hcand|].
      split; [exact Eu|]. split.
      * intros i ri Hi Hci Hui.
        destruct (decide (i = a)) as [->|]; [rewrite (Honly ri Hci); lia|].
        specialize (Hle i ri ltac:(lia) Hci Hui). lia.
      * intros i ri Hi Hci Hui.
        specialize (Hle i ri ltac:(lia) Hci Hui). lia.
    + exists k. split; [lia|]. split; [exact Hidx|]. split; [exact Hc|].
      split; [exact Hu|]. split; [|exact Hlt].
      intros i ri Hi Hci Hui.
      destruct (decide (i = a)) as [->|]; [rewrite (Honly ri Hci); lia|].
      apply (Hle i ri); [lia | exact Hci | exact Hui].
  - injection Hv as <-. unfold cluster_chosen in *. cbn [fst snd] in *.
    destruct Hacc as [_ Hnone].
    exists a. split; [lia|]. split; [reflexivity|]. split; [exact Hcand|].
    split; [exact Eu|]. split.
    + intros i ri Hi Hci Hui.
      destruct (decide (i = a)) as [->|]; [rewrite (Honly ri Hci); lia|].
      rewrite (Hnone i ri ltac:(lia) Hci) in Hui. discriminate.
    + intros i ri Hi Hci Hui.
      rewrite (Hnone i ri ltac:(lia) Hci) in Hui. discriminate.
Qed.

Lemma cluster_visit_none (l : list nat) :
  fold_left cvisit l None = None.
Proof. induction l as [|i l IH]; [reflexivity | exact IH]. Qed.

Lemma cluster_visit_fold (m a : nat) (acc acc' : option Redis * Z) :
  cchosen a acc ->
  fold_left cvisit (seq a m) (Some acc) = Some acc' ->
  cchosen (a + m) acc'.
Proof.
  revert a acc. induction m as [|m IH]; intros a acc Hacc Hf.
  - cbn in Hf. injection Hf as <-. rewrite Nat.add_0_r. exact Hacc.
  - cbn [seq fold_left] in Hf.
    destruct (cvisit (Some acc) a) as [acc1|] eqn:Ev.
    + replace (a + S m)%nat with (S a + m)%nat by lia.
      apply (IH (S a) acc1); [|exact Hf].
      exact (cluster_visit_step a acc acc1 Hacc Ev).
    + rewrite cluster_visit_none in Hf. discriminate.
Qed.

(** With no null pointer among the candidates the loop is defined. *)
Lemma cluster_visit_total (m a : nat) (acc : option Redis * Z) :
  0 < end_ <= Z.of_nat (length instances) ->
  Forall (fun p : ClusterShard.RedisConnectionPtr => p <> None) instances ->
  fold_left cvisit (seq a m) (Some acc) <> None.
Proof.
  intros Hend Hall. revert a acc.
  induction m as [|m IH]; intros a acc; [discriminate|].
  cbn [seq fold_left].
  assert (Hv : exists acc1, cvisit (Some acc) a = Some acc1).
  { unfold ClusterShard.GetInstance_visit. destruct acc as [ret p].
    cbn [mbind option_bind]. fold (cround a).
    assert (Hr : 0 <= cround a < end_).
    { unfold cluster_round. apply Z.mod_pos_bound. lia. }
    destruct (instances !! Z.to_nat (cround a)) as [[h|]|] eqn:Ec; cbn.
    - destruct (ClusterShard.Get h); [destruct (_ && _)|]; eauto.
    - rewrite Forall_forall in Hall.
      destruct (Hall None (list_elem_of_lookup_2 _ _ _ Ec) eq_refl).
    - apply lookup_ge_None_1 in Ec. exfalso.
      change (length instances <= Z.to_nat (cround a))%nat in Ec. lia. }
  destruct Hv as [acc1 ->]. apply IH.
Qed.

End ClusterSelection.

Lemma window_le_size (instances : list ClusterShard.RedisConnectionPtr)
    (attempt : Z) (nearest : bool) (best : Z) :
  window instances attempt nearest best <= Z.of_nat (length instances).
Proof.
  unfold window. destruct (nearest && (attempt =? 0) && negb (best =? 0));
    lia.
Qed.

Lemma null_pointer_dec
    (instances : list ClusterShard.RedisConnectionPtr) :
  Forall (fun p : ClusterShard.RedisConnectionPtr => p <> None) instances
  \/ Exists (fun p : ClusterShard.RedisConnectionPtr => p = None) instances.
Proof.
  induction instances as [|p l [IH|IH]].
  - left. constructor.
  - destruct p as [h|].
    + left. constructor; [discriminate | exact IH].
    + right. apply Exists_cons_hd. reflexivity.
  - right. apply Exists_cons_tl. exact IH.
Qed.

Lemma cluster_GetInstance_chosen
    (instances : list ClusterShard.RedisConnectionPtr)
    (start_idx attempt : Z) (nearest : bool) (best_dc_count pidx : Z)
    (acc : option Redis * Z) :
  ClusterShard.GetInstance instances start_idx attempt nearest best_dc_count
    pidx = Some acc ->
  let end_ := window instances attempt nearest best_dc_count in
  cluster_chosen instances start_idx end_ pidx (Z.to_nat end_) acc.
Proof.
  intros Ef end_.
  assert (H0 : cluster_chosen instances start_idx end_ pidx 0 (None, pidx)).
  { split; [reflexivity|]. intros i r Hi. lia. }
  exact (cluster_visit_fold instances start_idx end_ pidx (Z.to_nat end_) 0
           (None, pidx) acc H0 Ef).
Qed.

Lemma cluster_GetInstance_defined
    (instances : list ClusterShard.RedisConnectionPtr)
    (start_idx attempt : Z) (nearest : bool) (best_dc_count pidx : Z) :
  Forall (fun p : ClusterShard.RedisConnectionPtr => p <> None) instances ->
  ClusterShard.GetInstance instances start_idx attempt nearest best_dc_count
    pidx <> None.
Proof.
  intros Hall Ef. unfold ClusterShard.GetInstance in Ef.
  fold (window instances attempt nearest best_dc_count) in Ef.
  set (end_ := window instances attempt nearest best_dc_count) in *.
  destruct (Z.to_nat end_) as [|n] eqn:En; [discriminate|].
  rewrite <- En in Ef.
  refine (cluster_visit_total instances start_idx end_ _ _ _ _ Hall Ef).
  pose proof (window_le_size instances attempt nearest best_dc_count) as H.
  fold end_ in H. lia.
Qed.

(** X20.  [ClusterShard::GetInstance] goes once round its window (the first
    [best_dc_count] candidates on the first attempt of a nearest-ping command,
    all candidates otherwise).  It answers with a handle that is connected,
    not being destroyed and not syncing, that carries no more running commands
    than any other such handle of the window and fewer than those met before
    it, together with the index of that handle, which lies inside the window;
    where the window has no such handle it answers with no handle and leaves
    the index as it was.  Only a null pointer among the candidates makes the
    call undefined. *)
Theorem cluster_GetInstance_least_loaded
    (instances : list ClusterShard.RedisConnectionPtr)
    (start_idx attempt : Z) (nearest : bool) (best_dc_count pidx : Z) :
  let end_ := window instances attempt nearest best_dc_count in
  match ClusterShard.GetInstance instances start_idx attempt nearest
          best_dc_count pidx with
  | Some acc =>
      cluster_chosen instances start_idx end_ pidx (Z.to_nat end_) acc
      /\ (is_Some (fst acc) -> 0 <= snd acc < end_)
  | None =>
      Exists (fun p : ClusterShard.RedisConnectionPtr => p = None) instances
  end.
Proof.
  intros end_.
  destruct (ClusterShard.GetInstance _ _ _ _ _ _) as [acc|] eqn:Ef.
  - pose proof (cluster_GetInstance_chosen _ _ _ _ _ _ _ Ef) as Hc.
    cbv zeta in Hc. fold end_ in Hc. split; [exact Hc|].
    intros [r Hr]. unfold cluster_chosen in Hc. rewrite Hr in Hc.
    destruct Hc as (k & Hk & -> & _).
    unfold cluster_round. apply Z.mod_pos_bound. lia.
  - destruct (null_pointer_dec instances) as [Hall|Hex]; [|exact Hex].
    destruct (cluster_GetInstance_defined _ _ _ _ _ _ Hall Ef).
Qed.

Lemma GetStartIndex_defined (k : Z) (cc : CommandControl)
    (attempt prev_idx current count : Z) (nearest : bool) :
  0 <= best_dc_count cc -> 1 <= count ->
  ClusterShard.GetStartIndex k cc attempt nearest prev_idx current count
  <> None.
Proof.
  intros Hb Hc.
  assert (Heff : 0 < ClusterShard.effective_servers_count k cc attempt
                       prev_idx count).
  { unfold ClusterShard.effective_servers_count.
    destruct (_ && _ && _); lia. }
  assert (Hmax : 0 < size_t_max) by reflexivity.
  unfold ClusterShard.GetStartIndex.
  set (eff := ClusterShard.effective_servers_count k cc attempt prev_idx
                count) in *.
  destruct nearest.
  - destruct (prev_idx =? k).
    + rewrite size_t_rem_pos
        by (destruct (Z.eqb_spec (best_dc_count cc) 0); lia).
      cbn. rewrite size_t_rem_pos by exact Heff. discriminate.
    + cbn. rewrite size_t_rem_pos by exact Heff. discriminate.
  - destruct (prev_idx =? k); rewrite size_t_rem_pos by exact Heff;
      discriminate.
Qed.

Lemma store_handle_non_null (r : Redis) (n : nat)
    (l : list ClusterShard.RedisConnectionPtr) :
  Forall non_null l ->
  Forall non_null (alter (ClusterShard.store_handle r) n l).
Proof.
  intros Hall. revert n.
  induction Hall as [|p l Hp Hl IH]; intros n; [constructor|].
  destruct n as [|n]; cbn.
  - constructor; [|exact Hl].
    destruct p as [h|]; [discriminate | destruct (Hp eq_refl)].
  - constructor; [exact Hp | apply IH].
Qed.

Section ClusterSubmit.

Variable kDefaultPrevInstanceIdx : Z.
Variable Redis_AsyncCommand : Redis -> Command -> bool * Redis.
Variable partial_sort :
  nat -> list ClusterShard.RedisConnectionPtr
  -> list ClusterShard.RedisConnectionPtr.

Abbreviation cluster_attempts :=
  (ClusterShard.attempts kDefaultPrevInstanceIdx Redis_AsyncCommand).

(** The trace of the attempt loop: refused hand-overs, then the accepted one
    or the warning. *)
Lemma cluster_attempts_trace (fuel : nat) :
  forall (attempt : Z) (cc : CommandControl) (nearest : bool)
         (current count : Z)
         (avail : list ClusterShard.RedisConnectionPtr) (cmd : Command)
         (b : bool) (c : Command) (evs : list ClusterShard.Event),
    cluster_attempts fuel attempt cc nearest current count avail cmd
    = Some (b, c, evs) ->
    exists pre last,
      evs = pre ++ [last]
      /\ Forall (fun e => is_refused e = true) pre
      /\ Forall cluster_dispatch_usable evs
      /\ cluster_last_event b c last
      /\ (length pre + (if b then 1 else 0) <= fuel)%nat.
Proof.
  induction fuel as [|fuel IH];
    intros attempt cc nearest current count avail cmd b c evs Hrun.
  - cbn in Hrun. injection Hrun as <- <- <-.
    exists [], (ClusterShard.EvLimitedWarning NoRedisServerIsReady).
    split; [reflexivity|]. split; [constructor|].
    split; [repeat constructor|]. split; [reflexivity | cbn; lia].
  - cbn [ClusterShard.attempts] in Hrun.
    destruct (ClusterShard.GetStartIndex _ _ _ _ _ _ _) as [start_idx|];
      [|discriminate].
    cbn [mbind option_bind] in Hrun.
    destruct (ClusterShard.GetInstance _ _ _ _ _ _) as [[found idx]|] eqn:Eg;
      [|discriminate].
    cbn [mbind option_bind] in Hrun.
    pose proof (cluster_GetInstance_chosen _ _ _ _ _ _ _ Eg) as Hc.
    cbv zeta in Hc. unfold cluster_chosen in Hc. cbn [fst snd] in Hc.
    destruct found as [r|].
    + destruct Hc as (_ & _ & _ & _ & Hu & _).
      destruct (Redis_AsyncCommand r (set_instance_idx cmd idx))
        as [accepted r'].
      destruct accepted.
      * injection Hrun as <- <- <-.
        exists [], (ClusterShard.EvRedisAsyncCommand r
                      (set_instance_idx cmd idx) true).
        split; [reflexivity|]. split; [constructor|].
        split; [repeat constructor; exact Hu|].
        split; [cbn; eauto | cbn; lia].
      * destruct (ClusterShard.attempts _ _ fuel _ _ _ _ _ _ _)
          as [[[b2 c2] e2]|] eqn:Er; [|discriminate].
        cbn [mbind option_bind] in Hrun. injection Hrun as <- <- <-.
        destruct (IH _ _ _ _ _ _ _ _ _ _ Er)
          as (pre & last & -> & Hpre & Hall & Hlast & Hlen).
        exists (ClusterShard.EvRedisAsyncCommand r
                  (set_instance_idx cmd idx) false :: pre), last.
        split; [reflexivity|].
        split; [constructor; [reflexivity | exact Hpre]|].
        split; [constructor; [exact Hu | exact Hall]|].
        split; [exact Hlast | cbn [length]; lia].
    + destruct (IH _ _ _ _ _ _ _ _ _ _ Hrun)
        as (pre & last & -> & Hpre & Hall & Hlast & Hlen).
      exists pre, last.
      split; [reflexivity|]. split; [exact Hpre|]. split; [exact Hall|].
      split; [exact Hlast | lia].
Qed.

(** The attempt loop is defined where there is a candidate and no null
    pointer among the candidates. *)
Lemma cluster_attempts_defined (fuel : nat) :
  forall (attempt : Z) (cc : CommandControl) (nearest : bool)
         (current : Z)
         (avail : list ClusterShard.RedisConnectionPtr) (cmd : Command),
    0 <= best_dc_count cc -> (1 <= length avail)%nat ->
    Forall non_null avail ->
    cluster_attempts fuel attempt cc nearest current
      (Z.of_nat (length avail)) avail cmd <> None.
Proof.
  induction fuel as [|fuel IH];
    intros attempt cc nearest current avail cmd Hb Hlen Hall;
    [discriminate|].
  cbn [ClusterShard.attempts].
  pose proof (GetStartIndex_defined kDefaultPrevInstanceIdx cc attempt
                (instance_idx cmd) current (Z.of_nat (length avail))
                nearest Hb ltac:(lia)) as Hs.
  destruct (ClusterShard.GetStartIndex _ _ _ _ _ _ _) as [start_idx|];
    [|congruence].
  cbn [mbind option_bind].
  pose proof (cluster_GetInstance_defined avail start_idx attempt nearest
                (best_dc_count cc) kDefaultPrevInstanceIdx Hall) as Hg.
  destruct (ClusterShard.GetInstance _ _ _ _ _ _) as [[found idx]|];
    [|congruence].
  cbn [mbind option_bind].
  destruct found as [r|]; [|apply IH; assumption].
  destruct (Redis_AsyncCommand r (set_instance_idx cmd idx))
    as [accepted r'].
  destruct accepted; [discriminate|].
  specialize (IH (wrap (attempt + 1)) cc nearest current
                (alter (ClusterShard.store_handle r') (Z.to_nat idx) avail)
                (set_instance_idx cmd idx) Hb).
  rewrite length_alter in IH.
  specialize (IH Hlen (store_handle_non_null r' _ _ Hall)).
  destruct (ClusterShard.attempts _ _ fuel _ _ _ _ _ _ _)
    as [[[b2 c2] e2]|]; [discriminate | congruence].
Qed.

(** The attempt loop writes to the command the index of the handle it hands
    the command to. *)
Lemma cluster_attempts_follows (fuel : nat) :
  forall (attempt : Z) (cc : CommandControl) (nearest : bool)
         (current count : Z)
         (avail : list ClusterShard.RedisConnectionPtr) (cmd : Command)
         (b : bool) (c : Command) (evs : list ClusterShard.Event),
    cluster_attempts fuel attempt cc nearest current count avail cmd
    = Some (b, c, evs) ->
    cluster_follows Redis_AsyncCommand avail cmd evs b c.
Proof.
  induction fuel as [|fuel IH];
    intros attempt cc nearest current count avail cmd b c evs Hrun.
  - cbn in Hrun. injection Hrun as <- <- <-. cbn. auto.
  - cbn [ClusterShard.attempts] in Hrun.
    destruct (ClusterShard.GetStartIndex _ _ _ _ _ _ _) as [start_idx|];
      [|discriminate].
    cbn [mbind option_bind] in Hrun.
    destruct (ClusterShard.GetInstance _ _ _ _ _ _) as [[found idx]|] eqn:Eg;
      [|discriminate].
    cbn [mbind option_bind] in Hrun.
    destruct found as [r|]; [|exact (IH _ _ _ _ _ _ _ _ _ _ Hrun)].
    pose proof (cluster_GetInstance_chosen _ _ _ _ _ _ _ Eg) as Hc.
    cbv zeta in Hc. unfold cluster_chosen in Hc. cbn [fst snd] in Hc.
    destruct Hc as (k & Hk & Hidx & Hcand & Hu & _).
    pose proof (window_le_size avail attempt nearest (best_dc_count cc))
      as Hw.
    assert (Hrange : 0 <= idx < Z.of_nat (length avail)).
    { rewrite Hidx. unfold cluster_round.
      pose proof (Z.mod_pos_bound (wrap (start_idx + Z.of_nat k))
                    (window avail attempt nearest (best_dc_count cc))
                    ltac:(lia)).
      lia. }
    rewrite <- Hidx in Hcand.
    destruct (Redis_AsyncCommand r (set_instance_idx cmd idx))
      as [accepted r'] eqn:Ea.
    destruct accepted.
    + injection Hrun as <- <- <-. cbn [cluster_follows].
      exists idx. rewrite Ea. cbn [fst]. auto 10.
    + destruct (ClusterShard.attempts _ _ fuel _ _ _ _ _ _ _)
        as [[[b2 c2] e2]|] eqn:Er; [|discriminate].
      cbn [mbind option_bind] in Hrun. injection Hrun as <- <- <-.
      cbn [cluster_follows]. exists idx. rewrite Ea. cbn [fst snd].
      split; [exact Hrange|]. split; [exact Hcand|]. split; [exact Hu|].
      split; [reflexivity|]. split; [reflexivity|].
      exact (IH _ _ _ _ _ _ _ _ _ _ Er).
Qed.

Lemma GetNearestServersPing_perm (cc : CommandControl)
    (l sorted : list ClusterShard.RedisConnectionPtr) :
  (forall n l, Permutation (partial_sort n l) l) ->
  ClusterShard.GetNearestServersPing partial_sort cc l = Some sorted ->
  Permutation sorted l.
Proof.
  intros Hsort. unfold ClusterShard.GetNearestServersPing.
  destruct (_ && _); [intros [= <-]; reflexivity|].
  destruct (forallb _ _); [|discriminate].
  intros [= <-]. apply Hsort.
Qed.

(** The comparator of the sort can be applied to every candidate that holds
    a handle. *)
Lemma GetNearestServersPing_defined (cc : CommandControl)
    (l : list ClusterShard.RedisConnectionPtr) :
  Forall handle_present l ->
  ClusterShard.GetNearestServersPing partial_sort cc l <> None.
Proof.
  intros Hall. unfold ClusterShard.GetNearestServersPing.
  destruct (_ && _); [discriminate|].
  assert (H : forallb ClusterShard.holds_handle l = true).
  { apply forallb_forall. intros p Hp.
    rewrite List.Forall_forall in Hall.
    destruct (Hall p Hp) as (h & r & -> & Hget).
    cbn. rewrite Hget. reflexivity. }
  rewrite H. discriminate.
Qed.

Lemma GetAvailableServers_perm (s : ClusterShard.ClusterShard)
    (cc : CommandControl) (avail : list ClusterShard.RedisConnectionPtr) :
  (forall n l, Permutation (partial_sort n l) l) ->
  ClusterShard.GetAvailableServers partial_sort s cc = Some avail ->
  Permutation avail
              (ClusterShard.replicas_ s ++ [ClusterShard.master_ s]).
Proof.
  intros Hsort.
  unfold ClusterShard.GetAvailableServers,
    ClusterShard.MakeReadonlyWithMasters.
  destruct (negb (ClusterShard.IsNearestServerPing cc));
    [intros [= <-]; reflexivity|].
  destruct (allow_reads_from_master cc).
  - apply GetNearestServersPing_perm, Hsort.
  - destruct (ClusterShard.GetNearestServersPing _ _ _) as [sorted|] eqn:En;
      [|discriminate].
    cbn. intros [= <-].
    apply Permutation_app_tail.
    exact (GetNearestServersPing_perm cc _ _ Hsort En).
Qed.

Lemma GetAvailableServers_defined (s : ClusterShard.ClusterShard)
    (cc : CommandControl) :
  (ClusterShard.IsNearestServerPing cc = true -> handles_present s) ->
  ClusterShard.GetAvailableServers partial_sort s cc <> None.
Proof.
  intros Hh. unfold ClusterShard.GetAvailableServers,
    ClusterShard.MakeReadonlyWithMasters.
  destruct (ClusterShard.IsNearestServerPing cc); [|discriminate].
  destruct (Hh eq_refl) as [Hm Hr]. cbn [negb].
  destruct (allow_reads_from_master cc).
  - apply GetNearestServersPing_defined, Forall_app.
    split; [exact Hr|]. constructor; [exact Hm | constructor].
  - pose proof (GetNearestServersPing_defined cc _ Hr) as Hd.
    destruct (ClusterShard.GetNearestServersPing _ _ _); [discriminate|].
    congruence.
Qed.

(** X21.  A read-only command without a pinned server, on a shard whose
    pointers are not null and, for a nearest-ping strategy, all hold a
    handle (the comparator of the sort dereferences the handles):
    [ClusterShard::AsyncCommand] is defined and advances the round-robin
    counter by exactly one, however many attempts it makes.  It hands the
    command only to handles that are connected, not being destroyed and not
    syncing, each time with [instance_idx] set to the index at which the
    candidate list holds that handle, at most [|replicas| + 2] times; it
    stops at the first that takes the command and returns true, the command
    keeping that index; if none takes it the call ends with the warning and
    returns false, the command keeping the index of the last hand-over. *)
Theorem cluster_read_round_robin (s : ClusterShard.ClusterShard)
    (cmd : Command) :
  cmd_read_only cmd = true ->
  IsAny (force_server_id (control cmd)) = true ->
  Forall non_null (ClusterShard.replicas_ s) ->
  non_null (ClusterShard.master_ s) ->
  (ClusterShard.IsNearestServerPing (control cmd) = true ->
   handles_present s) ->
  0 <= best_dc_count (control cmd) ->
  (forall n l, Permutation (partial_sort n l) l) ->
  exists out avail,
    ClusterShard.AsyncCommand kDefaultPrevInstanceIdx Redis_AsyncCommand
      partial_sort s cmd = Some out
    /\ ClusterShard.GetAvailableServers partial_sort s (control cmd)
       = Some avail
    /\ Permutation avail
         (ClusterShard.replicas_ s ++ [ClusterShard.master_ s])
    /\ ClusterShard.out_current out = wrap (ClusterShard.current_ s + 1)
    /\ cluster_follows Redis_AsyncCommand avail cmd
         (ClusterShard.trace out) (ClusterShard.ret out)
         (ClusterShard.out_command out)
    /\ exists pre last,
         ClusterShard.trace out = pre ++ [last]
         /\ Forall (fun e => is_refused e = true) pre
         /\ Forall cluster_dispatch_usable (ClusterShard.trace out)
         /\ cluster_last_event (ClusterShard.ret out)
              (ClusterShard.out_command out) last
         /\ (length pre + (if ClusterShard.ret out then 1 else 0)
             <= length (ClusterShard.replicas_ s) + 2)%nat.
Proof.
  intros Hro Hany Hrep Hmaster Hh Hb Hsort.
  pose proof (GetAvailableServers_defined s (control cmd) Hh) as Hadef.
  unfold ClusterShard.AsyncCommand. rewrite Hro, Hany. cbn [negb orb].
  destruct (ClusterShard.GetAvailableServers partial_sort s (control cmd))
    as [avail|] eqn:Ea; [|congruence].
  cbn [mbind option_bind].
  pose proof (GetAvailableServers_perm s (control cmd) avail Hsort Ea)
    as Hperm.
  assert (Hlen : (1 <= length avail)%nat).
  { rewrite (Permutation_length Hperm), length_app. cbn. lia. }
  assert (Hall : Forall non_null avail).
  { rewrite Hperm. apply Forall_app. split; [exact Hrep|].
    constructor; [exact Hmaster | constructor]. }
  pose proof (cluster_attempts_defined
                (length (ClusterShard.replicas_ s) + 1 + 1) 0 (control cmd)
                (ClusterShard.IsNearestServerPing (control cmd))
                (ClusterShard.current_ s) avail cmd Hb Hlen Hall) as Hdef.
  destruct (ClusterShard.attempts _ _ _ _ _ _ _ _ _ _)
    as [[[b c] evs]|] eqn:Er; [|congruence].
  cbn [mbind option_bind].
  destruct (cluster_attempts_trace _ _ _ _ _ _ _ _ _ _ _ Er)
    as (pre & last & Hevs & Hpre & Hus & Hlast & Hcount).
  pose proof (cluster_attempts_follows _ _ _ _ _ _ _ _ _ _ _ Er) as Hfol.
  eexists. exists avail. split; [reflexivity|]. cbn.
  split; [reflexivity|]. split; [exact Hperm|].
  split; [reflexivity|]. split; [exact Hfol|]. exists pre, last.
  split; [exact Hevs|]. split; [exact Hpre|]. split; [exact Hus|].
  split; [exact Hlast | lia].
Qed.

End ClusterSubmit.

Lemma cluster_read_round_robin_witness :
  exists out,
    ClusterShard.AsyncCommand size_t_max Sample.accept_all
      Sample.sort_by_ping Sample.cluster Sample.nearest_read_command
    = Some out
    /\ ClusterShard.out_current out = 1
    /\ instance_idx (ClusterShard.out_command out) = 0.
Proof.
  destruct (cluster_read_round_robin size_t_max Sample.accept_all
              Sample.sort_by_ping Sample.cluster
              Sample.nearest_read_command)
    as (out & avail & Hout & _ & _ & Hcur & _).
  - reflexivity.
  - reflexivity.
  - repeat constructor; discriminate.
  - discriminate.
  - intros _. split.
    + eexists _, _. split; reflexivity.
    + repeat constructor; eexists _, _; split; reflexivity.
  - simpl. lia.
  - intros n l. reflexivity.
  - exists out. split; [exact Hout|]. split; [exact Hcur|].
    vm_compute in Hout. injection Hout as <-. reflexivity.
Defined.

(** *** Reads that reach the master *)

Lemma GetStartIndex_plain_range (k : Z) (cc : CommandControl)
    (attempt prev_idx current count : Z) :
  1 <= count < size_t_modulus ->
  exists idx,
    ClusterShard.GetStartIndex k cc attempt false prev_idx current count
    = Some idx
    /\ 0 <= idx < count.
Proof.
  intros Hc.
  pose proof (effective_servers_count_range k cc attempt prev_idx count Hc)
    as Heff.
  assert (Hle : ClusterShard.effective_servers_count k cc attempt prev_idx
                  count <= count).
  { unfold ClusterShard.effective_servers_count.
    destruct (_ && _ && _); [|lia].
    rewrite wrap_small by (unfold in_size_t; lia). lia. }
  unfold ClusterShard.GetStartIndex.
  set (eff := ClusterShard.effective_servers_count k cc attempt prev_idx
                count) in *.
  destruct (prev_idx =? k); rewrite size_t_rem_pos by lia;
    (eexists; split; [reflexivity|]);
    match goal with
    | |- _ <= ?x mod _ < _ => pose proof (Z.mod_pos_bound x eff ltac:(lia))
    end; lia.
Qed.

(** The round in which the loop of [GetInstance] looks at the last
    candidate. *)
Lemma last_candidate_round (start_idx count : Z) :
  0 <= start_idx < count -> 2 * count <= size_t_modulus ->
  cluster_round start_idx count (Z.to_nat (count - 1 - start_idx))
  = count - 1.
Proof.
  intros Hs Hc. unfold cluster_round.
  rewrite Z2Nat.id by lia.
  rewrite wrap_small by (unfold in_size_t; lia).
  replace (start_idx + (count - 1 - start_idx)) with (count - 1) by lia.
  apply Z.mod_small. lia.
Qed.

Section MasterReads.

Variable kDefaultPrevInstanceIdx : Z.
Variable Redis_AsyncCommand : Redis -> Command -> bool * Redis.
Variable partial_sort :
  nat -> list ClusterShard.RedisConnectionPtr
  -> list ClusterShard.RedisConnectionPtr.

Variable replicas : list ClusterShard.RedisConnectionPtr.
Variable hm : ClusterShard.RedisConnectionHolder.
Variable m : Redis.

Hypothesis replicas_non_null : Forall non_null replicas.
Hypothesis master_handle : ClusterShard.Get hm = Some m.
Hypothesis master_usable : cluster_usable m = true.
Hypothesis master_idle :
  forall (j : nat) (r : Redis),
    candidate replicas (Z.of_nat j) r -> cluster_usable r = true ->
    GetRunningCommands m < GetRunningCommands r.
Hypothesis size_fits :
  2 * (Z.of_nat (length replicas) + 1) <= size_t_modulus.

Lemma GetInstance_master (start_idx attempt best pidx : Z) :
  0 <= start_idx < Z.of_nat (length replicas) + 1 ->
  ClusterShard.GetInstance (replicas ++ [Some hm]) start_idx attempt false
    best pidx
  = Some (Some m, Z.of_nat (length replicas)).
Proof.
  intros Hstart.
  set (avail := replicas ++ [Some hm]).
  assert (Hlen : Z.of_nat (length avail) = Z.of_nat (length replicas) + 1).
  { unfold avail. rewrite length_app. cbn. lia. }
  assert (Hall : Forall (fun p : ClusterShard.RedisConnectionPtr =>
                           p <> None) avail).
  { unfold avail. apply Forall_app. split; [exact replicas_non_null|].
    constructor; [discriminate | constructor]. }
  assert (Hm : candidate avail (Z.of_nat (length replicas)) m).
  { exists hm. split; [|exact master_handle].
    rewrite Nat2Z.id. unfold avail.
    rewrite lookup_app_r by constructor. rewrite Nat.sub_diag.
    reflexivity. }
  pose proof (cluster_GetInstance_defined avail start_idx attempt false best
                pidx Hall) as Hdef.
  destruct (ClusterShard.GetInstance avail start_idx attempt false best pidx)
    as [[found idx]|] eqn:Eg; [|congruence].
  pose proof (cluster_GetInstance_chosen _ _ _ _ _ _ _ Eg) as Hc.
  cbv zeta in Hc. unfold window in Hc. cbn [andb] in Hc.
  rewrite Hlen in Hc.
  set (count := Z.of_nat (length replicas) + 1) in *.
  set (i0 := Z.to_nat (count - 1 - start_idx)).
  assert (Hround : cluster_round start_idx count i0
                   = Z.of_nat (length replicas)).
  { unfold i0. rewrite (last_candidate_round start_idx count Hstart size_fits).
    unfold count. lia. }
  assert (Hi0 : (i0 < Z.to_nat count)%nat) by (unfold i0, count; lia).
  unfold cluster_chosen in Hc. cbn [fst snd] in Hc.
  destruct found as [r|].
  - destruct Hc as (k & Hk & Hidx & Hcand & Hu & Hle & _).
    assert (Hrm : GetRunningCommands r <= GetRunningCommands m).
    { apply (Hle i0 m Hi0); [rewrite Hround; exact Hm | exact master_usable]. }
    assert (Hrange : 0 <= idx < count).
    { rewrite Hidx. unfold cluster_round. apply Z.mod_pos_bound.
      unfold count. lia. }
    rewrite <- Hidx in Hcand.
    destruct (Z.eq_dec idx (Z.of_nat (length replicas))) as [->|Hne].
    + destruct Hcand as (h & Hl & Hg), Hm as (h' & Hl' & Hg').
      rewrite Hl in Hl'. injection Hl' as <-. congruence.
    + exfalso.
      assert (Hrep : candidate replicas (Z.of_nat (Z.to_nat idx)) r).
      { destruct Hcand as (h & Hl & Hg). exists h. split; [|exact Hg].
        rewrite Nat2Z.id. unfold avail in Hl.
        assert (Hlt : (Z.to_nat idx < length replicas)%nat)
          by (unfold count in Hrange; lia).
        rewrite lookup_app_l in Hl by exact Hlt.
        exact Hl. }
      pose proof (master_idle _ r Hrep Hu). lia.
  - destruct Hc as [_ Hnone].
    rewrite (Hnone i0 m Hi0) in master_usable; [discriminate|].
    rewrite Hround. exact Hm.
Qed.

(** The first attempt of the loop of [AsyncCommand], for a command that the
    selection finds a handle for. *)
Lemma first_attempt (s : ClusterShard.ClusterShard) (cmd : Command)
    (avail : list ClusterShard.RedisConnectionPtr) (start_idx idx : Z)
    (r : Redis) :
  cmd_read_only cmd = true ->
  IsAny (force_server_id (control cmd)) = true ->
  ClusterShard.IsNearestServerPing (control cmd) = false ->
  ClusterShard.GetAvailableServers partial_sort s (control cmd)
  = Some avail ->
  ClusterShard.GetStartIndex kDefaultPrevInstanceIdx (control cmd) 0 false
    (instance_idx cmd) (ClusterShard.current_ s) (Z.of_nat (length avail))
  = Some start_idx ->
  ClusterShard.GetInstance avail start_idx 0 false
    (best_dc_count (control cmd)) kDefaultPrevInstanceIdx
  = Some (Some r, idx) ->
  (forall r',
     ClusterShard.attempts kDefaultPrevInstanceIdx Redis_AsyncCommand
       (length (ClusterShard.replicas_ s) + 1) (wrap (0 + 1)) (control cmd)
       false (ClusterShard.current_ s) (Z.of_nat (length avail))
       (alter (ClusterShard.store_handle r') (Z.to_nat idx) avail)
       (set_instance_idx cmd idx) <> None) ->
  let command1 := set_instance_idx cmd idx in
  exists out rest,
    ClusterShard.AsyncCommand kDefaultPrevInstanceIdx Redis_AsyncCommand
      partial_sort s cmd = Some out
    /\ ClusterShard.trace out
       = ClusterShard.EvRedisAsyncCommand r command1
           (fst (Redis_AsyncCommand r command1)) :: rest
    /\ (fst (Redis_AsyncCommand r command1) = true ->
        ClusterShard.ret out = true /\ rest = []
        /\ ClusterShard.out_command out = command1).
Proof.
  intros Hro Hany Hnear Hav Hs Hg Hdef command1.
  unfold ClusterShard.AsyncCommand.
  rewrite Hro, Hany, Hnear, Hav. cbn [negb orb mbind option_bind].
  replace (length (ClusterShard.replicas_ s) + 1 + 1)%nat
    with (S (length (ClusterShard.replicas_ s) + 1)) by lia.
  remember (length (ClusterShard.replicas_ s) + 1)%nat as fuel eqn:Efuel.
  cbn [ClusterShard.attempts]. rewrite Hs. cbn [mbind option_bind].
  rewrite Hg. cbn [mbind option_bind]. fold command1.
  destruct (Redis_AsyncCommand r command1) as [accepted r'] eqn:Ea.
  cbn [fst]. destruct accepted.
  - eexists. exists []. cbn. split; [reflexivity|]. split; [reflexivity|].
    intros _. auto.
  - specialize (Hdef r').
    destruct (ClusterShard.attempts _ _ fuel _ _ _ _ _ _ _)
      as [[[b2 c2] e2]|]; [|congruence].
    cbn [mbind option_bind].
    eexists. exists e2. cbn. split; [reflexivity|]. split; [reflexivity|].
    discriminate.
Qed.

(** X22.  The start index does not keep the master out.  A read-only command
    without a pinned server and with a round-robin strategy, on a shard whose
    master is usable and carries fewer running commands than every usable
    replica: the first attempt of [ClusterShard::AsyncCommand] hands the
    command to the master, whether or not reads from the master are allowed.
    *)
Theorem cluster_read_reaches_idle_master (current shard : Z)
    (cmd : Command) :
  cmd_read_only cmd = true ->
  IsAny (force_server_id (control cmd)) = true ->
  ClusterShard.IsNearestServerPing (control cmd) = false ->
  0 <= best_dc_count (control cmd) ->
  let s := ClusterShard.mkClusterShard replicas (Some hm) current shard in
  let command1 := set_instance_idx cmd (Z.of_nat (length replicas)) in
  exists out rest,
    ClusterShard.AsyncCommand kDefaultPrevInstanceIdx Redis_AsyncCommand
      partial_sort s cmd = Some out
    /\ ClusterShard.trace out
       = ClusterShard.EvRedisAsyncCommand m command1
           (fst (Redis_AsyncCommand m command1)) :: rest
    /\ (fst (Redis_AsyncCommand m command1) = true ->
        ClusterShard.ret out = true /\ rest = []
        /\ ClusterShard.out_command out = command1).
Proof.
  intros Hro Hany Hnear Hb s command1.
  set (avail := replicas ++ [Some hm]).
  assert (Hlen : Z.of_nat (length avail) = Z.of_nat (length replicas) + 1).
  { unfold avail. rewrite length_app. cbn. lia. }
  assert (Hall : Forall non_null avail).
  { unfold avail. apply Forall_app. split; [exact replicas_non_null|].
    constructor; [discriminate | constructor]. }
  destruct (GetStartIndex_plain_range kDefaultPrevInstanceIdx (control cmd)
              0 (instance_idx cmd) current (Z.of_nat (length avail))
              ltac:(lia)) as (start_idx & Hs & Hstart).
  rewrite Hlen in Hstart.
  apply (first_attempt s cmd avail start_idx (Z.of_nat (length replicas)) m
           Hro Hany Hnear).
  - unfold ClusterShard.GetAvailableServers. rewrite Hnear. reflexivity.
  - exact Hs.
  - exact (GetInstance_master start_idx 0 (best_dc_count (control cmd))
             kDefaultPrevInstanceIdx Hstart).
  - intros r'.
    pose proof (cluster_attempts_defined kDefaultPrevInstanceIdx
                  Redis_AsyncCommand (length replicas + 1) (wrap (0 + 1))
                  (control cmd) false current
                  (alter (ClusterShard.store_handle r')
                         (Z.to_nat (Z.of_nat (length replicas))) avail)
                  command1 Hb) as Hdef.
    rewrite length_alter in Hdef.
    exact (Hdef ltac:(lia) (store_handle_non_null r' _ _ Hall)).
Qed.

End MasterReads.

Lemma cluster_read_reaches_idle_master_witness :
  exists out,
    ClusterShard.AsyncCommand size_t_max Sample.accept_all
      Sample.sort_by_ping Sample.cluster_busy_replicas
      (Sample.read_command (-1)) = Some out
    /\ ClusterShard.trace out
       = [ClusterShard.EvRedisAsyncCommand
            (Sample.handle kConnected 1 0 false)
            (set_instance_idx (Sample.read_command (-1)) 2) true].
Proof.
  destruct (cluster_read_reaches_idle_master size_t_max Sample.accept_all
              Sample.sort_by_ping
              [Sample.busy_holder 2; Sample.busy_holder 3]
              (ClusterShard.mkHolder
                 (Some (Sample.handle kConnected 1 0 false)) kConnected)
              (Sample.handle kConnected 1 0 false))
    with (current := 0) (shard := 0) (cmd := Sample.read_command (-1))
    as (out & rest & Hout & Htrace & Hacc).
  - repeat constructor; discriminate.
  - reflexivity.
  - reflexivity.
  - intros j r (h & Hl & Hg) _. rewrite Nat2Z.id in Hl.
    destruct j as [|[|j]]; try discriminate Hl;
      injection Hl as <-; injection Hg as <-; simpl; lia.
  - unfold size_t_modulus. simpl. lia.
  - reflexivity.
  - reflexivity.
  - reflexivity.
  - simpl. lia.
  - destruct (Hacc eq_refl) as (_ & -> & _).
    exists out. split; [exact Hout | exact Htrace].
Defined.
(** ** The readers of a Sentinel shard *)

Lemma key_absent {K V : Type} `{EqDecision K} (k : K) (m : list (K * V)) :
  existsb (fun e => bool_decide (fst e = k)) m = false
  <-> ~ In k (map fst m).
Proof.
  induction m as [|e m IH]; cbn; [tauto|].
  case_bool_decide as He; cbn.
  - split; [discriminate | intros H; destruct H; auto].
  - rewrite IH. tauto.
Qed.

(** *** [GetAvailableServersWeighted] *)

Lemma weigh_fold (available_servers : list bool) (with_master : bool)
    (l : list (nat * Shard.ConnectionStatus)) :
  forall acc : list (ServerId * Z),
    let res :=
      fold_left (Shard.weigh_entry available_servers with_master) l acc in
    (NoDup (map fst acc) -> NoDup (map fst res))
    /\ (forall e, In e res ->
          In e acc
          \/ exists i c,
               In (i, c) l
               /\ weighted available_servers with_master i c = true
               /\ e = (GetServerId (Shard.instance c), 1))
    /\ (forall k, In k (map fst acc) -> In k (map fst res))
    /\ (forall i c, In (i, c) l ->
          weighted available_servers with_master i c = true ->
          In (GetServerId (Shard.instance c)) (map fst res)).
Proof.
  induction l as [|[i c] l IH]; intros acc; cbn zeta.
  - cbn. repeat match goal with |- _ /\ _ => split end; auto.
    intros i c [].
  - cbn [fold_left].
    destruct (IH (Shard.weigh_entry available_servers with_master acc (i, c)))
      as (Hnd & Hsound & Hmono & Hcompl).
    cbn zeta in Hnd, Hsound, Hmono, Hcompl.
    set (res := fold_left _ l _) in *.
    unfold Shard.weigh_entry in Hnd, Hsound, Hmono, Hcompl.
    fold (weighted available_servers with_master i c)
      in Hnd, Hsound, Hmono, Hcompl.
    destruct (weighted available_servers with_master i c) eqn:Ew.
    + unfold Shard.emplace_weight in Hnd, Hsound, Hmono, Hcompl.
      destruct (existsb _ acc) eqn:Ex.
      * split; [exact Hnd|]. split; [|split; [exact Hmono|]].
        -- intros e He. destruct (Hsound e He) as [H|(i' & c' & H & H')];
             [auto|]. right. exists i', c'. split; [right; exact H|exact H'].
        -- intros i' c' [[= <- <-]|Hin] Hw; [|exact (Hcompl i' c' Hin Hw)].
           apply Hmono.
           destruct (in_dec (decide_rel eq) (GetServerId (Shard.instance c))
                            (map fst acc)) as [Hin|Hout]; [exact Hin|].
           apply key_absent in Hout. congruence.
      * apply key_absent in Ex.
        split; [|split; [|split]].
        -- intros Hacc. apply Hnd. rewrite map_app. cbn.
           apply NoDup_app. split; [exact Hacc|]. split.
           ++ intros k Hk [Hk'|[]]%list_elem_of_In.
              apply Ex. cbn in Hk'. subst. apply list_elem_of_In, Hk.
           ++ apply NoDup_singleton.
        -- intros e He.
           destruct (Hsound e He) as [H|(i' & c' & H & H')].
           ++ apply in_app_or in H as [H|[<-|[]]]; [auto|].
              right. exists i, c. split; [left; reflexivity|]. auto.
           ++ right. exists i', c'. split; [right; exact H|exact H'].
        -- intros k Hk. apply Hmono. rewrite map_app. apply in_or_app. auto.
        -- intros i' c' [[= <- <-]|Hin] Hw; [|exact (Hcompl i' c' Hin Hw)].
           apply Hmono. rewrite map_app. apply in_or_app. right. left.
           reflexivity.
    + split; [exact Hnd|]. split; [|split; [exact Hmono|]].
      * intros e He. destruct (Hsound e He) as [H|(i' & c' & H & H')];
          [auto|]. right. exists i', c'. split; [right; exact H|exact H'].
      * intros i' c' [[= <- <-]|Hin] Hw; [congruence|].
        exact (Hcompl i' c' Hin Hw).
Qed.

(** X23.  [GetAvailableServersWeighted] returns one pair per server id, each
    of weight one: the ids of exactly those instances that the availability
    mask marks, that are connected and not being destroyed, and that are
    replicas unless masters were asked for.  It hands no command to any
    instance. *)
Theorem weighted_servers_are_the_available_ones (s : Shard.Shard)
    (with_master : bool) (cc : CommandControl) :
  let available_servers :=
    fst (Shard.GetAvailableServers (Shard.instances_ s) cc with_master
           true) in
  let weights := fst (Shard.GetAvailableServersWeighted s with_master cc) in
  NoDup (map fst weights)
  /\ (forall id w, In (id, w) weights ->
        w = 1
        /\ exists i c,
             Shard.instances_ s !! i = Some c
             /\ weighted available_servers with_master i c = true
             /\ GetServerId (Shard.instance c) = id)
  /\ (forall i c, Shard.instances_ s !! i = Some c ->
        weighted available_servers with_master i c = true ->
        In (GetServerId (Shard.instance c), 1) weights)
  /\ dispatch_count (snd (Shard.GetAvailableServersWeighted s with_master
                            cc)) = 0%nat.
Proof.
  cbv zeta. unfold Shard.GetAvailableServersWeighted.
  pose proof (GetAvailableServers_log (Shard.instances_ s) cc with_master
                true) as Hlog.
  cbv zeta in Hlog.
  destruct (Shard.GetAvailableServers (Shard.instances_ s) cc with_master
              true) as [available_servers log].
  cbn [fst snd] in *.
  destruct (weigh_fold available_servers with_master
              (imap (fun i c => (i, c)) (Shard.instances_ s)) [])
    as (Hnd & Hsound & _ & Hcompl).
  cbv zeta in Hnd, Hsound, Hcompl.
  set (weights := fold_left _ _ _) in *.
  assert (Hin : forall i c,
             In (i, c) (imap (fun i c => (i, c)) (Shard.instances_ s))
             <-> Shard.instances_ s !! i = Some c).
  { intros i c. rewrite <- list_elem_of_In, elem_of_lookup_imap.
    split.
    - intros (i' & c' & [= -> ->] & H). exact H.
    - intros H. exists i, c. auto. }
  assert (Hs : forall id w, In (id, w) weights ->
             w = 1
             /\ exists i c,
                  Shard.instances_ s !! i = Some c
                  /\ weighted available_servers with_master i c = true
                  /\ GetServerId (Shard.instance c) = id).
  { intros id w He. destruct (Hsound _ He) as [[]|(i & c & Hi & Hw & E)].
    injection E as -> ->. split; [reflexivity|].
    exists i, c. split; [apply Hin, Hi|]. auto. }
  split; [apply Hnd; constructor|]. split; [exact Hs|]. split.
  - intros i c Hi Hw.
    pose proof (Hcompl i c (proj2 (Hin i c) Hi) Hw) as Hk.
    apply in_map_iff in Hk as ([id w] & Hid & He). cbn in Hid. subst id.
    destruct (Hs _ _ He) as [-> _]. exact He.
  - change (Shard.EvLockShared :: log ++ [Shard.EvUnlock])
      with ([Shard.EvLockShared] ++ log ++ [Shard.EvUnlock]).
    rewrite !dispatch_count_app.
    rewrite (log_count log (force_server_id cc) Hlog). reflexivity.
Qed.

(** *** [GetStatistics] *)

Lemma stats_fold_ready (master : bool) (l : list Shard.ConnectionStatus) :
  forall acc : Shard.ShardStatistics,
    let res := fold_left (Shard.add_instance_stats master) l acc in
    Shard.is_ready res
    = existsb (fun c => stats_role master c
                        && is_connected (Shard.instance c)) l
      || Shard.is_ready acc
    /\ Shard.last_ready_time res = Shard.last_ready_time acc.
Proof.
  induction l as [|c l IH]; intros acc; cbn zeta; [split; reflexivity|].
  cbn [fold_left existsb].
  destruct (IH (Shard.add_instance_stats master acc c)) as [Hr Ht].
  cbn zeta in Hr, Ht. rewrite Hr, Ht.
  unfold Shard.add_instance_stats, stats_role.
  case_bool_decide; cbn [negb andb orb Shard.is_ready Shard.last_ready_time];
    [split; reflexivity|].
  split; [|reflexivity].
  destruct (existsb _ l), (is_connected (Shard.instance c)); reflexivity.
Qed.

Lemma stats_fold_entries (master : bool) (l : list Shard.ConnectionStatus) :
  forall acc : Shard.ShardStatistics,
    NoDup (map entry_key l) ->
    (forall c, In c l ->
       ~ In (entry_key c) (map fst (Shard.stat_instances acc))) ->
    Shard.stat_instances (fold_left (Shard.add_instance_stats master) l acc)
    = Shard.stat_instances acc
      ++ map (fun c => (entry_key c, Shard.instance c))
             (List.filter (stats_role master) l).
Proof.
  induction l as [|c l IH]; intros acc Hnd Hfresh.
  - cbn. rewrite app_nil_r. reflexivity.
  - cbn [fold_left List.filter]. cbn [map] in Hnd.
    apply NoDup_cons in Hnd as [Hc Hnd].
    destruct (stats_role master c) eqn:Er.
    + assert (Ha : Shard.add_instance_stats master acc c
                   = Shard.mkStats
                       (Shard.stat_instances acc
                        ++ [(entry_key c, Shard.instance c)])
                       (is_connected (Shard.instance c)
                        || Shard.is_ready acc)
                       (Shard.last_ready_time acc)).
      { unfold Shard.add_instance_stats. unfold stats_role in Er.
        destruct (bool_decide _); [discriminate|].
        fold (entry_key c).
        rewrite (proj2 (key_absent (entry_key c)
                          (Shard.stat_instances acc)))
          by (apply Hfresh; left; reflexivity).
        reflexivity. }
      rewrite Ha, IH; [| exact Hnd |].
      * cbn [Shard.stat_instances map]. rewrite <- app_assoc. reflexivity.
      * intros c' Hc'. cbn [Shard.stat_instances]. rewrite map_app.
        intros Hin. apply in_app_or in Hin as [Hin|[Hin|[]]].
        -- exact (Hfresh c' (or_intror Hc') Hin).
        -- cbn in Hin. apply Hc. rewrite Hin.
           apply list_elem_of_In, in_map. exact Hc'.
    + assert (Ha : Shard.add_instance_stats master acc c = acc).
      { unfold Shard.add_instance_stats. unfold stats_role in Er.
        destruct (bool_decide _); [reflexivity | discriminate]. }
      rewrite Ha. apply IH; [exact Hnd|].
      intros c' Hc'. apply Hfresh. right. exact Hc'.
Qed.

Section StatisticsAfterUpdate.

Variable ready_change_callback_ : option (bool -> option string).

(** X24.  [Shard::GetStatistics(master)] reports the shard ready when an
    instance of the role it looks at (the masters for [master = true], the
    replicas otherwise) is connected, and copies [last_ready_time_].  Right
    after [ProcessStateUpdate], where every instance is connected, it reports
    ready exactly when the shard has an instance of that role. *)
Theorem sentinel_statistics_ready (master : bool) (now : Z)
    (s : Shard.Shard) :
  let stats := Shard.GetStatistics master s in
  let s' :=
    snd (fst (Shard.ProcessStateUpdate ready_change_callback_ now s)) in
  Shard.is_ready stats
  = existsb (fun c => stats_role master c
                      && is_connected (Shard.instance c))
            (Shard.instances_ s)
  /\ Shard.last_ready_time stats = Shard.last_ready_time_ s
  /\ Shard.is_ready (Shard.GetStatistics master s')
     = existsb (stats_role master) (Shard.instances_ s').
Proof.
  cbv zeta.
  assert (Hr : forall t,
             Shard.is_ready (Shard.GetStatistics master t)
             = existsb (fun c => stats_role master c
                                 && is_connected (Shard.instance c))
                       (Shard.instances_ t)).
  { intros t. unfold Shard.GetStatistics. cbn [Shard.is_ready].
    destruct (stats_fold_ready master (Shard.instances_ t)
                (Shard.mkStats [] false 0)) as [H _].
    cbv zeta in H. rewrite H. cbn. apply orb_false_r. }
  split; [apply Hr|]. split; [reflexivity|].
  rewrite Hr.
  pose proof (state_update_instances_connected ready_change_callback_ now s)
    as Hconn.
  induction (Shard.instances_ _) as [|c l IH]; [reflexivity|].
  cbn [existsb]. rewrite IH by (intros c' Hc'; apply Hconn; right; exact Hc').
  pose proof (Hconn c (or_introl eq_refl)) as Hc.
  unfold entry_connected in Hc. rewrite Hc, andb_true_r. reflexivity.
Qed.

End StatisticsAfterUpdate.

(** X25.  On a shard where no host and port has two live entries, the instance
    map of [Shard::GetStatistics(master)] holds one entry for each instance of
    the role it looks at, keyed by host and port, and nothing else. *)
Theorem sentinel_statistics_entries (master : bool) (s : Shard.Shard) :
  NoDup (map entry_key (Shard.instances_ s)) ->
  Shard.stat_instances (Shard.GetStatistics master s)
  = map (fun c => (entry_key c, Shard.instance c))
        (List.filter (stats_role master) (Shard.instances_ s)).
Proof.
  intros Hnd. unfold Shard.GetStatistics. cbn [Shard.stat_instances].
  rewrite (stats_fold_entries master (Shard.instances_ s)
             (Shard.mkStats [] false 0) Hnd); [reflexivity|].
  intros c _ [].
Qed.

Lemma sentinel_statistics_entries_witness :
  map fst (Shard.stat_instances
             (Shard.GetStatistics false Sample.three_connected))
  = [("r1"%string, 6379); ("r2"%string, 6379)].
Proof.
  rewrite (sentinel_statistics_entries false Sample.three_connected).
  - reflexivity.
  - cbn. repeat constructor; cbn; rewrite ?list_elem_of_In; cbn;
      intuition discriminate.
Defined.

(** *** [SetConnectionInfo] *)

Lemma info_equiv_trans (a b c : Shard.ConnectionInfoInt) :
  Shard.info_equiv a b = true -> Shard.info_equiv b c = true ->
  Shard.info_equiv a c = true.
Proof.
  rewrite !info_equiv_spec. intros [-> ->] [-> ->]. split; reflexivity.
Qed.

Lemma info_equiv_sym (a b : Shard.ConnectionInfoInt) :
  Shard.info_equiv a b = true -> Shard.info_equiv b a = true.
Proof. rewrite !info_equiv_spec. intros [-> ->]. split; reflexivity. Qed.

Lemma set_equal_refl (l : Shard.InfoSet) : Shard.set_equal l l = true.
Proof.
  induction l as [|x l IH]; [reflexivity|].
  cbn. rewrite info_equiv_refl. exact IH.
Qed.

Lemma set_equal_In (a b : Shard.InfoSet) :
  Shard.set_equal a b = true ->
  (forall x, In x a -> exists y, In y b /\ Shard.info_equiv x y = true)
  /\ (forall y, In y b -> exists x, In x a /\ Shard.info_equiv x y = true).
Proof.
  revert b. induction a as [|x a IH]; intros [|y b] He; try discriminate.
  - split; intros z [].
  - cbn in He. apply andb_true_iff in He as [Hxy He].
    destruct (IH b He) as [Hl Hr]. split.
    + intros z [<-|Hz]; [exists y; cbn; auto|].
      destruct (Hl z Hz) as (w & Hw & E). exists w. cbn. auto.
    + intros z [<-|Hz]; [exists x; cbn; auto|].
      destruct (Hr z Hz) as (w & Hw & E). exists w. cbn. auto.
Qed.

Lemma set_insert_keeps (x z : Shard.ConnectionInfoInt) (l : Shard.InfoSet) :
  In z l -> In z (Shard.set_insert x l).
Proof.
  induction l as [|y l IH]; [intros []|].
  cbn [Shard.set_insert].
  destruct (Shard.info_less x y); [intros H; right; exact H|].
  destruct (Shard.info_less y x); [|intros H; exact H].
  intros [<-|H]; [left; reflexivity | right; exact (IH H)].
Qed.

Lemma set_insert_has (x : Shard.ConnectionInfoInt) (l : Shard.InfoSet) :
  exists y, In y (Shard.set_insert x l) /\ Shard.info_equiv x y = true.
Proof.
  induction l as [|y l (w & Hw & E)].
  - exists x. cbn. split; [auto | apply info_equiv_refl].
  - cbn. destruct (Shard.info_less x y) eqn:Exy.
    + exists x. cbn. split; [auto | apply info_equiv_refl].
    + destruct (Shard.info_less y x) eqn:Eyx.
      * exists w. cbn. auto.
      * exists y. cbn. split; [auto|].
        unfold Shard.info_equiv. rewrite Exy, Eyx. reflexivity.
Qed.

(** The set built from the array holds, up to host and port, the infos of
    the array and nothing else. *)
Lemma built_set_covers (info_array : list Shard.ConnectionInfoInt) :
  forall acc : Shard.InfoSet,
    let built :=
      fold_left (fun acc x => Shard.set_insert x acc) info_array acc in
    (forall z, In z acc -> In z built)
    /\ (forall x, In x info_array ->
          exists y, In y built /\ Shard.info_equiv x y = true)
    /\ (forall y, In y built -> In y acc \/ In y info_array).
Proof.
  induction info_array as [|x l IH]; intros acc; cbn zeta.
  - cbn. split; [auto|]. split; [intros x []|auto].
  - cbn [fold_left]. destruct (IH (Shard.set_insert x acc)) as (Hk & Hc & Hs).
    cbn zeta in Hk, Hc, Hs. split; [|split].
    + intros z Hz. apply Hk, set_insert_keeps, Hz.
    + intros z [<-|Hz]; [|exact (Hc z Hz)].
      destruct (set_insert_has x acc) as (y & Hy & E).
      exists y. split; [apply Hk, Hy | exact E].
    + intros y Hy. destruct (Hs y Hy) as [H|H]; [|cbn; auto].
      apply set_insert_In in H as [->|H]; cbn; auto.
Qed.

(** X26.  Whatever [SetConnectionInfo] returns, the desired set it leaves
    holds, up to host and port, exactly the infos of the array; it touches no
    instance, and a second call with the same array returns false and changes
    nothing. *)
Theorem SetConnectionInfo_settles (s : Shard.Shard)
    (info_array : list Shard.ConnectionInfoInt) :
  let s1 := snd (fst (Shard.SetConnectionInfo s info_array)) in
  (forall x, In x info_array ->
     Shard.set_find x (Shard.connection_infos_ s1) <> None)
  /\ (forall y, In y (Shard.connection_infos_ s1) ->
        exists x, In x info_array /\ Shard.info_equiv x y = true)
  /\ Shard.instances_ s1 = Shard.instances_ s
  /\ Shard.clean_wait_ s1 = Shard.clean_wait_ s
  /\ Shard.SetConnectionInfo s1 info_array
     = (false, s1, [Shard.EvLockUnique; Shard.EvUnlock]).
Proof.
  cbv zeta. unfold Shard.SetConnectionInfo.
  destruct (built_set_covers info_array []) as (_ & Hc & Hs).
  cbv zeta in Hc, Hs.
  set (built := fold_left (fun acc x => Shard.set_insert x acc)
                          info_array []) in *.
  destruct (Shard.set_equal built (Shard.connection_infos_ s)) eqn:Eq;
    cbn [fst snd].
  - destruct (set_equal_In _ _ Eq) as [Hl Hr].
    split; [|split; [|split; [reflexivity|split; [reflexivity|]]]].
    + intros x Hx. destruct (Hc x Hx) as (y & Hy & E).
      destruct (Hl y Hy) as (z & Hz & E').
      exact (set_find_equiv x z _ Hz (info_equiv_trans _ _ _ E E')).
    + intros z Hz. destruct (Hr z Hz) as (y & Hy & E).
      destruct (Hs y Hy) as [[]|Hin]. exists y. auto.
    + rewrite Eq. reflexivity.
  - split; [|split; [|split; [reflexivity|split; [reflexivity|]]]].
    + intros x Hx. destruct (Hc x Hx) as (y & Hy & E).
      exact (set_find_equiv x y _ Hy E).
    + intros y Hy. destruct (Hs y Hy) as [[]|Hin].
      exists y. split; [exact Hin | apply info_equiv_refl].
    + cbn [Shard.with_connection_infos Shard.connection_infos_].
      rewrite set_equal_refl. reflexivity.
Qed.
